(** * Home Assistant MCP server: area enrichment, filtering and control

    A shallow embedding of [main.go].  Pure helpers are Rocq functions;
    code that talks to the hub, reads the clock, takes the cache lock or
    mutates the process-wide [areaCache] runs in a small state monad over a
    [World] that records every such effect in a trace.

    Modelling conventions:
    - Go strings are byte strings ([string] of [ascii]); [len] is
      [String.length].  [strings.ToLower] lowers a string of ASCII bytes
      byte by byte and hands any other string to package [unicode], whose
      case tables are a parameter of the development ([strings.Unicode]):
      what is proved holds whatever those tables say.
    - A Go [string] field tagged [omitempty] is absent when it is [""].
    - [map[string]T] is [gmap string T]; [map[string]interface{}] is
      [gmap string jvalue].
    - The process serves one request at a time: taking or releasing the
      cache lock is an event of the trace, and the clock is part of the
      world.
    - An HTTP request of the area pipeline, of the control executor or of
      [getAllStates] goes to one of a fixed set of paths under the configured
      hub URL; [makeHARequest] is modelled for a hub URL with which
      [http.NewRequest] builds them.  [getEntityState] puts the caller's
      identifier into the URL, and there the failure of [http.NewRequest] is
      modelled ([makeHARequestURL]).
    - Logging is not modelled. *)

From stdpp Require Import gmap strings list.
From Stdlib Require Import Ascii ZArith DecimalString Lia.

Set Warnings "-register-all".
Open Scope string_scope.
Open Scope list_scope.
Open Scope Z_scope.

(** ** Package [strings] *)

Module strings.

Definition is_upper (c : ascii) : bool :=
  (65 <=? Z.of_nat (nat_of_ascii c)) && (Z.of_nat (nat_of_ascii c) <=? 90).

Definition lower_byte (c : ascii) : ascii :=
  if is_upper c then ascii_of_nat (nat_of_ascii c + 32) else c.

(** The ASCII letters of [s] in lower case, every other byte as it is. *)
Fixpoint lowerASCII (s : string) : string :=
  match s with
  | EmptyString => EmptyString
  | String c r => String (lower_byte c) (lowerASCII r)
  end.

(** No byte of [s] is [utf8.RuneSelf] (0x80) or above. *)
Fixpoint isASCII (s : string) : bool :=
  match s with
  | EmptyString => true
  | String c r => (Z.of_nat (nat_of_ascii c) <? 128) && isASCII r
  end.

(** Package [unicode].  Its case tables are those of the Unicode standard
    and no part of this program: [MapToLower s] stands for
    [strings.Map(unicode.ToLower, s)], whatever it is. *)
Class Unicode := { MapToLower : string -> string }.

(** [strings.ToLower]: a string of ASCII bytes is lowered byte by byte (its
    letters "A" to "Z" become "a" to "z"); any other string is mapped rune by
    rune through [unicode.ToLower]. *)
Definition ToLower {unicode : Unicode} (s : string) : string :=
  if isASCII s then lowerASCII s else MapToLower s.

(** [strings.HasPrefix(s, prefix)]. *)
Definition HasPrefix (s prefix : string) : bool := String.prefix prefix s.

(** [strings.Contains(s, substr)]. *)
Fixpoint Contains (s substr : string) : bool :=
  HasPrefix s substr ||
  match s with
  | EmptyString => false
  | String _ r => Contains r substr
  end.

(** [strings.ReplaceAll(s, old, new)] for one-byte [old] and [new], the
    only way the program calls it. *)
Fixpoint ReplaceAll (s : string) (old new : ascii) : string :=
  match s with
  | EmptyString => EmptyString
  | String c r =>
      String (if Ascii.eqb c old then new else c) (ReplaceAll r old new)
  end.

(** [strings.Split(s, sep)] for a one-byte separator: [n] separators give
    [n + 1] parts, empty parts included. *)
Fixpoint Split (s : string) (sep : ascii) : list string :=
  match s with
  | EmptyString => [EmptyString]
  | String c r =>
      if Ascii.eqb c sep then EmptyString :: Split r sep
      else match Split r sep with
           | p :: ps => String c p :: ps
           | [] => [String c EmptyString]
           end
  end.

End strings.

(** [len(s)] of a Go string, as a [Z]. *)
Definition len (s : string) : Z := Z.of_nat (String.length s).

(** [s != ""]. *)
Definition nonempty (s : string) : bool := negb (String.eqb s "").

(** [%d] of [fmt.Sprintf]. *)
Definition fmt_d (z : Z) : string := NilZero.string_of_int (Z.to_int z).

(** ** Data model *)

(** A decoded JSON value ([interface{}] after [encoding/json]).  Numbers keep
    their literal. *)
Inductive jvalue : Type :=
  | JNull
  | JBool (b : bool)
  | JNumber (lit : string)
  | JString (s : string)
  | JArray (l : list jvalue)
  | JObject (m : gmap string jvalue).

(** The type assertion [v.(string)] on a map entry that may be missing. *)
Definition as_string (v : option jvalue) : option string :=
  match v with
  | Some (JString s) => Some s
  | _ => None
  end.

Record HAArea := mkArea {
  area_AreaID : string;
  area_Name : string;
  area_Picture : string;
  area_Aliases : list string
}.

Record HADevice := mkDevice {
  dev_ID : string;
  dev_AreaID : string;
  dev_Name : string
}.

Record HAEntity := mkEntity {
  ent_EntityID : string;
  ent_DeviceID : string;
  ent_AreaID : string
}.

Record HAState := mkState {
  st_EntityID : string;
  st_State : string;
  st_Attributes : gmap string jvalue;
  st_LastChanged : string;
  st_LastUpdated : string;
  st_Area : option HAArea
}.

Record Config := mkConfig {
  HAToken : string;
  HAURL : string;
  EntityFilter : list string;
  EntityBlacklist : list string
}.

(** The lowering of text whose characters outside ASCII have no lower-case
    form other than themselves: the ASCII letters are folded and every other
    byte stays.  The concrete examples are run with it; their text is of this
    kind. *)
Definition foldASCII : strings.Unicode := {| strings.MapToLower := strings.lowerASCII |}.

(** ** Vocabulary of the name heuristic *)

Section Heuristic.

Context {unicode : strings.Unicode}.

Definition commonAreaWords : list string :=
  [ "room"; "bedroom"; "bathroom"; "kitchen"; "office";
    "living"; "dining"; "family"; "master"; "guest";
    "hall"; "hallway"; "entrance"; "foyer"; "lobby";
    "garage"; "basement"; "attic"; "closet"; "storage";
    "porch"; "patio"; "deck"; "balcony"; "terrace" ].

Definition isCommonAreaWord (word : string) : bool :=
  let lowerWord := strings.ToLower word in
  existsb (fun commonWord => String.eqb lowerWord commonWord) commonAreaWords.

Definition deviceNames : list string :=
  [ "lolin"; "nodemcu"; "esp"; "arduino"; "sonoff";
    "shelly"; "zigbee"; "zwave"; "wifi"; "bluetooth";
    "sensor"; "switch"; "light"; "lamp"; "bulb";
    "device"; "module"; "controller"; "hub" ].

Definition isDeviceName (name : string) : bool :=
  let lowerName := strings.ToLower name in
  existsb (fun deviceName => strings.Contains lowerName deviceName) deviceNames.

(** [strings.ReplaceAll(strings.ToLower(s), " ", "_")]. *)
Definition normalizeAreaID (s : string) : string :=
  strings.ReplaceAll (strings.ToLower s) " " "_".

(** The guard shared by the two extraction loops. *)
Definition isLightOrSwitch (entityID : string) : bool :=
  strings.HasPrefix entityID "light." || strings.HasPrefix entityID "switch.".

(** The area candidate read off a display name: the block under
    [if nameStr, ok := friendlyName.(string); ok] in both extraction loops.
    [None] when no candidate is produced or the candidate is rejected. *)
Definition possibleAreaOf (nameStr : string) : option string :=
  let parts := strings.Split nameStr " " in
  if (2 <=? Z.of_nat (length parts)) then
    let possibleArea :=
      match parts with
      | p0 :: p1 :: _ =>
          if (3 <=? Z.of_nat (length parts)) && isCommonAreaWord p1
          then p0 +:+ " " +:+ p1
          else p0
      | _ => ""
      end in
    if (3 <? len possibleArea) && negb (isDeviceName possibleArea)
    then Some possibleArea
    else None
  else None.

(** [if _, exists := areasMap[areaID]; !exists { areasMap[areaID] = ... }] *)
Definition registerArea (areasMap : gmap string HAArea) (areaID name : string)
  : gmap string HAArea :=
  match areasMap !! areaID with
  | Some _ => areasMap
  | None => <[areaID := mkArea areaID name "" []]> areasMap
  end.

(** One iteration of the loop of [extractAreasFromStates]. *)
Definition extractAreasStep (areasMap : gmap string HAArea) (state : HAState)
  : gmap string HAArea :=
  if negb (isLightOrSwitch (st_EntityID state)) then areasMap
  else
    let areasMap1 :=
      match as_string (st_Attributes state !! "area") with
      | Some areaStr =>
          if nonempty areaStr
          then registerArea areasMap (normalizeAreaID areaStr) areaStr
          else areasMap
      | None => areasMap
      end in
    match as_string (st_Attributes state !! "friendly_name") with
    | Some nameStr =>
        match possibleAreaOf nameStr with
        | Some possibleArea =>
            registerArea areasMap1 (normalizeAreaID possibleArea) possibleArea
        | None => areasMap1
        end
    | None => areasMap1
    end.

(** The map [areasMap] that [extractAreasFromStates] builds from the decoded
    states. *)
Definition extractAreasMap (states : list HAState) : gmap string HAArea :=
  fold_left extractAreasStep states ∅.

(** The slice returned by [extractAreasFromStates]: the values of the map, in
    an order Go leaves unspecified. *)
Definition areasOfStates (states : list HAState) : list HAArea :=
  (map_to_list (extractAreasMap states)).*2.

(** The loop of [extractEntityAreaFromStates]. *)
Definition entitiesOfStates (states : list HAState) : list HAEntity :=
  fold_left
    (fun entities state =>
       if negb (isLightOrSwitch (st_EntityID state)) then entities
       else
         let areaID :=
           match as_string (st_Attributes state !! "friendly_name") with
           | Some nameStr =>
               match possibleAreaOf nameStr with
               | Some possibleArea => normalizeAreaID possibleArea
               | None => ""
               end
           | None => ""
           end in
         entities ++ [mkEntity (st_EntityID state) "" areaID])
    states [].

Example split_living : strings.Split "Living Room Lamp 1" " " = ["Living"; "Room"; "Lamp"; "1"].
Proof. reflexivity. Qed.

Example possible_living : possibleAreaOf "Living Room Lamp 1" = Some "Living Room".
Proof. reflexivity. Qed.

Example possible_sonoff : possibleAreaOf "Sonoff Switch 1" = None.
Proof. reflexivity. Qed.

Example possible_single : possibleAreaOf "Kitchen" = None.
Proof. reflexivity. Qed.

End Heuristic.

(** ** Entity filter *)

Section Filter.

(** [regexp.MatchString(pattern, s)]: [None] when the pattern does not
    compile ([err != nil]). *)
Variable MatchString : string -> string -> option bool.

Variable config : Config.

(** [err == nil && matched] *)
Definition regexMatches (pattern entityID : string) : bool :=
  match MatchString pattern entityID with
  | Some matched => matched
  | None => false
  end.

Fixpoint isEntityBlacklistedIn (patterns : list string) (entityID : string) : bool :=
  match patterns with
  | [] => false
  | pattern :: rest =>
      if String.eqb pattern entityID then true
      else if regexMatches pattern entityID then true
      else isEntityBlacklistedIn rest entityID
  end.

Definition isEntityBlacklisted (entityID : string) : bool :=
  isEntityBlacklistedIn (EntityBlacklist config) entityID.

Fixpoint isEntityWhitelistedIn (patterns : list string) (entityID : string) : bool :=
  match patterns with
  | [] => false
  | pattern :: rest =>
      if regexMatches pattern entityID then true
      else isEntityWhitelistedIn rest entityID
  end.

Definition isEntityWhitelisted (entityID : string) : bool :=
  isEntityWhitelistedIn (EntityFilter config) entityID.

(** The body of the [for] loop of [filterEntities]. *)
Definition filterStep (filtered : list HAState) (entity : HAState) : list HAState :=
  if isEntityBlacklisted (st_EntityID entity) then filtered
  else if Z.of_nat (length (EntityFilter config)) =? 0 then filtered ++ [entity]
  else if isEntityWhitelisted (st_EntityID entity) then filtered ++ [entity]
  else filtered.

Definition filterEntities (entities : list HAState) : list HAState :=
  fold_left filterStep entities [].

(** The filter as the specification words it. *)
Definition matchesBlacklist (entityID : string) : Prop :=
  exists pattern, In pattern (EntityBlacklist config) /\
    (pattern = entityID \/ MatchString pattern entityID = Some true).

Definition matchesWhitelist (entityID : string) : Prop :=
  exists pattern, In pattern (EntityFilter config) /\
    MatchString pattern entityID = Some true.

Definition passes (entity : HAState) : bool :=
  negb (isEntityBlacklisted (st_EntityID entity)) &&
  (match EntityFilter config with [] => true | _ => false end
   || isEntityWhitelisted (st_EntityID entity)).

End Filter.

(** ** Errors, hub and world *)

(** Go [error] values.  [ErrHub] stands for an error made outside this
    program (net/http, the websocket library, encoding/json); the others are
    the program's own [fmt.Errorf] values. *)
Inductive error : Type :=
  | ErrHub (msg : string)
  | ErrStatusStates (code : Z)
  | ErrStatus (code : Z)
  | ErrUnsupportedEntity (entityID : string)
  | ErrUnsupportedAction (action : string).

(** [err.Error()] *)
Definition Error (e : error) : string :=
  match e with
  | ErrHub msg => msg
  | ErrStatusStates code => "HA API returned status " +:+ fmt_d code +:+ " for states"
  | ErrStatus code => "HA API returned status " +:+ fmt_d code
  | ErrUnsupportedEntity entityID => "unsupported entity type for " +:+ entityID
  | ErrUnsupportedAction action => "unsupported action: " +:+ action
  end.

(** The errors caused by the caller's input rather than by the hub. *)
Definition isUserInputError (e : error) : bool :=
  match e with
  | ErrUnsupportedEntity _ | ErrUnsupportedAction _ => true
  | _ => false
  end.

(** A Go [(T, error)] return. *)
Inductive result (A : Type) : Type :=
  | Ok (a : A)
  | Err (e : error).
Arguments Ok {A} a.
Arguments Err {A} e.

(** [if err != nil { x = []T{} }] *)
Definition orEmpty {A : Type} (r : result (list A)) : list A :=
  match r with
  | Ok l => l
  | Err _ => []
  end.

(** An HTTP response body, seen through what decoding it as each target type
    gives. *)
Record body := mkBody {
  as_areas : result (list HAArea);
  as_devices : result (list HADevice);
  as_entities : result (list HAEntity);
  as_states : result (list HAState)
}.

Record Response := mkResponse {
  StatusCode : Z;
  Body : body
}.

(** Everything the program does to the outside, in order. *)
Inductive event : Type :=
  | EvLock
  | EvUnlock
  | EvRLock
  | EvRUnlock
  | EvWebSocket (requestType : string)
  | EvHTTP (method endpoint : string) (payload : option jvalue)
  | EvSleep (d : Z).

(** The hub and the network: what each request returns, and how long it
    takes, given everything that happened before.  One websocket session
    (dial, "auth_required", "auth", "auth_ok", one request, one response,
    close) is one call. *)
Record Hub := mkHub {
  ws_areas : list event -> result (list HAArea);
  ws_devices : list event -> result (list HADevice);
  ws_entities : list event -> result (list HAEntity);
  http_do : list event -> string -> string -> option jvalue -> result Response;
  elapsed : list event -> event -> Z
}.

(** [time.Duration], in nanoseconds. *)
Definition Millisecond : Z := 1000000.
Definition Minute : Z := 60 * 1000 * Millisecond.
Definition maxDuration : Z := 2 ^ 63 - 1.
Definition minDuration : Z := - 2 ^ 63.

(** [time.Since(t)] at time [now]: the difference, saturated to the range of
    [Duration].  Times are nanoseconds from the zero [time.Time]. *)
Definition Since (now t : Z) : Z :=
  Z.max minDuration (Z.min maxDuration (now - t)).

Record AreaEnrichmentCache := mkCache {
  cache_areas : gmap string HAArea;
  cache_devices : gmap string string;
  cache_entities : gmap string string;
  cache_lastUpdate : Z
}.

(** [var areaCache = &AreaEnrichmentCache{...}]: empty maps, zero time. *)
Definition initialCache : AreaEnrichmentCache := mkCache ∅ ∅ ∅ 0.

Record World := mkWorld {
  w_now : Z;
  w_trace : list event;
  areaCache : AreaEnrichmentCache
}.

Definition M (A : Type) : Type := World -> A * World.

Definition ret {A : Type} (a : A) : M A := fun w => (a, w).

Definition bind {A B : Type} (m : M A) (k : A -> M B) : M B :=
  fun w => let (a, w') := m w in k a w'.

Notation "x <- m ;; k" := (bind m (fun x => k))
  (at level 100, m at next level, right associativity).
Notation "m ;;; k" := (bind m (fun _ => k))
  (at level 100, right associativity).

(** ** The service *)

Section Service.

Context {unicode : strings.Unicode}.

Variable hub : Hub.

(** An effect [ev] happens: it is appended to the trace and the clock
    advances by the time it took. *)
Definition tick (ev : event) (w : World) : World :=
  mkWorld (w_now w + elapsed hub (w_trace w) ev) (w_trace w ++ [ev]) (areaCache w).

Definition emit (ev : event) : M unit := fun w => (tt, tick ev w).

Definition Now : M Z := fun w => (w_now w, w).

Definition getCache : M AreaEnrichmentCache := fun w => (areaCache w, w).

Definition setCache (c : AreaEnrichmentCache) : M unit :=
  fun w => (tt, mkWorld (w_now w) (w_trace w) c).

(** *** Hub client *)

Definition getAreasViaWebSocket : M (result (list HAArea)) :=
  fun w => (ws_areas hub (w_trace w), tick (EvWebSocket "config/area_registry/list") w).

Definition getDevicesViaWebSocket : M (result (list HADevice)) :=
  fun w => (ws_devices hub (w_trace w), tick (EvWebSocket "config/device_registry/list") w).

Definition getEntityRegistryViaWebSocket : M (result (list HAEntity)) :=
  fun w => (ws_entities hub (w_trace w), tick (EvWebSocket "config/entity_registry/list") w).

(** [makeHARequest], for a request that [http.NewRequest] builds: the
    request is sent and the answer, or the error of the client, is
    returned.  [json.Marshal] does not fail on the payloads of this program,
    a map from "entity_id" to a string. *)
Definition makeHARequest (method endpoint : string) (payload : option jvalue)
  : M (result Response) :=
  fun w => (http_do hub (w_trace w) method endpoint payload,
            tick (EvHTTP method endpoint payload) w).

(** *** Area resolution pipeline *)

Definition extractAreasFromStates : M (result (list HAArea)) :=
  r <- makeHARequest "GET" "/api/states" None ;;
  match r with
  | Err err => ret (Err err)
  | Ok resp =>
      if negb (StatusCode resp =? 200) then ret (Err (ErrStatusStates (StatusCode resp)))
      else match as_states (Body resp) with
           | Err err => ret (Err err)
           | Ok states => ret (Ok (areasOfStates states))
           end
  end.

(** The [for _, endpoint := range endpoints] loop of [getAreas] and what
    follows it. *)
Fixpoint getAreasREST (endpoints : list string) : M (result (list HAArea)) :=
  match endpoints with
  | [] => extractAreasFromStates
  | endpoint :: rest =>
      r <- makeHARequest "GET" endpoint None ;;
      match r with
      | Err _ => getAreasREST rest
      | Ok resp =>
          if StatusCode resp =? 200 then
            match as_areas (Body resp) with
            | Err _ => getAreasREST rest
            | Ok areas => ret (Ok areas)
            end
          else getAreasREST rest
      end
  end.

Definition areaEndpoints : list string :=
  [ "/api/config/area_registry"; "/api/areas" ].

Definition getAreas : M (result (list HAArea)) :=
  r <- getAreasViaWebSocket ;;
  match r with
  | Ok areas =>
      if 0 <? Z.of_nat (length areas) then ret (Ok areas)
      else getAreasREST areaEndpoints
  | Err _ => getAreasREST areaEndpoints
  end.

Definition getDevices : M (result (list HADevice)) :=
  r <- getDevicesViaWebSocket ;;
  match r with
  | Ok devicesWS => ret (Ok devicesWS)
  | Err _ =>
      r <- makeHARequest "GET" "/api/config/device_registry" None ;;
      match r with
      | Err err => ret (Err err)
      | Ok resp =>
          if negb (StatusCode resp =? 200) then ret (Ok [])
          else match as_devices (Body resp) with
               | Err err => ret (Err err)
               | Ok devices => ret (Ok devices)
               end
      end
  end.

Definition extractEntityAreaFromStates : M (result (list HAEntity)) :=
  r <- makeHARequest "GET" "/api/states" None ;;
  match r with
  | Err err => ret (Err err)
  | Ok resp =>
      if negb (StatusCode resp =? 200) then ret (Err (ErrStatusStates (StatusCode resp)))
      else match as_states (Body resp) with
           | Err err => ret (Err err)
           | Ok states => ret (Ok (entitiesOfStates states))
           end
  end.

Definition getEntityRegistry : M (result (list HAEntity)) :=
  r <- getEntityRegistryViaWebSocket ;;
  match r with
  | Ok entitiesWS => ret (Ok entitiesWS)
  | Err _ =>
      r <- makeHARequest "GET" "/api/config/entity_registry" None ;;
      match r with
      | Err err => ret (Err err)
      | Ok resp =>
          if negb (StatusCode resp =? 200) then extractEntityAreaFromStates
          else match as_entities (Body resp) with
               | Err err => ret (Err err)
               | Ok entities => ret (Ok entities)
               end
      end
  end.

(** *** Area cache *)

(** [for i := range areas { areaCache.areas[areas[i].AreaID] = &areas[i] }] *)
Definition buildAreas (areas : list HAArea) : gmap string HAArea :=
  fold_left (fun m area => <[area_AreaID area := area]> m) areas ∅.

Definition buildDevices (devices : list HADevice) : gmap string string :=
  fold_left
    (fun m device =>
       if nonempty (dev_AreaID device) then <[dev_ID device := dev_AreaID device]> m
       else m)
    devices ∅.

(** One iteration of the loop that rebuilds [areaCache.entities]. *)
Definition entityStep (devices : gmap string string) (m : gmap string string)
    (entity : HAEntity) : gmap string string :=
  if nonempty (ent_AreaID entity) then <[ent_EntityID entity := ent_AreaID entity]> m
  else if nonempty (ent_DeviceID entity) then
    match devices !! ent_DeviceID entity with
    | Some deviceAreaID => <[ent_EntityID entity := deviceAreaID]> m
    | None => m
    end
  else m.

Definition buildEntities (devices : gmap string string) (entities : list HAEntity)
  : gmap string string :=
  fold_left (entityStep devices) entities ∅.

(** [updateAreaCache]; it always returns [nil], so the return value is
    left out.  [defer areaCache.mu.Unlock()] runs at both returns. *)
Definition updateAreaCache : M unit :=
  emit EvLock ;;;
  now <- Now ;;
  c <- getCache ;;
  if Since now (cache_lastUpdate c) <? 5 * Minute then emit EvUnlock
  else
    ra <- getAreas ;;
    c <- getCache ;;
    setCache (mkCache (buildAreas (orEmpty ra)) (cache_devices c)
                      (cache_entities c) (cache_lastUpdate c)) ;;;
    rd <- getDevices ;;
    c <- getCache ;;
    setCache (mkCache (cache_areas c) (buildDevices (orEmpty rd))
                      (cache_entities c) (cache_lastUpdate c)) ;;;
    re <- getEntityRegistry ;;
    c <- getCache ;;
    setCache (mkCache (cache_areas c) (cache_devices c)
                      (buildEntities (cache_devices c) (orEmpty re))
                      (cache_lastUpdate c)) ;;;
    now <- Now ;;
    c <- getCache ;;
    setCache (mkCache (cache_areas c) (cache_devices c) (cache_entities c) now) ;;;
    emit EvUnlock.

(** The two nested lookups of the enrichment loop. *)
Definition lookupArea (c : AreaEnrichmentCache) (entityID : string) : option HAArea :=
  match cache_entities c !! entityID with
  | Some areaID => cache_areas c !! areaID
  | None => None
  end.

(** The body of [for i := range states] in [enrichWithArea]. *)
Definition enrichState (c : AreaEnrichmentCache) (state : HAState) : HAState :=
  match lookupArea c (st_EntityID state) with
  | Some area =>
      mkState (st_EntityID state) (st_State state) (st_Attributes state)
              (st_LastChanged state) (st_LastUpdated state) (Some area)
  | None => state
  end.

Definition enrichWithArea (states : list HAState) : M (list HAState) :=
  updateAreaCache ;;;
  emit EvRLock ;;;
  c <- getCache ;;
  if (Z.of_nat (size (cache_areas c)) =? 0) && (Z.of_nat (size (cache_entities c)) =? 0)
  then emit EvRUnlock ;;; ret states
  else emit EvRUnlock ;;; ret (map (enrichState c) states).

(** *** Control executor *)

Definition domainOf (entityID : string) : option string :=
  if strings.HasPrefix entityID "light." then Some "light"
  else if strings.HasPrefix entityID "switch." then Some "switch"
  else None.

(** The [switch action] statement. *)
Definition serviceOf (action : string) : option string :=
  if String.eqb action "on" || String.eqb action "turn_on" then Some "turn_on"
  else if String.eqb action "off" || String.eqb action "turn_off" then Some "turn_off"
  else None.

(** [map[string]interface{}{"entity_id": entityID}] *)
Definition serviceCall (entityID : string) : jvalue :=
  JObject {[ "entity_id" := JString entityID ]}.

(** [fmt.Sprintf("/api/services/%s/%s", domain, service)] *)
Definition serviceEndpoint (domain service : string) : string :=
  "/api/services/" +:+ domain +:+ "/" +:+ service.

(** [controlEntity]: [None] is a [nil] error. *)
Definition controlEntity (entityID action : string) : M (option error) :=
  match domainOf entityID with
  | None => ret (Some (ErrUnsupportedEntity entityID))
  | Some domain =>
      match serviceOf action with
      | None => ret (Some (ErrUnsupportedAction action))
      | Some service =>
          r <- makeHARequest "POST" (serviceEndpoint domain service)
                             (Some (serviceCall entityID)) ;;
          match r with
          | Err err => ret (Some err)
          | Ok resp =>
              if negb (StatusCode resp =? 200)
              then ret (Some (ErrStatus (StatusCode resp)))
              else ret None
          end
      end
  end.

(** *** Batch control *)

(** One entry of [results]: the [map[string]interface{}] with the keys
    "index", "entity_id", "action", "success" and "error"; an optional key
    is [None] when the entry does not have it. *)
Record BatchResult := mkResult {
  r_index : Z;
  r_entity_id : option string;
  r_action : option string;
  r_success : bool;
  r_error : option string
}.

(** What a tool handler hands back to the protocol library.
    [ToolResultBatch n ok failed results errors] is the text result of the
    batch handler, before it is rendered as
    "Processed n entities: ok successful, failed failed" followed by the
    JSON of [{"results": results, "errors": errors}]; the key "errors" is
    there only when [errors] is [Some]. *)
Inductive CallToolResult : Type :=
  | ToolResultError (msg : string)
  | ToolResultBatch (processed successful failed : Z)
      (results : list BatchResult) (errors : option (list string)).

(** The body of [for i, entityInterface := range entitiesSlice]: the entry
    appended to [results] and, on failure, the message appended to
    [errors].  [n] is [len(entitiesSlice)]. *)
Definition batchItem (n i : Z) (entityInterface : jvalue)
  : M (BatchResult * option string) :=
  match entityInterface with
  | JObject entityMap =>
      match as_string (entityMap !! "entity_id") with
      | None =>
          let errorMsg := "Entity " +:+ fmt_d i +:+
                          ": entity_id is required and must be a string" in
          ret (mkResult i (Some "") None false (Some errorMsg), Some errorMsg)
      | Some entityID =>
          match as_string (entityMap !! "action") with
          | None =>
              let errorMsg := "Entity " +:+ entityID +:+
                              ": action is required and must be a string" in
              ret (mkResult i (Some entityID) None false (Some errorMsg), Some errorMsg)
          | Some action =>
              err <- controlEntity entityID action ;;
              (if i <? n - 1 then emit (EvSleep (50 * Millisecond)) else ret tt) ;;;
              match err with
              | Some e =>
                  let errorMsg := "Entity " +:+ entityID +:+ ": " +:+ Error e in
                  ret (mkResult i (Some entityID) (Some action) false (Some (Error e)),
                       Some errorMsg)
              | None =>
                  ret (mkResult i (Some entityID) (Some action) true None, None)
              end
          end
      end
  | _ =>
      let errorMsg := "Entity " +:+ fmt_d i +:+
                      ": must be an object with entity_id and action" in
      ret (mkResult i None None false (Some errorMsg), Some errorMsg)
  end.

Fixpoint batchLoop (n i : Z) (entitiesSlice : list jvalue)
    (results : list BatchResult) (errors : list string)
  : M (list BatchResult * list string) :=
  match entitiesSlice with
  | [] => ret (results, errors)
  | entityInterface :: rest =>
      re <- batchItem n i entityInterface ;;
      batchLoop n (i + 1) rest (results ++ [fst re])
        (match snd re with
         | Some errorMsg => errors ++ [errorMsg]
         | None => errors
         end)
  end.

(** [for _, result := range results { if result["success"].(bool) { successCount++ } }] *)
Definition countSuccess (results : list BatchResult) : Z :=
  fold_left (fun successCount result =>
               if r_success result then successCount + 1 else successCount)
            results 0.

(** [controlMultipleEntitiesHandler] on the request's arguments: the
    result and the Go [error] returned next to it. *)
Definition controlMultipleEntitiesHandler (arguments : gmap string jvalue)
  : M (CallToolResult * option error) :=
  match arguments !! "entities" with
  | None => ret (ToolResultError "entities parameter is required", None)
  | Some (JArray entitiesSlice) =>
      let n := Z.of_nat (length entitiesSlice) in
      re <- batchLoop n 0 entitiesSlice [] [] ;;
      let results := fst re in
      let errors := snd re in
      let successCount := countSuccess results in
      ret (ToolResultBatch n successCount (n - successCount) results
             (if 0 <? Z.of_nat (length errors) then Some errors else None),
           None)
  | Some _ => ret (ToolResultError "entities must be an array", None)
  end.

End Service.

(** * Properties *)

(** ** Entity filter *)

Section FilterFacts.

Variable MatchString : string -> string -> option bool.
Variable config : Config.

Lemma regexMatches_true pattern entityID :
  regexMatches MatchString pattern entityID = true <->
  MatchString pattern entityID = Some true.
Proof.
  unfold regexMatches. destruct (MatchString pattern entityID) as [[|]|]; split; congruence.
Qed.

Lemma isEntityBlacklistedIn_true patterns entityID :
  isEntityBlacklistedIn MatchString patterns entityID = true <->
  exists pattern, In pattern patterns /\
    (pattern = entityID \/ MatchString pattern entityID = Some true).
Proof.
  induction patterns as [|p ps IH]; simpl.
  - split; [discriminate | intros (q & [] & _)].
  - destruct (String.eqb p entityID) eqn:Heq.
    + apply String.eqb_eq in Heq. split; [|reflexivity].
      intros _. exists p. auto.
    + destruct (regexMatches MatchString p entityID) eqn:Hre.
      * apply regexMatches_true in Hre. split; [|reflexivity].
        intros _. exists p. auto.
      * rewrite IH. split.
        -- intros (q & Hin & Hq). exists q. auto.
        -- intros (q & [<- | Hin] & Hq).
           ++ destruct Hq as [Hq | Hq].
              ** apply String.eqb_eq in Hq. congruence.
              ** apply regexMatches_true in Hq. congruence.
           ++ exists q. auto.
Qed.

Lemma isEntityWhitelistedIn_true patterns entityID :
  isEntityWhitelistedIn MatchString patterns entityID = true <->
  exists pattern, In pattern patterns /\ MatchString pattern entityID = Some true.
Proof.
  induction patterns as [|p ps IH]; simpl.
  - split; [discriminate | intros (q & [] & _)].
  - destruct (regexMatches MatchString p entityID) eqn:Hre.
    + apply regexMatches_true in Hre. split; [|reflexivity].
      intros _. exists p. auto.
    + rewrite IH. split.
      * intros (q & Hin & Hq). exists q. auto.
      * intros (q & [<- | Hin] & Hq).
        -- apply regexMatches_true in Hq. congruence.
        -- exists q. auto.
Qed.

Lemma filterStep_passes filtered entity :
  filterStep MatchString config filtered entity =
  filtered ++ (if passes MatchString config entity then [entity] else []).
Proof.
  unfold filterStep, passes.
  destruct (isEntityBlacklisted MatchString config (st_EntityID entity)); simpl.
  - now rewrite app_nil_r.
  - destruct (EntityFilter config) as [|p ps]; simpl; [reflexivity|].
    destruct (isEntityWhitelisted MatchString config (st_EntityID entity));
      [reflexivity | now rewrite app_nil_r].
Qed.

Lemma filterEntities_from filtered entities :
  fold_left (filterStep MatchString config) entities filtered =
  filtered ++ List.filter (passes MatchString config) entities.
Proof.
  revert filtered. induction entities as [|e es IH]; intros filtered; simpl.
  - now rewrite app_nil_r.
  - rewrite IH, filterStep_passes, <- app_assoc.
    now destruct (passes MatchString config e).
Qed.

Lemma passes_true entity :
  passes MatchString config entity = true <->
  ~ matchesBlacklist MatchString config (st_EntityID entity) /\
  (EntityFilter config = [] \/ matchesWhitelist MatchString config (st_EntityID entity)).
Proof.
  unfold passes, matchesBlacklist, matchesWhitelist, isEntityBlacklisted, isEntityWhitelisted.
  rewrite andb_true_iff, orb_true_iff, negb_true_iff, isEntityWhitelistedIn_true.
  rewrite <- not_true_iff_false, isEntityBlacklistedIn_true.
  destruct (EntityFilter config); intuition congruence.
Qed.

Lemma filter_sublist {A : Type} (f : A -> bool) (l : list A) :
  sublist (List.filter f l) l.
Proof.
  induction l as [|a l IH]; simpl.
  - constructor.
  - destruct (f a); now constructor.
Qed.

(** C7.  [filterEntities] keeps, in the order of the input, exactly the
    entities whose identifier matches no blacklist pattern (a pattern
    matches when it equals the identifier or when it compiles as a regular
    expression that matches it; a pattern that does not compile matches
    nothing) and, when the whitelist is not empty, matches some whitelist
    regular expression; with an empty whitelist every entity off the
    blacklist is kept. *)
Theorem filterEntities_spec (entities : list HAState) :
  filterEntities MatchString config entities =
    List.filter (passes MatchString config) entities /\
  sublist (filterEntities MatchString config entities) entities /\
  (forall entity,
     In entity (filterEntities MatchString config entities) <->
     In entity entities /\
     ~ matchesBlacklist MatchString config (st_EntityID entity) /\
     (EntityFilter config = [] \/
      matchesWhitelist MatchString config (st_EntityID entity))).
Proof.
  assert (Heq : filterEntities MatchString config entities =
                List.filter (passes MatchString config) entities)
    by apply (filterEntities_from []).
  split; [exact Heq|]. rewrite Heq. split; [apply filter_sublist|].
  intros entity. rewrite filter_In, passes_true. reflexivity.
Qed.

End FilterFacts.

(** ** Heuristic area extraction *)

Section HeuristicNames.

Context {unicode : strings.Unicode}.

(** The area names a state puts forward, in the order the loop body registers
    them: the explicit "area" attribute, then the candidate from the display
    name. *)
Definition explicitArea (state : HAState) : list string :=
  match as_string (st_Attributes state !! "area") with
  | Some areaStr => if nonempty areaStr then [areaStr] else []
  | None => []
  end.

Definition namedArea (state : HAState) : list string :=
  match as_string (st_Attributes state !! "friendly_name") with
  | Some nameStr =>
      match possibleAreaOf nameStr with
      | Some possibleArea => [possibleArea]
      | None => []
      end
  | None => []
  end.

Definition areaNames (states : list HAState) : list string :=
  flat_map (fun state =>
              if isLightOrSwitch (st_EntityID state)
              then explicitArea state ++ namedArea state
              else [])
           states.

Definition registerName (areasMap : gmap string HAArea) (name : string) : gmap string HAArea :=
  registerArea areasMap (normalizeAreaID name) name.

End HeuristicNames.

(** The rules as the specification words them: any explicit string area is
    taken, the display name is looked at only when there is none, it is split
    at runs of white space, a name of one token is its own candidate, and the
    length of a candidate is counted in characters. *)
Module Claimed.

(** The characters of a UTF-8 string: the bytes that do not continue a
    character. *)
Fixpoint runeCount (s : string) : Z :=
  match s with
  | EmptyString => 0
  | String c r =>
      (if Z.land (Z.of_nat (nat_of_ascii c)) 192 =? 128 then 0 else 1) + runeCount r
  end.

Definition isSpace (c : ascii) : bool :=
  let n := Z.of_nat (nat_of_ascii c) in
  (n =? 32) || ((9 <=? n) && (n <=? 13)).

Fixpoint splitWhere (p : ascii -> bool) (s : string) : list string :=
  match s with
  | EmptyString => [EmptyString]
  | String c r =>
      if p c then EmptyString :: splitWhere p r
      else match splitWhere p r with
           | t :: ts => String c t :: ts
           | [] => [String c EmptyString]
           end
  end.

Definition tokens (s : string) : list string :=
  List.filter nonempty (splitWhere isSpace s).

Section Worded.

Context {unicode : strings.Unicode}.

Definition candidate (nameStr : string) : option string :=
  match tokens nameStr with
  | [] => None
  | t0 :: rest =>
      let cand :=
        match rest with
        | t1 :: _ :: _ => if isCommonAreaWord t1 then t0 +:+ " " +:+ t1 else t0
        | _ => t0
        end in
      if (3 <? runeCount cand) && negb (isDeviceName cand) then Some cand else None
  end.

Definition namesOf (state : HAState) : list string :=
  match as_string (st_Attributes state !! "area") with
  | Some areaStr => [areaStr]
  | None =>
      match as_string (st_Attributes state !! "friendly_name") with
      | Some nameStr =>
          match candidate nameStr with
          | Some cand => [cand]
          | None => []
          end
      | None => []
      end
  end.

Definition extractAreasMap (states : list HAState) : gmap string HAArea :=
  fold_left registerName
    (flat_map (fun state =>
                 if isLightOrSwitch (st_EntityID state) then namesOf state else [])
              states)
    ∅.

End Worded.

End Claimed.

(** A state with a display name and, maybe, an explicit area. *)
Definition namedState (entityID friendlyName : string) (area : option string) : HAState :=
  mkState entityID "on"
    (match area with
     | Some a => <["area" := JString a]> {[ "friendly_name" := JString friendlyName ]}
     | None => {[ "friendly_name" := JString friendlyName ]}
     end)
    "" "" None.

Section HeuristicFacts.

Context {unicode : strings.Unicode}.

Lemma isCommonAreaWord_true word :
  isCommonAreaWord word = true <-> In (strings.ToLower word) commonAreaWords.
Proof.
  unfold isCommonAreaWord. rewrite existsb_exists. split.
  - intros (w & Hin & Heq). apply String.eqb_eq in Heq. now subst.
  - intros Hin. exists (strings.ToLower word). split; [exact Hin | apply String.eqb_refl].
Qed.

Lemma isDeviceName_false name :
  isDeviceName name = false <->
  forall deviceName, In deviceName deviceNames ->
    strings.Contains (strings.ToLower name) deviceName = false.
Proof.
  unfold isDeviceName. rewrite <- not_true_iff_false, existsb_exists. split.
  - intros Hno w Hin. apply not_true_iff_false. intros Hc. apply Hno. eauto.
  - intros Hall (w & Hin & Hc). rewrite (Hall w Hin) in Hc. discriminate.
Qed.

Lemma possibleAreaOf_Some nameStr cand :
  possibleAreaOf nameStr = Some cand <->
  exists p0 p1 rest,
    strings.Split nameStr " " = p0 :: p1 :: rest /\
    cand = (if negb (Z.of_nat (length rest) =? 0) && isCommonAreaWord p1
            then p0 +:+ " " +:+ p1 else p0) /\
    3 < len cand /\
    isDeviceName cand = false.
Proof.
  unfold possibleAreaOf.
  destruct (strings.Split nameStr " ") as [|p0 [|p1 rest]] eqn:Hs.
  - simpl. split; [discriminate | intros (? & ? & ? & ? & _); discriminate].
  - simpl. split; [discriminate | intros (? & ? & ? & ? & _); discriminate].
  - replace (2 <=? Z.of_nat (length (p0 :: p1 :: rest))) with true
      by (symmetry; apply Z.leb_le; simpl length; lia).
    replace (3 <=? Z.of_nat (length (p0 :: p1 :: rest)))
      with (negb (Z.of_nat (length rest) =? 0)).
    2:{ simpl length.
        destruct (Z.eqb_spec (Z.of_nat (length rest)) 0),
                 (Z.leb_spec 3 (Z.of_nat (S (S (length rest))))); simpl; lia || reflexivity. }
    set (c := if negb (Z.of_nat (length rest) =? 0) && isCommonAreaWord p1
              then p0 +:+ " " +:+ p1 else p0).
    destruct (3 <? len c) eqn:Hlen; simpl.
    + apply Z.ltb_lt in Hlen. destruct (isDeviceName c) eqn:Hdev; simpl.
      * split; [discriminate|].
        intros (q0 & q1 & r & [= <- <- <-] & -> & _ & Hd). fold c in Hd. congruence.
      * split.
        -- intros [= <-]. exists p0, p1, rest. auto.
        -- intros (q0 & q1 & r & [= <- <- <-] & -> & _). reflexivity.
    + apply Z.ltb_ge in Hlen. split; [discriminate|].
      intros (q0 & q1 & r & [= <- <- <-] & -> & Hl & _). fold c in Hl. lia.
Qed.

Lemma extractAreasStep_names areasMap state :
  extractAreasStep areasMap state =
  fold_left registerName
    (if isLightOrSwitch (st_EntityID state)
     then explicitArea state ++ namedArea state else [])
    areasMap.
Proof.
  unfold extractAreasStep, explicitArea, namedArea, registerName.
  destruct (isLightOrSwitch (st_EntityID state)); simpl; [|reflexivity].
  rewrite fold_left_app.
  destruct (as_string (st_Attributes state !! "area")) as [areaStr|];
    [destruct (nonempty areaStr)|];
    (destruct (as_string (st_Attributes state !! "friendly_name")) as [nameStr|];
     [destruct (possibleAreaOf nameStr)|]); reflexivity.
Qed.

Lemma extractAreas_from areasMap states :
  fold_left extractAreasStep states areasMap =
  fold_left registerName (areaNames states) areasMap.
Proof.
  revert areasMap. induction states as [|state states IH]; intros areasMap; simpl.
  - reflexivity.
  - rewrite fold_left_app, IH, extractAreasStep_names. reflexivity.
Qed.

(** The first name of a list whose normal form is [areaID]. *)
Definition firstNamed (areaID : string) (names : list string) : option string :=
  List.find (fun name => String.eqb (normalizeAreaID name) areaID) names.

Lemma registerName_lookup areasMap name areaID :
  registerName areasMap name !! areaID =
  match areasMap !! areaID with
  | Some area => Some area
  | None => if String.eqb (normalizeAreaID name) areaID
            then Some (mkArea areaID name "" []) else None
  end.
Proof.
  unfold registerName, registerArea.
  destruct (String.eqb_spec (normalizeAreaID name) areaID) as [<-|Hne].
  - destruct (areasMap !! normalizeAreaID name) eqn:Hl.
    + now rewrite Hl.
    + now rewrite lookup_insert_eq.
  - destruct (areasMap !! normalizeAreaID name).
    + now destruct (areasMap !! areaID).
    + rewrite lookup_insert_ne by exact Hne. now destruct (areasMap !! areaID).
Qed.

Lemma registerNames_lookup names areasMap areaID :
  fold_left registerName names areasMap !! areaID =
  match areasMap !! areaID with
  | Some area => Some area
  | None => (fun name => mkArea areaID name "" []) <$> firstNamed areaID names
  end.
Proof.
  revert areasMap. induction names as [|name names IH]; intros areasMap; simpl.
  - now destruct (areasMap !! areaID).
  - rewrite IH, registerName_lookup.
    destruct (areasMap !! areaID); [reflexivity|].
    now destruct (String.eqb (normalizeAreaID name) areaID).
Qed.

(** C6, as amended.  For the light and switch states, in order, the loop
    registers the explicit "area" attribute when it is a non-empty string and
    then, whether or not there was one, the candidate of the display name;
    an area id belongs to the first name registered for it.  The display name
    is cut at every single space; with fewer than two parts there is no
    candidate; with at least three parts and a second part that is an area
    noun (case ignored) the candidate is the first two parts joined by a
    space, else it is the first part; it is kept when it is longer than 3
    bytes and contains no device word (case ignored).  Case is ignored and
    ids are lowered by [strings.ToLower], whatever the case tables of
    package [unicode] are: the rules hold for every name, in ASCII or not.
    "Living Room Lamp 1" gives the area "living_room" and "Sonoff Switch 1"
    gives none. *)
Theorem extractAreas_rules :
  (forall states areaID,
     extractAreasMap states !! areaID =
     (fun name => mkArea areaID name "" []) <$> firstNamed areaID (areaNames states)) /\
  (forall nameStr cand,
     possibleAreaOf nameStr = Some cand <->
     exists p0 p1 rest,
       strings.Split nameStr " " = p0 :: p1 :: rest /\
       ((rest <> [] /\ In (strings.ToLower p1) commonAreaWords /\
         cand = p0 +:+ " " +:+ p1) \/
        (~ (rest <> [] /\ In (strings.ToLower p1) commonAreaWords) /\ cand = p0)) /\
       3 < len cand /\
       (forall deviceName, In deviceName deviceNames ->
          strings.Contains (strings.ToLower cand) deviceName = false)) /\
  extractAreasMap [namedState "light.lamp1" "Living Room Lamp 1" None] =
    {[ "living_room" := mkArea "living_room" "Living Room" "" [] ]} /\
  extractAreasMap [namedState "switch.s1" "Sonoff Switch 1" None] = ∅.
Proof.
  split; [|split; [|split]].
  - intros states areaID. unfold extractAreasMap.
    rewrite extractAreas_from, registerNames_lookup, lookup_empty. reflexivity.
  - intros nameStr cand. rewrite possibleAreaOf_Some.
    split; intros (p0 & p1 & rest & Hs & Hc & Hl & Hd); exists p0, p1, rest;
      (split; [exact Hs|]).
    + assert (Hd' := proj1 (isDeviceName_false cand) Hd).
      split; [|split; assumption].
      destruct rest as [|r rest]; simpl in Hc.
      * right. split; [intros [Hr _]; congruence | exact Hc].
      * destruct (isCommonAreaWord p1) eqn:Hw.
        -- left. apply isCommonAreaWord_true in Hw. split; [discriminate | auto].
        -- right. split; [|exact Hc]. intros [_ Hin].
           apply isCommonAreaWord_true in Hin. congruence.
    + assert (Hd' := proj2 (isDeviceName_false cand) Hd).
      split; [|split; assumption].
      destruct Hc as [(Hr & Hin & ->) | (Hno & ->)].
      * apply isCommonAreaWord_true in Hin. rewrite Hin.
        destruct rest; [congruence | reflexivity].
      * destruct rest as [|r rest]; [reflexivity|]. simpl.
        destruct (isCommonAreaWord p1) eqn:Hw; [|reflexivity].
        exfalso. apply Hno. split; [discriminate | now apply isCommonAreaWord_true].
  - vm_compute. reflexivity.
  - vm_compute. reflexivity.
Qed.

End HeuristicFacts.

Section Sample.

(** What follows is run with [foldASCII] for the case tables. *)
#[local] Existing Instance foldASCII.

(** The states of the counterexample to the rules as worded: an explicit area
    next to a usable display name, a display name of one token, a display
    name with two spaces in a row, an empty explicit area, and a first word of
    three characters in four bytes. *)
Definition sampleStates : list HAState :=
  [ namedState "light.a" "Kitchen Lamp" (Some "Garden");
    namedState "light.b" "Workshop" None;
    namedState "switch.c" "Attic  Room Lamp" None;
    namedState "light.d" "Cellar Lamp" (Some "");
    namedState "light.e" "Bär Lamp" None ].

Example sample_code_names :
  areaNames sampleStates = ["Garden"; "Kitchen"; "Attic"; "Cellar"; "Bär"].
Proof. vm_compute. reflexivity. Qed.

Example sample_claimed_names :
  flat_map Claimed.namesOf sampleStates = ["Garden"; "Workshop"; "Attic Room"; ""].
Proof. vm_compute. reflexivity. Qed.

(** C6, counterexample.  On [sampleStates] the code and the rules as worded
    part five times: the code registers "kitchen" from the display name of a
    state that has an explicit area; it gets no area from the one-token name
    "Workshop"; it reads "Attic  Room Lamp" (two spaces) as the one-word area
    "Attic", the empty second part not being an area noun; it passes over the
    empty explicit area of "light.d" and registers "cellar" from its display
    name; and it accepts "Bär", which is 4 bytes long.  The names are lowered
    with [foldASCII]: their only capitals are ASCII letters. *)
Lemma extractAreas_not_as_worded :
  (extractAreasMap sampleStates !! "kitchen" = Some (mkArea "kitchen" "Kitchen" "" []) /\
   Claimed.extractAreasMap sampleStates !! "kitchen" = None) /\
  (extractAreasMap sampleStates !! "workshop" = None /\
   Claimed.extractAreasMap sampleStates !! "workshop" =
     Some (mkArea "workshop" "Workshop" "" [])) /\
  (extractAreasMap sampleStates !! "attic_room" = None /\
   Claimed.extractAreasMap sampleStates !! "attic_room" =
     Some (mkArea "attic_room" "Attic Room" "" [])) /\
  (extractAreasMap sampleStates !! "cellar" = Some (mkArea "cellar" "Cellar" "" []) /\
   extractAreasMap sampleStates !! "" = None /\
   Claimed.extractAreasMap sampleStates !! "cellar" = None /\
   Claimed.extractAreasMap sampleStates !! "" = Some (mkArea "" "" "" [])) /\
  (extractAreasMap sampleStates !! "bär" = Some (mkArea "bär" "Bär" "" []) /\
   Claimed.extractAreasMap sampleStates !! "bär" = None) /\
  extractAreasMap sampleStates <> Claimed.extractAreasMap sampleStates.
Proof.
  assert (Hk : extractAreasMap sampleStates !! "kitchen" =
               Some (mkArea "kitchen" "Kitchen" "" [])) by (vm_compute; reflexivity).
  assert (Hk' : Claimed.extractAreasMap sampleStates !! "kitchen" = None)
    by (vm_compute; reflexivity).
  repeat split; try (vm_compute; reflexivity).
  intros Heq. rewrite Heq, Hk' in Hk. discriminate.
Qed.

End Sample.

(** ** Effects of the hub client *)

Section ServiceFacts.

Context {unicode : strings.Unicode}.

Variable hub : Hub.

(** The world with another cache. *)
Definition withCache (c : AreaEnrichmentCache) (w : World) : World :=
  mkWorld (w_now w) (w_trace w) c.

(** The world after a run of effects. *)
Definition ticks (evs : list event) (w : World) : World :=
  fold_left (fun w ev => tick hub ev w) evs w.

Definition isNetwork (ev : event) : Prop :=
  match ev with
  | EvWebSocket _ | EvHTTP _ _ _ => True
  | _ => False
  end.

(** The requests [GET /api/states] that the heuristic tier makes. *)
Definition isStatesRequest (ev : event) : Prop :=
  ev = EvHTTP "GET" "/api/states" None.

Lemma bind_run {A B : Type} (m : M A) (k : A -> M B) (w : World) :
  bind m k w = k (fst (m w)) (snd (m w)).
Proof. unfold bind. now destruct (m w). Qed.

Lemma withCache_same w : withCache (areaCache w) w = w.
Proof. now destruct w. Qed.

Lemma ticks_app evs1 evs2 w : ticks (evs1 ++ evs2) w = ticks evs2 (ticks evs1 w).
Proof. apply fold_left_app. Qed.

Lemma ticks_withCache evs c w : ticks evs (withCache c w) = withCache c (ticks evs w).
Proof.
  revert w. induction evs as [|ev evs IH]; intros w; [reflexivity|].
  exact (IH (tick hub ev w)).
Qed.

Lemma ticks_trace evs w : w_trace (ticks evs w) = w_trace w ++ evs.
Proof.
  revert w. induction evs as [|ev evs IH]; intros w; simpl.
  - now rewrite app_nil_r.
  - unfold ticks in IH. rewrite IH. simpl. now rewrite <- app_assoc.
Qed.

Lemma ticks_cache evs w : areaCache (ticks evs w) = areaCache w.
Proof.
  revert w. induction evs as [|ev evs IH]; intros w; [reflexivity|].
  exact (IH (tick hub ev w)).
Qed.

(** Computations made of hub requests only: they neither read nor write
    the cache, the clock or the lock. *)
Inductive ioOnly : forall {A : Type}, M A -> Prop :=
  | io_ret {A} (a : A) : ioOnly (ret a)
  | io_bind {A B} (m : M A) (k : A -> M B) :
      ioOnly m -> (forall a, ioOnly (k a)) -> ioOnly (bind m k)
  | io_ws_areas : ioOnly (getAreasViaWebSocket hub)
  | io_ws_devices : ioOnly (getDevicesViaWebSocket hub)
  | io_ws_entities : ioOnly (getEntityRegistryViaWebSocket hub)
  | io_http method endpoint payload : ioOnly (makeHARequest hub method endpoint payload).

(** What such a computation does: a run of network events that does not
    depend on the cache, which it hands on untouched. *)
Definition framed {A : Type} (m : M A) : Prop :=
  forall w, exists evs,
    Forall isNetwork evs /\
    forall c, m (withCache c w) = (fst (m w), withCache c (ticks evs w)).

Lemma framed_run {A : Type} (m : M A) (w : World) evs :
  (forall c, m (withCache c w) = (fst (m w), withCache c (ticks evs w))) ->
  m w = (fst (m w), ticks evs w).
Proof.
  intros H. specialize (H (areaCache w)).
  rewrite withCache_same in H.
  rewrite <- (ticks_cache evs w), withCache_same in H. exact H.
Qed.

Lemma ioOnly_framed {A : Type} (m : M A) : ioOnly m -> framed m.
Proof.
  induction 1 as [A a | A B m k Hm IHm Hk IHk | | | | method endpoint payload]; intros w.
  - exists []. split; [constructor | reflexivity].
  - destruct (IHm w) as (evs1 & Hn1 & H1).
    pose proof (framed_run _ _ _ H1) as Hrun.
    destruct (IHk (fst (m w)) (ticks evs1 w)) as (evs2 & Hn2 & H2).
    exists (evs1 ++ evs2). split; [now apply Forall_app|].
    intros c. rewrite !bind_run, H1, Hrun. simpl.
    rewrite H2, ticks_app. reflexivity.
  - exists [EvWebSocket "config/area_registry/list"]. split; [repeat constructor | reflexivity].
  - exists [EvWebSocket "config/device_registry/list"]. split; [repeat constructor | reflexivity].
  - exists [EvWebSocket "config/entity_registry/list"]. split; [repeat constructor | reflexivity].
  - exists [EvHTTP method endpoint payload]. split; [repeat constructor | reflexivity].
Qed.

Lemma extractAreasFromStates_io : ioOnly (extractAreasFromStates hub).
Proof.
  unfold extractAreasFromStates. constructor; [constructor|].
  intros [resp|e]; [|constructor].
  destruct (negb (StatusCode resp =? 200)); [constructor|].
  destruct (as_states (Body resp)); constructor.
Qed.

Lemma getAreasREST_io endpoints : ioOnly (getAreasREST hub endpoints).
Proof.
  induction endpoints as [|endpoint rest IH]; simpl.
  - apply extractAreasFromStates_io.
  - constructor; [constructor|]. intros [resp|e]; [|exact IH].
    destruct (StatusCode resp =? 200); [|exact IH].
    destruct (as_areas (Body resp)); [constructor | exact IH].
Qed.

Lemma getAreas_io : ioOnly (getAreas hub).
Proof.
  unfold getAreas. constructor; [constructor|]. intros [areas|e].
  - destruct (0 <? Z.of_nat (length areas)); [constructor | apply getAreasREST_io].
  - apply getAreasREST_io.
Qed.

Lemma getDevices_io : ioOnly (getDevices hub).
Proof.
  unfold getDevices. constructor; [constructor|]. intros [devicesWS|e]; [constructor|].
  constructor; [constructor|]. intros [resp|e']; [|constructor].
  destruct (negb (StatusCode resp =? 200)); [constructor|].
  destruct (as_devices (Body resp)); constructor.
Qed.

Lemma extractEntityAreaFromStates_io : ioOnly (extractEntityAreaFromStates hub).
Proof.
  unfold extractEntityAreaFromStates. constructor; [constructor|].
  intros [resp|e]; [|constructor].
  destruct (negb (StatusCode resp =? 200)); [constructor|].
  destruct (as_states (Body resp)); constructor.
Qed.

Lemma getEntityRegistry_io : ioOnly (getEntityRegistry hub).
Proof.
  unfold getEntityRegistry. constructor; [constructor|]. intros [entitiesWS|e]; [constructor|].
  constructor; [constructor|]. intros [resp|e']; [|constructor].
  destruct (negb (StatusCode resp =? 200)); [apply extractEntityAreaFromStates_io|].
  destruct (as_entities (Body resp)); constructor.
Qed.

Lemma io_run {A : Type} (m : M A) (w : World) :
  ioOnly m -> exists evs, Forall isNetwork evs /\ m w = (fst (m w), ticks evs w).
Proof.
  intros Hio. destruct (ioOnly_framed m Hio w) as (evs & Hn & H).
  exists evs. split; [exact Hn | now apply framed_run].
Qed.

Lemma io_withCache {A : Type} (m : M A) (w : World) (c : AreaEnrichmentCache) :
  ioOnly m -> m (withCache c w) = (fst (m w), withCache c (snd (m w))).
Proof.
  intros Hio. destruct (ioOnly_framed m Hio w) as (evs & Hn & H).
  rewrite H. now rewrite (framed_run _ _ _ H).
Qed.

(** ** Resolution tiers *)

Definition wsAreas : event := EvWebSocket "config/area_registry/list".
Definition wsDevices : event := EvWebSocket "config/device_registry/list".
Definition wsEntities : event := EvWebSocket "config/entity_registry/list".
Definition httpGet (endpoint : string) : event := EvHTTP "GET" endpoint None.

Lemma getDevices_requests (w : World) :
  snd (getDevices hub w) = ticks [wsDevices] w \/
  snd (getDevices hub w) = ticks [wsDevices; httpGet "/api/config/device_registry"] w.
Proof.
  unfold getDevices. rewrite bind_run. simpl.
  destruct (ws_devices hub (w_trace w)) as [devices|e]; [now left|].
  right. rewrite bind_run. simpl.
  destruct (http_do hub _ _ _ _) as [resp|e']; [|reflexivity].
  destruct (negb (StatusCode resp =? 200)); [reflexivity|].
  now destruct (as_devices (Body resp)).
Qed.

(** C5.  The socket tier of the areas registry succeeds only with a
    non-empty list: an empty list sends [getAreas] on to the REST tier, whose
    first request is the first candidate path.  For devices and for entity
    registrations every list the socket returns is accepted, the empty one
    too.  When the socket fails and the device registry answers with a status
    other than 200, [getDevices] returns the empty list and no error; and
    [getDevices] never reads the entity states: it makes the socket request
    and at most the one REST request. *)
Theorem socket_tier_acceptance (w : World) :
  (forall areas, ws_areas hub (w_trace w) = Ok areas -> areas <> [] ->
     getAreas hub w = (Ok areas, tick hub wsAreas w)) /\
  (ws_areas hub (w_trace w) = Ok [] ->
     getAreas hub w = getAreasREST hub areaEndpoints (tick hub wsAreas w) /\
     exists evs,
       snd (getAreas hub w) =
       ticks (wsAreas :: httpGet "/api/config/area_registry" :: evs) w) /\
  (forall devices, ws_devices hub (w_trace w) = Ok devices ->
     getDevices hub w = (Ok devices, tick hub wsDevices w)) /\
  (forall entities, ws_entities hub (w_trace w) = Ok entities ->
     getEntityRegistry hub w = (Ok entities, tick hub wsEntities w)) /\
  (forall e resp,
     ws_devices hub (w_trace w) = Err e ->
     http_do hub (w_trace w ++ [wsDevices]) "GET" "/api/config/device_registry" None = Ok resp ->
     StatusCode resp <> 200 ->
     getDevices hub w =
     (Ok [], tick hub (httpGet "/api/config/device_registry") (tick hub wsDevices w))) /\
  (snd (getDevices hub w) = ticks [wsDevices] w \/
   snd (getDevices hub w) = ticks [wsDevices; httpGet "/api/config/device_registry"] w).
Proof.
  split; [|split; [|split; [|split; [|split]]]].
  - intros areas Hws Hne. unfold getAreas. rewrite bind_run. simpl. rewrite Hws.
    destruct areas; [congruence | reflexivity].
  - intros Hws.
    assert (Hrest : getAreas hub w = getAreasREST hub areaEndpoints (tick hub wsAreas w)).
    { unfold getAreas. rewrite bind_run. simpl. rewrite Hws. reflexivity. }
    split; [exact Hrest|]. rewrite Hrest.
    cbn [areaEndpoints getAreasREST]. rewrite bind_run. cbn [makeHARequest fst snd].
    set (w2 := tick hub (EvHTTP "GET" "/api/config/area_registry" None) _).
    match goal with |- context [snd (?k w2)] =>
      assert (Hio : ioOnly k) end.
    { pose proof (getAreasREST_io ["/api/areas"]) as Hnext.
      destruct (http_do hub _ _ _ _) as [resp|e]; [|exact Hnext].
      destruct (StatusCode resp =? 200); [|exact Hnext].
      destruct (as_areas (Body resp)); [constructor | exact Hnext]. }
    destruct (io_run _ w2 Hio) as (evs & _ & Hrun).
    exists evs. rewrite Hrun. reflexivity.
  - intros devices Hws. unfold getDevices. rewrite bind_run. simpl. now rewrite Hws.
  - intros entities Hws. unfold getEntityRegistry. rewrite bind_run. simpl. now rewrite Hws.
  - intros e resp Hws Hhttp Hst. unfold getDevices. rewrite bind_run. simpl. rewrite Hws.
    rewrite bind_run. simpl. unfold wsDevices in Hhttp. rewrite Hhttp.
    apply Z.eqb_neq in Hst. now rewrite Hst.
  - apply getDevices_requests.
Qed.

Lemma extractEntityAreaFromStates_once (w : World) :
  snd (extractEntityAreaFromStates hub w) = tick hub (httpGet "/api/states") w.
Proof.
  unfold extractEntityAreaFromStates. rewrite bind_run. simpl.
  destruct (http_do hub _ _ _ _) as [r|e']; [|reflexivity].
  destruct (negb (StatusCode r =? 200)); [reflexivity|].
  now destruct (as_states (Body r)).
Qed.

(** C4, as amended.  When the socket tier of the entity registry fails and
    the one REST path answers, a status other than 200 hands over to the
    heuristic extraction, which makes exactly one request for the entity
    states and whose result is the result; a 200 answer that does not decode
    makes [getEntityRegistry] return that decoding error, and the entity
    states are not read. *)
Theorem entity_registry_rest_tier (w : World) (e : error) (resp : Response) :
  ws_entities hub (w_trace w) = Err e ->
  http_do hub (w_trace w ++ [wsEntities]) "GET" "/api/config/entity_registry" None = Ok resp ->
  let w2 := tick hub (httpGet "/api/config/entity_registry") (tick hub wsEntities w) in
  (StatusCode resp <> 200 ->
     getEntityRegistry hub w = extractEntityAreaFromStates hub w2 /\
     snd (getEntityRegistry hub w) = tick hub (httpGet "/api/states") w2) /\
  (StatusCode resp = 200 ->
     forall err, as_entities (Body resp) = Err err ->
       getEntityRegistry hub w = (Err err, w2)).
Proof.
  intros Hws Hhttp w2.
  assert (Hrun : getEntityRegistry hub w =
                 (if negb (StatusCode resp =? 200) then extractEntityAreaFromStates hub
                  else match as_entities (Body resp) with
                       | Err err => ret (Err err)
                       | Ok entities => ret (Ok entities)
                       end) w2).
  { unfold getEntityRegistry. rewrite bind_run. simpl. rewrite Hws.
    rewrite bind_run. simpl. unfold wsEntities in Hhttp. rewrite Hhttp. reflexivity. }
  split.
  - intros Hst. apply Z.eqb_neq in Hst. rewrite Hrun, Hst. simpl. split; [reflexivity|].
    apply extractEntityAreaFromStates_once.
  - intros Hst err Hdec. rewrite Hrun, Hst, Hdec. reflexivity.
Qed.

(** ** Control executor *)

Definition supportedEntity (entityID : string) : Prop :=
  strings.HasPrefix entityID "light." = true \/ strings.HasPrefix entityID "switch." = true.

Definition supportedAction (action : string) : Prop :=
  action = "on" \/ action = "turn_on" \/ action = "off" \/ action = "turn_off".

Lemma domainOf_None entityID : domainOf entityID = None <-> ~ supportedEntity entityID.
Proof.
  unfold domainOf, supportedEntity.
  destruct (strings.HasPrefix entityID "light."), (strings.HasPrefix entityID "switch.");
    split; try discriminate; try tauto; intros _ [H|H]; discriminate.
Qed.

Lemma serviceOf_None action : serviceOf action = None <-> ~ supportedAction action.
Proof.
  unfold serviceOf, supportedAction.
  destruct (String.eqb_spec action "on"), (String.eqb_spec action "turn_on"),
           (String.eqb_spec action "off"), (String.eqb_spec action "turn_off");
    simpl; split; try discriminate; try tauto.
Qed.

(** C8.  When the identifier starts with neither "light." nor "switch.", or
    the action is none of "on", "turn_on", "off", "turn_off", [controlEntity]
    returns a user-input error and the world is untouched: no request was
    made.  Otherwise it makes exactly one request, a POST to
    "/api/services/<domain>/<service>" with the entity id as payload, and
    returns no error if and only if that request was answered with status
    200. *)
Theorem controlEntity_spec (entityID action : string) (w : World) :
  (~ supportedEntity entityID \/ ~ supportedAction action ->
     exists e, controlEntity hub entityID action w = (Some e, w) /\
               isUserInputError e = true) /\
  (supportedEntity entityID -> supportedAction action ->
     let domain := if strings.HasPrefix entityID "light." then "light" else "switch" in
     let service := if String.eqb action "on" || String.eqb action "turn_on"
                    then "turn_on" else "turn_off" in
     let endpoint := "/api/services/" +:+ domain +:+ "/" +:+ service in
     let payload := Some (JObject {[ "entity_id" := JString entityID ]}) in
     snd (controlEntity hub entityID action w) = tick hub (EvHTTP "POST" endpoint payload) w /\
     (fst (controlEntity hub entityID action w) = None <->
      exists resp, http_do hub (w_trace w) "POST" endpoint payload = Ok resp /\
                   StatusCode resp = 200)).
Proof.
  split.
  - intros Hbad. unfold controlEntity.
    destruct (domainOf entityID) as [domain|] eqn:Hd.
    + destruct (serviceOf action) as [service|] eqn:Hs.
      * exfalso. destruct Hbad as [Hbad|Hbad].
        -- apply domainOf_None in Hbad. congruence.
        -- apply serviceOf_None in Hbad. congruence.
      * eexists. split; reflexivity.
    + eexists. split; reflexivity.
  - intros He Ha domain service endpoint payload.
    assert (Hd : domainOf entityID = Some domain).
    { unfold domainOf, domain. destruct He as [He|He]; rewrite He; [reflexivity|].
      now destruct (strings.HasPrefix entityID "light."). }
    assert (Hs : serviceOf action = Some service).
    { unfold serviceOf, service.
      destruct Ha as [ -> | [ -> | [ -> | -> ] ] ]; reflexivity. }
    unfold controlEntity. rewrite Hd, Hs, bind_run. simpl.
    fold (serviceEndpoint domain service). change (serviceEndpoint domain service) with endpoint.
    change (Some (serviceCall entityID)) with payload.
    destruct (http_do hub (w_trace w) "POST" endpoint payload) as [resp|e] eqn:Hhttp.
    + destruct (Z.eqb_spec (StatusCode resp) 200) as [Hst|Hst]; simpl.
      * split; [reflexivity|]. split; [eauto | reflexivity].
      * split; [reflexivity|]. split; [discriminate|].
        intros (r & [= <-] & Hr). congruence.
    + split; [reflexivity|]. split; [discriminate | intros (r & Hr & _); discriminate].
Qed.

(** ** Area cache *)

Lemma getAreas_events (w : World) :
  exists evs, Forall isNetwork evs /\ snd (getAreas hub w) = ticks (wsAreas :: evs) w.
Proof.
  unfold getAreas. rewrite bind_run. cbn [getAreasViaWebSocket fst snd].
  match goal with |- context [snd (?k (tick hub ?ev w))] => assert (Hio : ioOnly k) end.
  { destruct (ws_areas hub (w_trace w)) as [areas|e]; [|apply getAreasREST_io].
    destruct (0 <? Z.of_nat (length areas)); [constructor | apply getAreasREST_io]. }
  destruct (io_run _ (tick hub wsAreas w) Hio) as (evs & Hn & Hrun).
  exists evs. split; [exact Hn|]. unfold wsAreas in *. rewrite Hrun. reflexivity.
Qed.

Lemma getDevices_events (w : World) :
  exists evs, Forall isNetwork evs /\ snd (getDevices hub w) = ticks (wsDevices :: evs) w.
Proof.
  destruct (getDevices_requests w) as [H|H]; rewrite H.
  - exists []. split; [constructor | reflexivity].
  - exists [httpGet "/api/config/device_registry"]. split; [repeat constructor | reflexivity].
Qed.

Lemma getEntityRegistry_events (w : World) :
  exists evs, Forall isNetwork evs /\
              snd (getEntityRegistry hub w) = ticks (wsEntities :: evs) w.
Proof.
  unfold getEntityRegistry. rewrite bind_run. cbn [getEntityRegistryViaWebSocket fst snd].
  match goal with |- context [snd (?k (tick hub ?ev w))] => assert (Hio : ioOnly k) end.
  { destruct (ws_entities hub (w_trace w)) as [entities|e]; [constructor|].
    constructor; [constructor|]. intros [resp|e']; [|constructor].
    destruct (negb (StatusCode resp =? 200)); [apply extractEntityAreaFromStates_io|].
    destruct (as_entities (Body resp)); constructor. }
  destruct (io_run _ (tick hub wsEntities w) Hio) as (evs & Hn & Hrun).
  exists evs. split; [exact Hn|]. unfold wsEntities in *. rewrite Hrun. reflexivity.
Qed.

(** The staleness test of [updateAreaCache], made once the lock is held. *)
Definition stale (w : World) : Prop :=
  5 * Minute <= Since (w_now (tick hub EvLock w)) (cache_lastUpdate (areaCache w)).

Definition fresh (w : World) : Prop :=
  Since (w_now (tick hub EvLock w)) (cache_lastUpdate (areaCache w)) < 5 * Minute.

(** The cache a refresh leaves, from what the three fetches returned and the
    time the last of them was done. *)
Definition refreshed (ra : result (list HAArea)) (rd : result (list HADevice))
    (re : result (list HAEntity)) (now : Z) : AreaEnrichmentCache :=
  mkCache (buildAreas (orEmpty ra)) (buildDevices (orEmpty rd))
          (buildEntities (buildDevices (orEmpty rd)) (orEmpty re)) now.

Lemma updateAreaCache_fresh (w : World) :
  fresh w -> updateAreaCache hub w = (tt, tick hub EvUnlock (tick hub EvLock w)).
Proof.
  intros Hf. apply Z.ltb_lt in Hf. unfold updateAreaCache.
  repeat (rewrite bind_run; cbv beta). cbn [emit Now getCache fst snd].
  change (areaCache (tick hub EvLock w)) with (areaCache w).
  rewrite Hf. reflexivity.
Qed.

Lemma updateAreaCache_stale (w : World) :
  stale w ->
  let w1 := tick hub EvLock w in
  let wa := snd (getAreas hub w1) in
  let wd := snd (getDevices hub wa) in
  let wf := snd (getEntityRegistry hub wd) in
  updateAreaCache hub w =
  (tt, tick hub EvUnlock
         (withCache (refreshed (fst (getAreas hub w1)) (fst (getDevices hub wa))
                               (fst (getEntityRegistry hub wd)) (w_now wf)) wf)).
Proof.
  intros Hs w1 wa wd wf. apply Z.ltb_ge in Hs. unfold updateAreaCache.
  repeat (rewrite bind_run; cbv beta). cbn [emit Now getCache fst snd].
  change (areaCache (tick hub EvLock w)) with (areaCache w).
  rewrite Hs. cbv iota.
  repeat (rewrite bind_run; cbv beta). cbn [emit Now getCache setCache fst snd].
  fold w1. fold wa.
  change (mkWorld (w_now wa) (w_trace wa) ?c) with (withCache c wa).
  rewrite (io_withCache _ wa _ getDevices_io). cbn [fst snd]. fold wd.
  cbn [withCache areaCache w_now w_trace cache_areas cache_devices cache_entities cache_lastUpdate].
  change (mkWorld (w_now wd) (w_trace wd) ?c) with (withCache c wd).
  rewrite (io_withCache _ wd _ getEntityRegistry_io). cbn [fst snd]. fold wf.
  reflexivity.
Qed.

(** A map filled by a loop of conditional assignments holds, under each key,
    the value of the last assignment to that key. *)
Lemma assignments_lookup {A V : Type} (g : A -> option (string * V))
    (f : gmap string V -> A -> gmap string V) (l : list A) (key : string) :
  (forall m x, f m x = match g x with Some (k, v) => <[k := v]> m | None => m end) ->
  fold_left f l ∅ !! key =
  last (omap (fun x => match g x with
                       | Some (k, v) => if String.eqb k key then Some v else None
                       | None => None
                       end) l).
Proof.
  intros Hf. induction l as [|x l IH] using rev_ind.
  - reflexivity.
  - rewrite fold_left_app, omap_app, last_app. simpl. rewrite Hf.
    destruct (g x) as [[k v]|]; simpl.
    + destruct (String.eqb_spec k key) as [->|Hne]; simpl.
      * now rewrite lookup_insert_eq.
      * rewrite lookup_insert_ne by exact Hne. exact IH.
    + exact IH.
Qed.

(** The area a fetched device assigns to [deviceID], if any. *)
Definition deviceArea (deviceID : string) (device : HADevice) : option string :=
  if String.eqb (dev_ID device) deviceID && nonempty (dev_AreaID device)
  then Some (dev_AreaID device) else None.

(** The area id an entity registration resolves to: its own when it has
    one, else that of its device when it names one that is in the device
    map. *)
Definition resolve (devices : gmap string string) (entity : HAEntity) : option string :=
  if nonempty (ent_AreaID entity) then Some (ent_AreaID entity)
  else if nonempty (ent_DeviceID entity) then devices !! ent_DeviceID entity
  else None.

Definition resolvesFor (devices : gmap string string) (entityID : string)
    (entity : HAEntity) : option string :=
  if String.eqb (ent_EntityID entity) entityID then resolve devices entity else None.

Lemma nonempty_true s : nonempty s = true <-> s <> "".
Proof. unfold nonempty. destruct (String.eqb_spec s ""); simpl; split; congruence. Qed.

Lemma nonempty_false s : nonempty s = false <-> s = "".
Proof. unfold nonempty. destruct (String.eqb_spec s ""); simpl; split; congruence. Qed.

Lemma buildAreas_lookup (areas : list HAArea) (areaID : string) :
  buildAreas areas !! areaID =
  last (List.filter (fun area => String.eqb (area_AreaID area) areaID) areas).
Proof.
  unfold buildAreas.
  rewrite (assignments_lookup (fun area => Some (area_AreaID area, area))) by reflexivity.
  f_equal. induction areas as [|a l IH]; csimpl; [reflexivity|].
  destruct (String.eqb (area_AreaID a) areaID); csimpl; now rewrite IH.
Qed.

Lemma buildDevices_lookup (devices : list HADevice) (deviceID : string) :
  buildDevices devices !! deviceID = last (omap (deviceArea deviceID) devices).
Proof.
  unfold buildDevices.
  rewrite (assignments_lookup
             (fun device => if nonempty (dev_AreaID device)
                            then Some (dev_ID device, dev_AreaID device) else None)).
  - f_equal. induction devices as [|d l IH]; csimpl; [reflexivity|].
    unfold deviceArea at 1.
    destruct (nonempty (dev_AreaID d)), (String.eqb (dev_ID d) deviceID); csimpl;
      now rewrite IH.
  - intros m x. now destruct (nonempty (dev_AreaID x)).
Qed.

Lemma buildDevices_dom (devices : list HADevice) (deviceID : string) :
  is_Some (buildDevices devices !! deviceID) <->
  exists device, In device devices /\ dev_ID device = deviceID /\ dev_AreaID device <> "".
Proof.
  rewrite buildDevices_lookup. induction devices as [|d l IH] using rev_ind.
  - simpl. split; [intros [x Hx]; discriminate | intros (x & [] & _)].
  - rewrite omap_app, last_app. simpl. unfold deviceArea at 1.
    destruct (String.eqb_spec (dev_ID d) deviceID) as [Hid|Hid]; simpl.
    + destruct (nonempty (dev_AreaID d)) eqn:Hne; simpl.
      * apply nonempty_true in Hne. split; [|eauto].
        intros _. exists d. rewrite in_app_iff. simpl. auto.
      * apply nonempty_false in Hne. rewrite IH. split.
        -- intros (x & Hin & Hx). exists x. rewrite in_app_iff. auto.
        -- intros (x & Hin & Hx1 & Hx2). apply in_app_iff in Hin.
           destruct Hin as [Hin|[<-|[]]]; [eauto | congruence].
    + rewrite IH. split.
      * intros (x & Hin & Hx). exists x. rewrite in_app_iff. auto.
      * intros (x & Hin & Hx1 & Hx2). apply in_app_iff in Hin.
        destruct Hin as [Hin|[<-|[]]]; [eauto | congruence].
Qed.

Lemma entityStep_resolve devices m entity :
  entityStep devices m entity =
  match resolve devices entity with
  | Some areaID => <[ent_EntityID entity := areaID]> m
  | None => m
  end.
Proof.
  unfold entityStep, resolve.
  destruct (nonempty (ent_AreaID entity)); [reflexivity|].
  destruct (nonempty (ent_DeviceID entity)); reflexivity.
Qed.

Lemma buildEntities_lookup devices (entities : list HAEntity) (entityID : string) :
  buildEntities devices entities !! entityID =
  last (omap (resolvesFor devices entityID) entities).
Proof.
  unfold buildEntities.
  rewrite (assignments_lookup
             (fun entity => match resolve devices entity with
                            | Some areaID => Some (ent_EntityID entity, areaID)
                            | None => None
                            end)).
  - f_equal. induction entities as [|e l IH]; csimpl; [reflexivity|].
    unfold resolvesFor at 1.
    destruct (resolve devices e), (String.eqb (ent_EntityID e) entityID); csimpl;
      now rewrite IH.
  - intros m x. rewrite entityStep_resolve. now destruct (resolve devices x).
Qed.

Lemma resolve_Some devices entity areaID :
  resolve devices entity = Some areaID <->
  (ent_AreaID entity <> "" /\ areaID = ent_AreaID entity) \/
  (ent_AreaID entity = "" /\ ent_DeviceID entity <> "" /\
   devices !! ent_DeviceID entity = Some areaID).
Proof.
  unfold resolve.
  destruct (nonempty (ent_AreaID entity)) eqn:Ha.
  - apply nonempty_true in Ha. split.
    + intros [= <-]. left. auto.
    + intros [[_ ->] | [He _]]; [reflexivity | congruence].
  - apply nonempty_false in Ha. destruct (nonempty (ent_DeviceID entity)) eqn:Hd.
    + apply nonempty_true in Hd. split.
      * intros H. right. auto.
      * intros [[Hne _] | (_ & _ & H)]; [congruence | exact H].
    + apply nonempty_false in Hd. split; [discriminate|].
      intros [[Hne _] | (_ & Hne & _)]; congruence.
Qed.

Lemma lookupArea_Some c entityID area :
  lookupArea c entityID = Some area <->
  exists areaID, cache_entities c !! entityID = Some areaID /\
                 cache_areas c !! areaID = Some area.
Proof.
  unfold lookupArea. destruct (cache_entities c !! entityID) as [areaID|].
  - split; [eauto | intros (a & [= <-] & H); exact H].
  - split; [discriminate | intros (a & H & _); discriminate].
Qed.

(** The state with its area set, everything else as it was. *)
Definition withArea (state : HAState) (area : HAArea) : HAState :=
  mkState (st_EntityID state) (st_State state) (st_Attributes state)
          (st_LastChanged state) (st_LastUpdated state) (Some area).

Lemma enrichWithArea_run (states : list HAState) (w : World) :
  let wu := snd (updateAreaCache hub w) in
  enrichWithArea hub states w =
  (map (enrichState (areaCache wu)) states, tick hub EvRUnlock (tick hub EvRLock wu)).
Proof.
  intros wu. unfold enrichWithArea.
  repeat (rewrite bind_run; cbv beta). cbn [emit getCache fst snd]. fold wu.
  change (areaCache (tick hub EvRLock wu)) with (areaCache wu).
  destruct ((Z.of_nat (size (cache_areas (areaCache wu))) =? 0) &&
            (Z.of_nat (size (cache_entities (areaCache wu))) =? 0)) eqn:Hempty.
  - rewrite bind_run. cbn [emit ret fst snd]. f_equal.
    apply andb_true_iff in Hempty. destruct Hempty as [_ He].
    apply Z.eqb_eq in He.
    assert (Hent : cache_entities (areaCache wu) = ∅).
    { apply map_size_empty_iff. lia. }
    induction states as [|s l IH]; simpl; [reflexivity|].
    rewrite <- IH. f_equal. unfold enrichState, lookupArea.
    now rewrite Hent, lookup_empty.
  - rewrite bind_run. reflexivity.
Qed.

Lemma enrichState_cases c state :
  enrichState c state =
  match lookupArea c (st_EntityID state) with
  | Some area => withArea state area
  | None => state
  end.
Proof. reflexivity. Qed.

(** C1.  In a refresh the device map gets exactly the fetched devices that
    have a non-empty area id (the last one listed decides for an id listed
    twice), and the entity map is built from the fetched entity
    registrations: a registration resolves to its own area id when that is
    not empty, else to the area of its device when it names a device that is
    in the device map just built, else to nothing; an entity id is mapped to
    what the last of its registrations that resolve resolves to, and is not
    in the map when none does.  The enrichment that follows sets the area of
    a state if and only if its id is in the entity map and the area id found
    there is in the areas map. *)
Theorem entity_map_resolution (w : World) (states : list HAState) :
  stale w ->
  let w1 := tick hub EvLock w in
  let wa := snd (getAreas hub w1) in
  let wd := snd (getDevices hub wa) in
  let devices := orEmpty (fst (getDevices hub wa)) in
  let entities := orEmpty (fst (getEntityRegistry hub wd)) in
  let c := areaCache (snd (updateAreaCache hub w)) in
  (forall deviceID,
     is_Some (cache_devices c !! deviceID) <->
     exists device, In device devices /\ dev_ID device = deviceID /\
                    dev_AreaID device <> "") /\
  (forall deviceID,
     cache_devices c !! deviceID = last (omap (deviceArea deviceID) devices)) /\
  (forall entityID,
     cache_entities c !! entityID =
     last (omap (resolvesFor (cache_devices c) entityID) entities)) /\
  (forall entity areaID,
     resolve (cache_devices c) entity = Some areaID <->
     (ent_AreaID entity <> "" /\ areaID = ent_AreaID entity) \/
     (ent_AreaID entity = "" /\ ent_DeviceID entity <> "" /\
      cache_devices c !! ent_DeviceID entity = Some areaID)) /\
  (forall entityID,
     (forall entity, In entity entities -> ent_EntityID entity = entityID ->
                     resolve (cache_devices c) entity = None) ->
     cache_entities c !! entityID = None) /\
  fst (enrichWithArea hub states w) =
    map (fun state => match lookupArea c (st_EntityID state) with
                      | Some area => withArea state area
                      | None => state
                      end) states /\
  (forall entityID area,
     lookupArea c entityID = Some area <->
     exists areaID, cache_entities c !! entityID = Some areaID /\
                    cache_areas c !! areaID = Some area).
Proof.
  intros Hs w1 wa wd devices entities c.
  assert (Hc : c = refreshed (fst (getAreas hub w1)) (fst (getDevices hub wa))
                             (fst (getEntityRegistry hub wd))
                             (w_now (snd (getEntityRegistry hub wd)))).
  { unfold c. rewrite (updateAreaCache_stale w Hs). reflexivity. }
  assert (Hdev : cache_devices c = buildDevices devices) by (rewrite Hc; reflexivity).
  assert (Hent : cache_entities c = buildEntities (cache_devices c) entities)
    by (rewrite Hc; reflexivity).
  split; [|split; [|split; [|split; [|split; [|split]]]]].
  - intros deviceID. rewrite Hdev. apply buildDevices_dom.
  - intros deviceID. rewrite Hdev. apply buildDevices_lookup.
  - intros entityID. rewrite Hent at 1. apply buildEntities_lookup.
  - intros entity areaID. apply resolve_Some.
  - intros entityID Hnone. rewrite Hent, buildEntities_lookup.
    replace (omap (resolvesFor (cache_devices c) entityID) entities) with (@nil string);
      [reflexivity|].
    clear Hent. induction entities as [|e l IH]; csimpl; [reflexivity|].
    unfold resolvesFor at 1.
    destruct (String.eqb_spec (ent_EntityID e) entityID) as [Hid|Hid].
    + rewrite (Hnone e (or_introl eq_refl) Hid). apply IH.
      intros e' Hin. apply Hnone. now right.
    + apply IH. intros e' Hin. apply Hnone. now right.
  - rewrite enrichWithArea_run. reflexivity.
  - intros entityID area. apply lookupArea_Some.
Qed.

(** C2.  Let a first call find the cache stale and so run the three fetches,
    whatever they return.  It stamps the cache with the time at which the
    last fetch was done.  A second call whose staleness test falls within
    five minutes of that time makes no request and leaves the three maps and
    the timestamp as they were: it only takes and releases the lock. *)
Theorem refresh_within_window (w1 w2 : World) :
  stale w1 ->
  let wa := snd (getAreas hub (tick hub EvLock w1)) in
  let wd := snd (getDevices hub wa) in
  let wf := snd (getEntityRegistry hub wd) in
  let w1' := snd (updateAreaCache hub w1) in
  areaCache w2 = areaCache w1' ->
  Since (w_now (tick hub EvLock w2)) (w_now wf) < 5 * Minute ->
  cache_lastUpdate (areaCache w1') = w_now wf /\
  updateAreaCache hub w2 = (tt, tick hub EvUnlock (tick hub EvLock w2)) /\
  areaCache (snd (updateAreaCache hub w2)) = areaCache w1' /\
  w_trace (snd (updateAreaCache hub w2)) = w_trace w2 ++ [EvLock; EvUnlock].
Proof.
  intros Hs wa wd wf w1' Hcache Hwin.
  assert (Hstamp : cache_lastUpdate (areaCache w1') = w_now wf).
  { unfold w1'. rewrite (updateAreaCache_stale w1 Hs). reflexivity. }
  assert (Hrun : updateAreaCache hub w2 = (tt, tick hub EvUnlock (tick hub EvLock w2))).
  { apply updateAreaCache_fresh. unfold fresh. now rewrite Hcache, Hstamp. }
  split; [exact Hstamp|]. split; [exact Hrun|]. rewrite Hrun. split.
  - exact Hcache.
  - simpl. now rewrite <- app_assoc.
Qed.

(** C3.  A stale refresh runs all three fetches, in order and between taking
    and releasing the lock, whatever any of them returns.  Each map is then
    built anew from the list its own fetch returned, or from the empty list
    when that fetch failed; nothing of the old cache is kept. *)
Theorem refresh_degrades_per_registry (w : World) :
  stale w ->
  let w1 := tick hub EvLock w in
  let ra := fst (getAreas hub w1) in
  let wa := snd (getAreas hub w1) in
  let rd := fst (getDevices hub wa) in
  let wd := snd (getDevices hub wa) in
  let re := fst (getEntityRegistry hub wd) in
  let w' := snd (updateAreaCache hub w) in
  (cache_areas (areaCache w') = buildAreas (orEmpty ra) /\
   cache_devices (areaCache w') = buildDevices (orEmpty rd) /\
   cache_entities (areaCache w') =
     buildEntities (buildDevices (orEmpty rd)) (orEmpty re)) /\
  (exists evsA evsD evsE,
     Forall isNetwork (evsA ++ evsD ++ evsE) /\
     w_trace w' =
     w_trace w ++ [EvLock] ++ (wsAreas :: evsA) ++ (wsDevices :: evsD) ++
                  (wsEntities :: evsE) ++ [EvUnlock]) /\
  ((exists e, ra = Err e) -> cache_areas (areaCache w') = ∅) /\
  ((exists e, rd = Err e) -> cache_devices (areaCache w') = ∅) /\
  ((exists e, re = Err e) -> cache_entities (areaCache w') = ∅).
Proof.
  intros Hs w1 ra wa rd wd re w'.
  assert (Hw' : w' = tick hub EvUnlock
                       (withCache (refreshed ra rd re (w_now (snd (getEntityRegistry hub wd))))
                                  (snd (getEntityRegistry hub wd)))).
  { unfold w'. rewrite (updateAreaCache_stale w Hs). reflexivity. }
  split; [rewrite Hw'; auto|]. split.
  - destruct (getAreas_events w1) as (evsA & HnA & HA).
    destruct (getDevices_events wa) as (evsD & HnD & HD).
    destruct (getEntityRegistry_events wd) as (evsE & HnE & HE).
    exists evsA, evsD, evsE. split; [rewrite !Forall_app; auto|].
    assert (Ta : w_trace wa = w_trace w1 ++ wsAreas :: evsA)
      by (unfold wa; rewrite HA; apply ticks_trace).
    assert (Td : w_trace wd = w_trace wa ++ wsDevices :: evsD)
      by (unfold wd; rewrite HD; apply ticks_trace).
    assert (Te : w_trace (snd (getEntityRegistry hub wd)) = w_trace wd ++ wsEntities :: evsE)
      by (rewrite HE; apply ticks_trace).
    rewrite Hw'. cbn [tick w_trace withCache]. rewrite Te, Td, Ta.
    unfold w1. cbn [tick w_trace]. rewrite <- !app_assoc. reflexivity.
  - rewrite Hw'. cbn [tick areaCache withCache refreshed cache_areas cache_devices cache_entities].
    split; [|split]; intros [e He]; rewrite He; reflexivity.
Qed.

(** C10.  [enrichWithArea] returns as many states as it was given, in the
    same order; each has the identifier, state, attributes and the two
    timestamps of the one it stands for; it is that very state when its id
    is not in the entity map or the area id found there is not in the areas
    map, and otherwise differs from it in the area only.  When the areas map
    and the entity map are both empty the list comes back as it was. *)
Theorem enrichWithArea_frame (states : list HAState) (w : World) :
  let out := fst (enrichWithArea hub states w) in
  let c := areaCache (snd (enrichWithArea hub states w)) in
  length out = length states /\
  Forall2 (fun state state' =>
             st_EntityID state' = st_EntityID state /\
             st_State state' = st_State state /\
             st_Attributes state' = st_Attributes state /\
             st_LastChanged state' = st_LastChanged state /\
             st_LastUpdated state' = st_LastUpdated state /\
             (cache_entities c !! st_EntityID state = None -> state' = state) /\
             (forall areaID, cache_entities c !! st_EntityID state = Some areaID ->
                             cache_areas c !! areaID = None -> state' = state) /\
             (forall areaID area, cache_entities c !! st_EntityID state = Some areaID ->
                                  cache_areas c !! areaID = Some area ->
                                  state' = withArea state area))
          states out /\
  (cache_areas c = ∅ -> cache_entities c = ∅ -> out = states).
Proof.
  intros out c. unfold out, c. rewrite enrichWithArea_run. cbn [fst snd tick areaCache].
  set (c' := areaCache (snd (updateAreaCache hub w))).
  split; [apply length_map|]. split.
  - induction states as [|s l IH]; simpl; constructor; [|exact IH].
    unfold enrichState, lookupArea.
    destruct (cache_entities c' !! st_EntityID s) as [areaID|]; [|repeat split; congruence].
    destruct (cache_areas c' !! areaID) as [area|] eqn:Ha; simpl.
    + repeat split; try congruence. intros a' area' [= <-]. rewrite Ha. now intros [= <-].
    + repeat split; try congruence.
  - intros _ He. induction states as [|s l IH]; simpl; [reflexivity|].
    rewrite IH. f_equal. unfold enrichState, lookupArea. now rewrite He, lookup_empty.
Qed.

(** ** Batch control *)

(** [errors] with, on failure, the item's message appended. *)
Definition recordError (errors : list string) (e : option string) : list string :=
  match e with
  | Some errorMsg => errors ++ [errorMsg]
  | None => errors
  end.

Definition failures (results : list BatchResult) : list BatchResult :=
  List.filter (fun r => negb (r_success r)) results.

Lemma batchItem_outcome (n i : Z) (entityInterface : jvalue) (w : World) :
  let r := fst (fst (batchItem hub n i entityInterface w)) in
  let e := snd (fst (batchItem hub n i entityInterface w)) in
  r_index r = i /\
  ((r_success r = true /\ r_error r = None /\ e = None) \/
   (r_success r = false /\ is_Some (r_error r) /\ is_Some e)).
Proof.
  unfold batchItem.
  destruct entityInterface as [| | | |l|entityMap]; simpl; try (split; [reflexivity|right; eauto]).
  destruct (as_string (entityMap !! "entity_id")) as [entityID|];
    [|simpl; split; [reflexivity|right; eauto]].
  destruct (as_string (entityMap !! "action")) as [action|];
    [|simpl; split; [reflexivity|right; eauto]].
  repeat (rewrite bind_run; cbv beta).
  destruct (fst (controlEntity hub entityID action w)) as [err|]; simpl.
  - split; [reflexivity|right; eauto].
  - split; [reflexivity|left; auto].
Qed.

Lemma batchLoop_app (n i : Z) (l1 l2 : list jvalue)
    (results : list BatchResult) (errors : list string) (w : World) :
  batchLoop hub n i (l1 ++ l2) results errors w =
  batchLoop hub n (i + Z.of_nat (length l1)) l2
    (fst (fst (batchLoop hub n i l1 results errors w)))
    (snd (fst (batchLoop hub n i l1 results errors w)))
    (snd (batchLoop hub n i l1 results errors w)).
Proof.
  revert i results errors w. induction l1 as [|x l1 IH]; intros i results errors w.
  - simpl. now rewrite Z.add_0_r.
  - cbn [app batchLoop]. rewrite !bind_run. rewrite IH. f_equal.
    cbn [length]. lia.
Qed.

Lemma batchLoop_outcome (n : Z) (entitiesSlice : list jvalue) :
  forall (i : Z) (results : list BatchResult) (errors : list string) (w : World),
  exists new,
    fst (fst (batchLoop hub n i entitiesSlice results errors w)) = results ++ new /\
    length new = length entitiesSlice /\
    (forall k r, new !! k = Some r -> r_index r = i + Z.of_nat k) /\
    (forall r, In r new -> r_success r = false -> is_Some (r_error r)) /\
    exists msgs,
      snd (fst (batchLoop hub n i entitiesSlice results errors w)) = errors ++ msgs /\
      length msgs = length (failures new).
Proof.
  induction entitiesSlice as [|x l IH]; intros i results errors w.
  - exists []. simpl. rewrite app_nil_r. repeat split; try easy.
    exists []. now rewrite app_nil_r.
  - cbn [batchLoop]. rewrite bind_run.
    pose proof (batchItem_outcome n i x w) as Hitem. cbv zeta in Hitem.
    set (r := fst (fst (batchItem hub n i x w))) in *.
    set (e := snd (fst (batchItem hub n i x w))) in *.
    set (w1 := snd (batchItem hub n i x w)).
    destruct Hitem as [Hidx Hcase].
    destruct (IH (i + 1) (results ++ [r]) (recordError errors e) w1)
      as (new & Hres & Hlen & Hix & Herr & msgs & Hmsgs & Hcount).
    exists (r :: new).
    split; [unfold recordError in Hres; rewrite Hres, <- app_assoc; reflexivity|].
    split; [simpl; now rewrite Hlen|].
    split; [|split].
    + intros [|k] r' Hk; simpl in Hk.
      * injection Hk as <-. rewrite Hidx. simpl. lia.
      * rewrite (Hix k r' Hk). lia.
    + intros r' [<-|Hin] Hfail; [|now apply Herr].
      destruct Hcase as [(Hok & _) | (_ & Hsome & _)]; [congruence | exact Hsome].
    + unfold recordError in Hmsgs. unfold failures. simpl.
      destruct Hcase as [(Hok & _ & He) | (Hno & _ & [msg He])]; rewrite He in Hmsgs |- *.
      * exists msgs. rewrite Hok. simpl. split; [exact Hmsgs | exact Hcount].
      * exists (msg :: msgs). rewrite Hno. simpl. split.
        -- rewrite Hmsgs, <- app_assoc. reflexivity.
        -- f_equal. exact Hcount.
Qed.

Lemma countSuccess_from (results : list BatchResult) (acc : Z) :
  fold_left (fun successCount result =>
               if r_success result then successCount + 1 else successCount) results acc =
  acc + Z.of_nat (length results) - Z.of_nat (length (failures results)).
Proof.
  revert acc. induction results as [|r l IH]; intros acc; simpl.
  - lia.
  - rewrite IH. unfold failures. simpl. destruct (r_success r); simpl; lia.
Qed.

(** The world in which the loop takes up the item at position [k]: the one
    the items before it have left. *)
Definition worldBefore (entitiesSlice : list jvalue) (k : nat) (w : World) : World :=
  snd (batchLoop hub (Z.of_nat (length entitiesSlice)) 0 (take k entitiesSlice) [] [] w).

(** An item succeeds in [w]: it is an object with a string under "entity_id"
    and a string under "action", and [controlEntity] returns no error for
    them. *)
Definition succeeds (w : World) (item : jvalue) : Prop :=
  exists entityMap entityID action,
    item = JObject entityMap /\
    as_string (entityMap !! "entity_id") = Some entityID /\
    as_string (entityMap !! "action") = Some action /\
    fst (controlEntity hub entityID action w) = None.

(** The entry of the results list and the message of the error list that
    are due to the item at position [k], taken up in [w]: the four ways to
    fail (not an object, no string "entity_id", no string "action", an error
    of [controlEntity], be it about the input or from the hub), each with a
    message in the error list, and success, with none. *)
Inductive reported (k : Z) (w : World) : jvalue -> BatchResult -> option string -> Prop :=
  | reported_not_object item :
      (forall entityMap, item <> JObject entityMap) ->
      reported k w item
        (mkResult k None None false
           (Some ("Entity " +:+ fmt_d k +:+ ": must be an object with entity_id and action")))
        (Some ("Entity " +:+ fmt_d k +:+ ": must be an object with entity_id and action"))
  | reported_no_entity_id entityMap :
      as_string (entityMap !! "entity_id") = None ->
      reported k w (JObject entityMap)
        (mkResult k (Some "") None false
           (Some ("Entity " +:+ fmt_d k +:+ ": entity_id is required and must be a string")))
        (Some ("Entity " +:+ fmt_d k +:+ ": entity_id is required and must be a string"))
  | reported_no_action entityMap entityID :
      as_string (entityMap !! "entity_id") = Some entityID ->
      as_string (entityMap !! "action") = None ->
      reported k w (JObject entityMap)
        (mkResult k (Some entityID) None false
           (Some ("Entity " +:+ entityID +:+ ": action is required and must be a string")))
        (Some ("Entity " +:+ entityID +:+ ": action is required and must be a string"))
  | reported_error entityMap entityID action e :
      as_string (entityMap !! "entity_id") = Some entityID ->
      as_string (entityMap !! "action") = Some action ->
      fst (controlEntity hub entityID action w) = Some e ->
      reported k w (JObject entityMap)
        (mkResult k (Some entityID) (Some action) false (Some (Error e)))
        (Some ("Entity " +:+ entityID +:+ ": " +:+ Error e))
  | reported_success entityMap entityID action :
      as_string (entityMap !! "entity_id") = Some entityID ->
      as_string (entityMap !! "action") = Some action ->
      fst (controlEntity hub entityID action w) = None ->
      reported k w (JObject entityMap)
        (mkResult k (Some entityID) (Some action) true None)
        None.

Lemma batchItem_reported (n i : Z) (entityInterface : jvalue) (w : World) :
  reported i w entityInterface
    (fst (fst (batchItem hub n i entityInterface w)))
    (snd (fst (batchItem hub n i entityInterface w))).
Proof.
  unfold batchItem.
  destruct entityInterface as [|b|lit|s|l|entityMap];
    try (apply reported_not_object; discriminate).
  destruct (as_string (entityMap !! "entity_id")) as [entityID|] eqn:Hid;
    [|now apply reported_no_entity_id].
  destruct (as_string (entityMap !! "action")) as [action|] eqn:Hact;
    [|now apply reported_no_action].
  repeat (rewrite bind_run; cbv beta).
  destruct (fst (controlEntity hub entityID action w)) as [e|] eqn:Herr.
  - now apply reported_error.
  - now apply reported_success.
Qed.

Lemma reported_success_iff (k : Z) (w : World) (item : jvalue) (r : BatchResult)
    (msg : option string) :
  reported k w item r msg -> (r_success r = true <-> succeeds w item).
Proof.
  unfold succeeds.
  intros [item' Hno | entityMap Hid | entityMap entityID Hid Hact
          | entityMap entityID action e Hid Hact Herr
          | entityMap entityID action Hid Hact Herr]; simpl.
  - split; [discriminate|]. intros (m & _ & _ & Heq & _). now apply Hno in Heq.
  - split; [discriminate|]. intros (m & i & a & [= <-] & Hi & _). congruence.
  - split; [discriminate|]. intros (m & i & a & [= <-] & _ & Ha & _). congruence.
  - split; [discriminate|]. intros (m & i & a & [= <-] & Hi & Ha & Hc). congruence.
  - split; [|reflexivity]. intros _. exists entityMap, entityID, action. auto.
Qed.

Lemma batchLoop_reports (n : Z) (entitiesSlice : list jvalue) :
  forall (i : Z) (results : list BatchResult) (errors : list string) (w : World),
  exists reports : list (BatchResult * option string),
    fst (fst (batchLoop hub n i entitiesSlice results errors w)) = results ++ reports.*1 /\
    snd (fst (batchLoop hub n i entitiesSlice results errors w)) =
      errors ++ omap snd reports /\
    forall k item, entitiesSlice !! k = Some item ->
      exists report, reports !! k = Some report /\
        reported (i + Z.of_nat k)
                 (snd (batchLoop hub n i (take k entitiesSlice) results errors w))
                 item report.1 report.2.
Proof.
  induction entitiesSlice as [|x l IH]; intros i results errors w.
  - exists []. simpl. rewrite !app_nil_r. repeat split. intros k item Hk. discriminate.
  - cbn [batchLoop]. rewrite bind_run.
    pose proof (batchItem_reported n i x w) as Hitem.
    set (r := fst (fst (batchItem hub n i x w))) in *.
    set (e := snd (fst (batchItem hub n i x w))) in *.
    set (w1 := snd (batchItem hub n i x w)).
    destruct (IH (i + 1) (results ++ [r]) (recordError errors e) w1)
      as (reports & Hres & Hmsgs & Hrep).
    exists ((r, e) :: reports). unfold recordError in Hres, Hmsgs, Hrep.
    split; [rewrite Hres, <- app_assoc; reflexivity|]. split.
    + rewrite Hmsgs. csimpl. destruct e as [msg|]; [|reflexivity].
      rewrite <- app_assoc. reflexivity.
    + intros [|k] item Hk; simpl in Hk.
      * injection Hk as <-. exists (r, e). split; [reflexivity|].
        simpl. rewrite Z.add_0_r. exact Hitem.
      * destruct (Hrep k item Hk) as (report & Hlook & Hreported).
        exists report. split; [exact Hlook|].
        cbn [take batchLoop]. rewrite bind_run. fold r e w1.
        replace (i + Z.of_nat (Datatypes.S k)) with (i + 1 + Z.of_nat k) by lia.
        exact Hreported.
Qed.

(** C9.  The batch handler never returns a Go error.  Given an array of
    items it returns the batch payload, whose results list has exactly one
    entry per item, in order and numbered from 0; an entry that is not a
    success carries an error message, and the aggregate error list has one
    message for each such entry (the key is left out when there is none);
    the counts in the payload are those of the results list.  The entry of
    an item tells what became of that item, in the world the items before it
    left: it is a success if and only if the item is an object with a string
    entity id and a string action for which [controlEntity] returned no
    error; an item that is no object, lacks one of the two strings, or for
    which [controlEntity] returned an error, be it about the input or from
    the hub, has an entry that says so, and its message is in the error
    list, the messages standing in the order of the items.  Processing the
    items of a list is processing a first part and then, from the results,
    errors and world so reached, the rest: no outcome of an item stops the
    loop. *)
Theorem batch_control_total (arguments : gmap string jvalue) (w : World) :
  snd (fst (controlMultipleEntitiesHandler hub arguments w)) = None /\
  (forall entitiesSlice,
     arguments !! "entities" = Some (JArray entitiesSlice) ->
     exists results errors,
       fst (fst (controlMultipleEntitiesHandler hub arguments w)) =
         ToolResultBatch (Z.of_nat (length entitiesSlice))
           (Z.of_nat (length results) - Z.of_nat (length (failures results)))
           (Z.of_nat (length (failures results)))
           results
           (if 0 <? Z.of_nat (length errors) then Some errors else None) /\
       length results = length entitiesSlice /\
       (forall k r, results !! k = Some r -> r_index r = Z.of_nat k) /\
       (forall r, In r results -> r_success r = false -> is_Some (r_error r)) /\
       length errors = length (failures results) /\
       (exists reports : list (BatchResult * option string),
          results = reports.*1 /\
          errors = omap snd reports /\
          forall k item, entitiesSlice !! k = Some item ->
            exists report, reports !! k = Some report /\
              reported (Z.of_nat k) (worldBefore entitiesSlice k w) item
                       report.1 report.2) /\
       (forall k item r,
          entitiesSlice !! k = Some item -> results !! k = Some r ->
          (r_success r = true <-> succeeds (worldBefore entitiesSlice k w) item))) /\
  (forall n i l1 l2 results errors,
     batchLoop hub n i (l1 ++ l2) results errors w =
     batchLoop hub n (i + Z.of_nat (length l1)) l2
       (fst (fst (batchLoop hub n i l1 results errors w)))
       (snd (fst (batchLoop hub n i l1 results errors w)))
       (snd (batchLoop hub n i l1 results errors w))).
Proof.
  split; [|split].
  - unfold controlMultipleEntitiesHandler.
    destruct (arguments !! "entities") as [[| | | |l|m]|]; try reflexivity.
    rewrite bind_run. reflexivity.
  - intros entitiesSlice Harg. unfold controlMultipleEntitiesHandler. rewrite Harg.
    rewrite bind_run. cbn [ret fst snd].
    destruct (batchLoop_outcome (Z.of_nat (length entitiesSlice)) entitiesSlice 0 [] [] w)
      as (new & Hres & Hlen & Hix & Herr & msgs & Hmsgs & Hcount).
    destruct (batchLoop_reports (Z.of_nat (length entitiesSlice)) entitiesSlice 0 [] [] w)
      as (reports & Hres' & Hmsgs' & Hrep).
    simpl in Hres, Hmsgs, Hres', Hmsgs'. rewrite Hres, Hmsgs.
    exists new, msgs. unfold countSuccess. rewrite countSuccess_from.
    split; [rewrite <- Hlen; f_equal; lia|].
    do 4 (split; [auto|]).
    assert (Hreports : forall k item, entitiesSlice !! k = Some item ->
              exists report, reports !! k = Some report /\
                reported (Z.of_nat k) (worldBefore entitiesSlice k w) item
                         report.1 report.2).
    { intros k item Hk. destruct (Hrep k item Hk) as (report & Hlook & Hreported).
      exists report. split; [exact Hlook|]. exact Hreported. }
    split.
    + exists reports. split; [congruence|]. split; [congruence | exact Hreports].
    + intros k item r Hk Hr.
      destruct (Hreports k item Hk) as (report & Hlook & Hreported).
      assert (Hr' : report.1 = r).
      { assert (Hnew : new = reports.*1) by congruence.
        rewrite Hnew, list_lookup_fmap, Hlook in Hr. simpl in Hr. congruence. }
      rewrite <- Hr'. exact (reported_success_iff _ _ _ _ _ Hreported).
  - intros. apply batchLoop_app.
Qed.

End ServiceFacts.

(** * Concrete hubs *)

Section AtConcreteHubs.

(** What follows is run with [foldASCII] for the case tables. *)
#[local] Existing Instance foldASCII.

(** A hub scripted by registry and by REST path; every request takes a
    millisecond. *)
Definition scriptedHub (wsA : result (list HAArea)) (wsD : result (list HADevice))
    (wsE : result (list HAEntity)) (rest : string -> result Response) : Hub :=
  mkHub (fun _ => wsA) (fun _ => wsD) (fun _ => wsE)
        (fun _ _ endpoint _ => rest endpoint)
        (fun _ _ => Millisecond).

Definition refused : error := ErrHub "dial tcp 192.168.1.100:8123: connect: connection refused".

Definition badJSON : error := ErrHub "invalid character '<' looking for beginning of value".

Definition noBody : body := mkBody (Err badJSON) (Err badJSON) (Err badJSON) (Err badJSON).

Definition statesBody (states : list HAState) : body :=
  mkBody (Err badJSON) (Err badJSON) (Err badJSON) (Ok states).

(** The process right after start, some time in 2026: an empty cache with the
    zero time as its timestamp. *)
Definition startWorld : World := mkWorld 63900000000000000000 [] initialCache.

Definition kitchen : HAArea := mkArea "kitchen" "Kitchen" "" [].
Definition garage : HAArea := mkArea "garage" "Garage" "" [].

Definition kitchenDevices : list HADevice :=
  [ mkDevice "dev1" "kitchen" "Ceiling"; mkDevice "dev2" "" "Spare" ].

Definition kitchenEntities : list HAEntity :=
  [ mkEntity "light.a" "dev1" "";
    mkEntity "light.b" "dev1" "garage";
    mkEntity "switch.c" "dev2" "";
    mkEntity "switch.d" "" "" ].

(** Nothing answers. *)
Definition deadHub : Hub :=
  scriptedHub (Err refused) (Err refused) (Err refused) (fun _ => Err refused).

(** All three registries come over the socket. *)
Definition kitchenHub : Hub :=
  scriptedHub (Ok [kitchen; garage]) (Ok kitchenDevices) (Ok kitchenEntities)
              (fun _ => Err refused).

(** Areas and entity registrations come over the socket, devices from
    nowhere. *)
Definition noDevicesHub : Hub :=
  scriptedHub (Ok [kitchen; garage]) (Err refused) (Ok kitchenEntities)
              (fun _ => Err refused).

Definition lampStates : list HAState :=
  [ namedState "light.lamp1" "Living Room Lamp 1" None;
    namedState "switch.s1" "Sonoff Switch 1" None ].

(** No socket; the registries answer [status]; the entity states are there. *)
Definition restHub (status : Z) : Hub :=
  scriptedHub (Err refused) (Err refused) (Err refused)
    (fun endpoint =>
       if String.eqb endpoint "/api/states" then Ok (mkResponse 200 (statesBody lampStates))
       else Ok (mkResponse status noBody)).

(** An empty areas list over the socket, one area at the second REST path. *)
Definition secondPathHub : Hub :=
  scriptedHub (Ok []) (Ok []) (Ok [])
    (fun endpoint =>
       if String.eqb endpoint "/api/areas"
       then Ok (mkResponse 200 (mkBody (Ok [kitchen]) (Err badJSON) (Err badJSON) (Err badJSON)))
       else Ok (mkResponse 403 noBody)).

(** Every service call is answered with [status]. *)
Definition serviceHub (status : Z) : Hub :=
  scriptedHub (Err refused) (Err refused) (Err refused)
              (fun _ => Ok (mkResponse status noBody)).

Example kitchen_refresh :
  areaCache (snd (updateAreaCache kitchenHub startWorld)) =
  mkCache {[ "kitchen" := kitchen; "garage" := garage ]}
          {[ "dev1" := "kitchen" ]}
          {[ "light.a" := "kitchen"; "light.b" := "garage" ]}
          63900000000004000000.
Proof. vm_compute. reflexivity. Qed.

Example second_path_areas :
  fst (getAreas secondPathHub startWorld) = Ok [kitchen] /\
  w_trace (snd (getAreas secondPathHub startWorld)) =
    [ wsAreas; httpGet "/api/config/area_registry"; httpGet "/api/areas" ].
Proof. split; reflexivity. Qed.

(** * The theorems at concrete hubs *)

Lemma startWorld_stale (hub : Hub) :
  elapsed hub [] EvLock = Millisecond -> stale hub startWorld.
Proof. intros H. unfold stale. simpl. rewrite H. vm_compute. discriminate. Qed.

(** C1 at [kitchenHub]: "light.a" has no area of its own and gets that of its
    device. *)
Lemma entity_map_resolution_witness :
  stale kitchenHub startWorld /\
  (let c := areaCache (snd (updateAreaCache kitchenHub startWorld)) in
   cache_entities c !! "light.a" =
     last (omap (resolvesFor (cache_devices c) "light.a") kitchenEntities)) /\
  cache_entities (areaCache (snd (updateAreaCache kitchenHub startWorld))) !! "light.a" =
    Some "kitchen".
Proof.
  split; [|split].
  - apply startWorld_stale. reflexivity.
  - exact (proj1 (proj2 (proj2
             (entity_map_resolution kitchenHub startWorld []
                (startWorld_stale kitchenHub eq_refl)))) "light.a").
  - vm_compute. reflexivity.
Defined.

(** The world a minute after the first refresh against [deadHub]. *)
Definition aMinuteLater : World :=
  let w1' := snd (updateAreaCache deadHub startWorld) in
  mkWorld (w_now w1' + Minute) (w_trace w1') (areaCache w1').

(** C2 at [deadHub]: every fetch of the first call fails, and the call made a
    minute later is a no-op all the same. *)
Lemma refresh_within_window_witness :
  stale deadHub startWorld /\
  updateAreaCache deadHub aMinuteLater =
    (tt, tick deadHub EvUnlock (tick deadHub EvLock aMinuteLater)).
Proof.
  split.
  - apply startWorld_stale. reflexivity.
  - refine (proj1 (proj2
             (refresh_within_window deadHub startWorld aMinuteLater
                (startWorld_stale deadHub eq_refl) eq_refl _))).
    vm_compute. reflexivity.
Defined.

(** C3 at [noDevicesHub]: the device map is empty, the areas map is full, and
    the entity map has what resolves without devices. *)
Lemma refresh_degrades_per_registry_witness :
  stale noDevicesHub startWorld /\
  (let c := areaCache (snd (updateAreaCache noDevicesHub startWorld)) in
   cache_areas c = buildAreas [kitchen; garage] /\
   cache_devices c = buildDevices [] /\
   cache_entities c = buildEntities (buildDevices []) kitchenEntities).
Proof.
  split.
  - apply startWorld_stale. reflexivity.
  - exact (proj1 (refresh_degrades_per_registry noDevicesHub startWorld
                    (startWorld_stale noDevicesHub eq_refl))).
Defined.

(** C4 at [restHub 404]: the heuristic tier is reached. *)
Lemma entity_registry_rest_tier_witness :
  getEntityRegistry (restHub 404) startWorld =
    extractEntityAreaFromStates (restHub 404)
      (tick (restHub 404) (httpGet "/api/config/entity_registry")
            (tick (restHub 404) wsEntities startWorld)) /\
  fst (getEntityRegistry (restHub 404) startWorld) =
    Ok [ mkEntity "light.lamp1" "" "living_room"; mkEntity "switch.s1" "" "" ].
Proof.
  split.
  - refine (proj1 (proj1
             (entity_registry_rest_tier (restHub 404) startWorld refused
                (mkResponse 404 noBody) eq_refl eq_refl) _)).
    discriminate.
  - vm_compute. reflexivity.
Defined.

(** C4, counterexample.  Against [restHub 200] the socket fails and the
    registry path answers 200 with a body that is no entity list.
    [getEntityRegistry] returns the decoding error after those two requests;
    the entity states, from which the heuristic would have made a list, are
    never asked for. *)
Lemma entity_registry_decode_failure_surfaces :
  let w2 := tick (restHub 200) (httpGet "/api/config/entity_registry")
                 (tick (restHub 200) wsEntities startWorld) in
  ws_entities (restHub 200) [] = Err refused /\
  http_do (restHub 200) [wsEntities] "GET" "/api/config/entity_registry" None =
    Ok (mkResponse 200 noBody) /\
  as_entities noBody = Err badJSON /\
  getEntityRegistry (restHub 200) startWorld = (Err badJSON, w2) /\
  w_trace w2 = [ wsEntities; httpGet "/api/config/entity_registry" ] /\
  fst (extractEntityAreaFromStates (restHub 200) w2) =
    Ok [ mkEntity "light.lamp1" "" "living_room"; mkEntity "switch.s1" "" "" ] /\
  getEntityRegistry (restHub 200) startWorld <> extractEntityAreaFromStates (restHub 200) w2.
Proof.
  intros w2. repeat split; try reflexivity.
  intros H. apply (f_equal fst) in H. vm_compute in H. discriminate.
Qed.

(** C5 at concrete hubs: an empty areas list from the socket is passed over
    and the second REST path answers; an empty device list from the socket is
    the result; a 404 from the device registry is an empty list. *)
Lemma socket_tier_acceptance_witness :
  (getAreas secondPathHub startWorld =
     getAreasREST secondPathHub areaEndpoints (tick secondPathHub wsAreas startWorld)) /\
  getDevices secondPathHub startWorld = (Ok [], tick secondPathHub wsDevices startWorld) /\
  getEntityRegistry secondPathHub startWorld =
    (Ok [], tick secondPathHub wsEntities startWorld) /\
  getDevices (restHub 404) startWorld =
    (Ok [], tick (restHub 404) (httpGet "/api/config/device_registry")
                 (tick (restHub 404) wsDevices startWorld)).
Proof.
  destruct (socket_tier_acceptance secondPathHub startWorld)
    as (_ & Hareas & Hdev & Hent & _).
  destruct (socket_tier_acceptance (restHub 404) startWorld)
    as (_ & _ & _ & _ & H404 & _).
  split; [exact (proj1 (Hareas eq_refl))|].
  split; [exact (Hdev [] eq_refl)|].
  split; [exact (Hent [] eq_refl)|].
  refine (H404 refused (mkResponse 404 noBody) eq_refl eq_refl _). discriminate.
Defined.

(** C8 at [serviceHub]: "toggle" and a thermostat are refused before any
    request; "on" for a light is one POST, and succeeds against status 200
    only. *)
Lemma controlEntity_spec_witness :
  (exists e, controlEntity (serviceHub 200) "light.kitchen" "toggle" startWorld =
               (Some e, startWorld) /\ isUserInputError e = true) /\
  (exists e, controlEntity (serviceHub 200) "thermostat.hall" "on" startWorld =
               (Some e, startWorld) /\ isUserInputError e = true) /\
  snd (controlEntity (serviceHub 200) "light.kitchen" "on" startWorld) =
    tick (serviceHub 200)
         (EvHTTP "POST" "/api/services/light/turn_on"
                 (Some (JObject {[ "entity_id" := JString "light.kitchen" ]})))
         startWorld /\
  fst (controlEntity (serviceHub 200) "light.kitchen" "on" startWorld) = None /\
  fst (controlEntity (serviceHub 500) "switch.fan" "turn_off" startWorld) =
    Some (ErrStatus 500).
Proof.
  split; [|split; [|split; [|split]]].
  - apply (proj1 (controlEntity_spec (serviceHub 200) "light.kitchen" "toggle" startWorld)).
    right. unfold supportedAction. intros [H|[H|[H|H]]]; discriminate.
  - apply (proj1 (controlEntity_spec (serviceHub 200) "thermostat.hall" "on" startWorld)).
    left. unfold supportedEntity. intros [H|H]; discriminate.
  - refine (proj1 (proj2 (controlEntity_spec (serviceHub 200) "light.kitchen" "on" startWorld)
                         _ _)).
    + left. reflexivity.
    + left. reflexivity.
  - refine (proj2 (proj2 (proj2 (controlEntity_spec (serviceHub 200) "light.kitchen" "on"
                                                    startWorld) _ _)) _).
    + left. reflexivity.
    + left. reflexivity.
    + exists (mkResponse 200 noBody). split; reflexivity.
  - reflexivity.
Defined.

(** A batch of four: not an object, an unsupported action, a good item and an
    item without entity id. *)
Definition sampleBatch : list jvalue :=
  [ JString "light.kitchen";
    JObject {[ "entity_id" := JString "light.kitchen"; "action" := JString "toggle" ]};
    JObject {[ "entity_id" := JString "light.kitchen"; "action" := JString "on" ]};
    JObject {[ "action" := JString "on" ]} ].

Definition sampleArguments : gmap string jvalue := {[ "entities" := JArray sampleBatch ]}.

Example sample_batch_run :
  fst (controlMultipleEntitiesHandler (serviceHub 200) sampleArguments startWorld) =
  (ToolResultBatch 4 1 3
     [ mkResult 0 None None false
         (Some "Entity 0: must be an object with entity_id and action");
       mkResult 1 (Some "light.kitchen") (Some "toggle") false
         (Some "unsupported action: toggle");
       mkResult 2 (Some "light.kitchen") (Some "on") true None;
       mkResult 3 (Some "") None false
         (Some "Entity 3: entity_id is required and must be a string") ]
     (Some [ "Entity 0: must be an object with entity_id and action";
             "Entity light.kitchen: unsupported action: toggle";
             "Entity 3: entity_id is required and must be a string" ]),
   None).
Proof. vm_compute. reflexivity. Qed.

Example sample_batch_trace :
  w_trace (snd (controlMultipleEntitiesHandler (serviceHub 200) sampleArguments startWorld)) =
  [ EvSleep (50 * Millisecond);
    EvHTTP "POST" "/api/services/light/turn_on"
      (Some (JObject {[ "entity_id" := JString "light.kitchen" ]}));
    EvSleep (50 * Millisecond) ].
Proof. vm_compute. reflexivity. Qed.

(** C9 at [sampleBatch]: four items, four results, three of them failures,
    three messages; the first item, a bare string, has a failure for its
    entry, and the third, a good one, a success. *)
Lemma batch_control_total_witness :
  sampleArguments !! "entities" = Some (JArray sampleBatch) /\
  exists results errors,
    fst (fst (controlMultipleEntitiesHandler (serviceHub 200) sampleArguments startWorld)) =
      ToolResultBatch (Z.of_nat (length sampleBatch))
        (Z.of_nat (length results) - Z.of_nat (length (failures results)))
        (Z.of_nat (length (failures results)))
        results
        (if 0 <? Z.of_nat (length errors) then Some errors else None) /\
    length results = length sampleBatch /\
    (forall k r, results !! k = Some r -> r_index r = Z.of_nat k) /\
    (forall r, In r results -> r_success r = false -> is_Some (r_error r)) /\
    length errors = length (failures results) /\
    (forall r, results !! 0%nat = Some r -> r_success r <> true) /\
    (forall r, results !! 2%nat = Some r -> r_success r = true).
Proof.
  split; [reflexivity|].
  destruct (proj1 (proj2 (batch_control_total (serviceHub 200) sampleArguments startWorld))
                  sampleBatch eq_refl)
    as (results & errors & Hpay & Hlen & Hix & Herr & Hcount & _ & Hiff).
  exists results, errors.
  do 5 (split; [assumption|]). split.
  - intros r Hr Hok.
    apply (Hiff 0%nat (JString "light.kitchen") r eq_refl Hr) in Hok.
    destruct Hok as (m & i & a & Hobj & _). discriminate.
  - intros r Hr.
    apply (Hiff 2%nat
             (JObject {[ "entity_id" := JString "light.kitchen"; "action" := JString "on" ]})
             r eq_refl Hr).
    eexists _, "light.kitchen", "on". repeat split; vm_compute; reflexivity.
Defined.

(** A stand-in for [regexp.MatchString] on patterns without
    metacharacters: such a pattern matches the strings that contain it; "("
    does not compile. *)
Definition literalMatch (pattern s : string) : option bool :=
  if String.eqb pattern "(" then None else Some (strings.Contains s pattern).

Definition sampleConfig : Config :=
  mkConfig "token" "http://192.168.1.100:8123" ["kitchen"] ["switch.kitchen_fan"; "("; "backup"].

Definition plainState (entityID : string) : HAState :=
  mkState entityID "off" ∅ "" "" None.

Definition sampleEntities : list HAState :=
  [ plainState "light.kitchen_main";
    plainState "switch.kitchen_fan";
    plainState "light.hall";
    plainState "light.kitchen_backup";
    plainState "switch.kitchen_hood" ].

Example sample_filter :
  filterEntities literalMatch sampleConfig sampleEntities =
  [ plainState "light.kitchen_main"; plainState "switch.kitchen_hood" ].
Proof. reflexivity. Qed.

(** C7 at [sampleConfig]. *)
Lemma filterEntities_spec_witness :
  filterEntities literalMatch sampleConfig sampleEntities =
    List.filter (passes literalMatch sampleConfig) sampleEntities /\
  sublist (filterEntities literalMatch sampleConfig sampleEntities) sampleEntities.
Proof.
  split.
  - exact (proj1 (filterEntities_spec literalMatch sampleConfig sampleEntities)).
  - exact (proj1 (proj2 (filterEntities_spec literalMatch sampleConfig sampleEntities))).
Defined.

Example sample_enrich :
  fst (enrichWithArea kitchenHub
         [ plainState "light.a"; plainState "switch.c"; plainState "light.b" ] startWorld) =
  [ withArea (plainState "light.a") kitchen;
    plainState "switch.c";
    withArea (plainState "light.b") garage ].
Proof. vm_compute. reflexivity. Qed.

Example dead_enrich :
  fst (enrichWithArea deadHub [ plainState "light.a" ] startWorld) = [ plainState "light.a" ].
Proof. vm_compute. reflexivity. Qed.

End AtConcreteHubs.

(** * Further properties of the heuristic *)

Section NormalForm.

Context {unicode : strings.Unicode}.

Lemma ToLower_ascii (s : string) :
  strings.isASCII s = true -> strings.ToLower s = strings.lowerASCII s.
Proof. unfold strings.ToLower. now intros ->. Qed.

(** What [normalizeAreaID] does to one byte of a name of ASCII bytes. *)
Definition normalByte (c : ascii) : ascii :=
  if Ascii.eqb (strings.lower_byte c) " " then "_"%char else strings.lower_byte c.

Definition normalBytes (s : string) : string :=
  strings.ReplaceAll (strings.lowerASCII s) " " "_".

Lemma normalBytes_bytes (s : string) :
  normalBytes s =
  match s with
  | EmptyString => EmptyString
  | String c r => String (normalByte c) (normalBytes r)
  end.
Proof. destruct s; reflexivity. Qed.

Lemma normalizeAreaID_ascii (s : string) :
  strings.isASCII s = true -> normalizeAreaID s = normalBytes s.
Proof. intros H. unfold normalizeAreaID, normalBytes. now rewrite ToLower_ascii. Qed.

Lemma normalByte_idem (c : ascii) : normalByte (normalByte c) = normalByte c.
Proof.
  destruct c as [b0 b1 b2 b3 b4 b5 b6 b7].
  destruct b0, b1, b2, b3, b4, b5, b6, b7; reflexivity.
Qed.

Lemma normalByte_lower (c : ascii) : strings.lower_byte (normalByte c) = normalByte c.
Proof.
  destruct c as [b0 b1 b2 b3 b4 b5 b6 b7].
  destruct b0, b1, b2, b3, b4, b5, b6, b7; reflexivity.
Qed.

Lemma normalByte_ascii (c : ascii) :
  (Z.of_nat (nat_of_ascii c) <? 128) = true ->
  (Z.of_nat (nat_of_ascii (normalByte c)) <? 128) = true.
Proof.
  destruct c as [b0 b1 b2 b3 b4 b5 b6 b7].
  destruct b0, b1, b2, b3, b4, b5, b6, b7; intros H; vm_compute in H |- *; congruence.
Qed.

Lemma prefix_byte (c a : ascii) (r : string) :
  String.prefix (String c EmptyString) (String a r) = Ascii.eqb c a.
Proof.
  simpl. destruct (ascii_dec c a) as [->|Hne].
  - rewrite Ascii.eqb_refl. now destruct r.
  - symmetry. now apply Ascii.eqb_neq.
Qed.

Lemma ReplaceAll_gone (s : string) (old new : ascii) :
  old <> new -> strings.Contains (strings.ReplaceAll s old new) (String old EmptyString) = false.
Proof.
  intros Hne. induction s as [|a s IH]; [reflexivity|].
  cbn [strings.ReplaceAll strings.Contains]. rewrite IH, orb_false_r.
  unfold strings.HasPrefix. rewrite prefix_byte.
  destruct (Ascii.eqb_spec a old) as [->|Ha].
  - now apply Ascii.eqb_neq.
  - apply Ascii.eqb_neq. congruence.
Qed.

Lemma normalizeAreaID_no_space (s : string) :
  strings.Contains (normalizeAreaID s) " " = false.
Proof. unfold normalizeAreaID. now apply ReplaceAll_gone. Qed.

Lemma normalBytes_ascii (s : string) :
  strings.isASCII s = true -> strings.isASCII (normalBytes s) = true.
Proof.
  induction s as [|a s IH]; [reflexivity|].
  rewrite normalBytes_bytes. cbn [strings.isASCII]. rewrite !andb_true_iff.
  intros [Ha Hs]. split; [now apply normalByte_ascii | now apply IH].
Qed.

Lemma normalBytes_idem (s : string) : normalBytes (normalBytes s) = normalBytes s.
Proof.
  induction s as [|a s IH]; [reflexivity|].
  rewrite (normalBytes_bytes (String a s)), normalBytes_bytes.
  now rewrite IH, normalByte_idem.
Qed.

Lemma normalBytes_length (s : string) : len (normalBytes s) = len s.
Proof.
  unfold len. f_equal. induction s as [|a s IH]; [reflexivity|].
  rewrite normalBytes_bytes. simpl. now rewrite IH.
Qed.

Lemma normalBytes_lower (s : string) : strings.lowerASCII (normalBytes s) = normalBytes s.
Proof.
  induction s as [|a s IH]; [reflexivity|].
  rewrite normalBytes_bytes. simpl. now rewrite IH, normalByte_lower.
Qed.

Lemma normalBytes_empty (s : string) : normalBytes s = "" <-> s = "".
Proof. destruct s; [tauto|]. rewrite normalBytes_bytes. split; discriminate. Qed.

(** X1.  The normal form of a name has no space in it, whatever the name.
    For a name of ASCII bytes only, the normal form is of ASCII bytes too,
    normalising it again changes nothing, it has the length of the name and
    no upper-case letter, and it is empty only for the empty name. *)
Theorem normalizeAreaID_normal (s : string) :
  strings.Contains (normalizeAreaID s) " " = false /\
  (strings.isASCII s = true ->
   strings.isASCII (normalizeAreaID s) = true /\
   normalizeAreaID (normalizeAreaID s) = normalizeAreaID s /\
   len (normalizeAreaID s) = len s /\
   strings.ToLower (normalizeAreaID s) = normalizeAreaID s /\
   (normalizeAreaID s = "" <-> s = "")).
Proof.
  split; [apply normalizeAreaID_no_space|].
  intros Hs. pose proof (normalBytes_ascii s Hs) as Hn.
  rewrite (normalizeAreaID_ascii s Hs).
  split; [exact Hn|].
  split; [rewrite (normalizeAreaID_ascii _ Hn); apply normalBytes_idem|].
  split; [apply normalBytes_length|].
  split; [rewrite (ToLower_ascii _ Hn); apply normalBytes_lower | apply normalBytes_empty].
Qed.

Example normal_living : normalizeAreaID "Living Room" = "living_room".
Proof. reflexivity. Qed.

Lemma extractAreasMap_first (states : list HAState) (areaID : string) :
  extractAreasMap states !! areaID =
  (fun name => mkArea areaID name "" []) <$> firstNamed areaID (areaNames states).
Proof.
  unfold extractAreasMap.
  rewrite extractAreas_from, registerNames_lookup, lookup_empty. reflexivity.
Qed.

Lemma extractAreasMap_entry (states : list HAState) (areaID : string) (area : HAArea) :
  extractAreasMap states !! areaID = Some area ->
  area = mkArea areaID (area_Name area) "" [] /\
  In (area_Name area) (areaNames states) /\
  normalizeAreaID (area_Name area) = areaID.
Proof.
  rewrite extractAreasMap_first. unfold firstNamed.
  destruct (find _ (areaNames states)) as [name|] eqn:Hfind; [|discriminate].
  intros [= <-]. apply find_some in Hfind. destruct Hfind as [Hin Heq].
  apply String.eqb_eq in Heq. simpl. auto.
Qed.

Lemma extractAreasMap_named (states : list HAState) (name : string) :
  In name (areaNames states) ->
  is_Some (extractAreasMap states !! normalizeAreaID name).
Proof.
  intros Hin. rewrite extractAreasMap_first. unfold firstNamed.
  destruct (find _ (areaNames states)) as [n|] eqn:Hfind; [eexists; reflexivity|].
  apply (find_none _ _ Hfind) in Hin. rewrite String.eqb_refl in Hin. discriminate.
Qed.

Lemma last_all_same {A : Type} (l : list A) (a : A) :
  In a l -> (forall x, In x l -> x = a) -> last l = Some a.
Proof.
  intros Hin Hall. destruct l as [|x l] using rev_ind; [destruct Hin|].
  rewrite last_snoc. f_equal. apply Hall. apply in_app_iff. right. now left.
Qed.

Lemma extractAreasMap_keyed (states : list HAState) (areaID : string) (area : HAArea) :
  extractAreasMap states !! areaID = Some area -> area_AreaID area = areaID.
Proof. intros Ha. apply extractAreasMap_entry in Ha. destruct Ha as (-> & _). reflexivity. Qed.

Lemma areasOfStates_In (states : list HAState) (a : HAArea) :
  In a (areasOfStates states) <-> extractAreasMap states !! area_AreaID a = Some a.
Proof.
  unfold areasOfStates. rewrite <- list_elem_of_In, list_elem_of_fmap. split.
  - intros ([k a'] & -> & Hka). apply elem_of_map_to_list in Hka.
    simpl. now rewrite (extractAreasMap_keyed _ _ _ Hka).
  - intros Ha. exists (area_AreaID a, a). split; [reflexivity|].
    now apply elem_of_map_to_list.
Qed.

Lemma buildAreas_extraction (states : list HAState) (order : list HAArea) :
  Permutation order (areasOfStates states) ->
  buildAreas order = extractAreasMap states.
Proof.
  intros Hperm. apply map_eq. intros k. rewrite buildAreas_lookup.
  assert (Hin' : forall a, In a order <->
                           extractAreasMap states !! area_AreaID a = Some a).
  { intros a. rewrite <- areasOfStates_In. split; apply Permutation_in;
      [exact Hperm | now symmetry]. }
  destruct (extractAreasMap states !! k) as [a0|] eqn:Hk.
  - apply last_all_same.
    + apply filter_In. split.
      * apply Hin'. now rewrite (extractAreasMap_keyed _ _ _ Hk).
      * rewrite (extractAreasMap_keyed _ _ _ Hk). apply String.eqb_refl.
    + intros x Hx. apply filter_In in Hx. destruct Hx as [Hx Hid].
      apply String.eqb_eq in Hid. apply Hin' in Hx. rewrite Hid in Hx. congruence.
  - destruct (List.filter _ order) as [|x l] eqn:Hf; [reflexivity|].
    assert (Hx : In x (List.filter (fun area => String.eqb (area_AreaID area) k) order))
      by (rewrite Hf; now left).
    apply filter_In in Hx. destruct Hx as [Hx Hid].
    apply String.eqb_eq in Hid. apply Hin' in Hx. rewrite Hid in Hx. congruence.
Qed.

(** X2.  Every area the extraction registers is keyed by its own id, which is
    the normal form of its name, and has neither picture nor aliases; the ids
    of the returned slice are pairwise different; and the areas map that
    [updateAreaCache] builds from that slice is the extraction's own map, in
    whatever order the slice lists it. *)
Theorem heuristic_areas_roundtrip (states : list HAState) :
  (forall areaID area,
     extractAreasMap states !! areaID = Some area ->
     area_AreaID area = areaID /\
     areaID = normalizeAreaID (area_Name area) /\
     area_Picture area = "" /\ area_Aliases area = []) /\
  List.NoDup (map area_AreaID (areasOfStates states)) /\
  (forall order, Permutation order (areasOfStates states) ->
     buildAreas order = extractAreasMap states).
Proof.
  split; [|split].
  - intros k a Ha. destruct (extractAreasMap_entry _ _ _ Ha) as (Hrec & _ & Hn).
    rewrite Hrec. simpl. auto.
  - unfold areasOfStates.
    replace (map area_AreaID (map_to_list (extractAreasMap states)).*2)
      with ((map_to_list (extractAreasMap states)).*1).
    + apply (proj1 (NoDup_ListNoDup _)), NoDup_fst_map_to_list.
    + pose proof (fun k a => proj1 (elem_of_map_to_list (extractAreasMap states) k a)) as Hl.
      induction (map_to_list (extractAreasMap states)) as [|[k a] l IH]; [reflexivity|].
      csimpl. rewrite <- IH.
      * f_equal. symmetry. apply (extractAreasMap_keyed states), Hl. now left.
      * intros k' a' Hk'. apply Hl. now right.
  - intros order. apply buildAreas_extraction.
Qed.

(** The registration that [extractEntityAreaFromStates] makes of one state. *)
Definition heuristicEntity (state : HAState) : HAEntity :=
  mkEntity (st_EntityID state) ""
    match as_string (st_Attributes state !! "friendly_name") with
    | Some nameStr =>
        match possibleAreaOf nameStr with
        | Some possibleArea => normalizeAreaID possibleArea
        | None => ""
        end
    | None => ""
    end.

Lemma entitiesOfStates_from (states : list HAState) (acc : list HAEntity) :
  fold_left
    (fun entities state =>
       if negb (isLightOrSwitch (st_EntityID state)) then entities
       else entities ++ [heuristicEntity state])
    states acc =
  acc ++ map heuristicEntity
           (List.filter (fun state => isLightOrSwitch (st_EntityID state)) states).
Proof.
  revert acc. induction states as [|s l IH]; intros acc; simpl.
  - now rewrite app_nil_r.
  - rewrite IH. destruct (isLightOrSwitch (st_EntityID s)); simpl; [|reflexivity].
    now rewrite <- app_assoc.
Qed.

Lemma entitiesOfStates_map (states : list HAState) :
  entitiesOfStates states =
  map heuristicEntity (List.filter (fun state => isLightOrSwitch (st_EntityID state)) states).
Proof. exact (entitiesOfStates_from states []). Qed.

Lemma heuristicEntity_area (states : list HAState) (state : HAState) :
  In state states -> isLightOrSwitch (st_EntityID state) = true ->
  ent_AreaID (heuristicEntity state) <> "" ->
  is_Some (extractAreasMap states !! ent_AreaID (heuristicEntity state)).
Proof.
  intros Hin Hls. unfold heuristicEntity. simpl.
  destruct (as_string (st_Attributes state !! "friendly_name")) as [nameStr|] eqn:Hname;
    [|congruence].
  destruct (possibleAreaOf nameStr) as [cand|] eqn:Hcand; [|congruence].
  intros _. apply extractAreasMap_named. unfold areaNames. apply in_flat_map.
  exists state. split; [exact Hin|]. rewrite Hls. apply in_app_iff. right.
  unfold namedArea. rewrite Hname, Hcand. now left.
Qed.

(** X3.  The heuristic makes one registration per light or switch state, in
    the order of the states, never with a device id.  Whenever it gives a
    registration an area id, the extraction of areas from the same states has
    an area under that id; so an entity map built from these registrations,
    over any device map, points only at areas of the areas map built from
    that extraction. *)
Theorem heuristic_entities_resolve (states : list HAState) :
  map ent_EntityID (entitiesOfStates states) =
    List.filter isLightOrSwitch (map st_EntityID states) /\
  (forall entity, In entity (entitiesOfStates states) ->
     ent_DeviceID entity = "" /\
     (ent_AreaID entity <> "" ->
      is_Some (extractAreasMap states !! ent_AreaID entity))) /\
  (forall devices entityID areaID,
     buildEntities devices (entitiesOfStates states) !! entityID = Some areaID ->
     is_Some (buildAreas (areasOfStates states) !! areaID)).
Proof.
  assert (Hent : forall entity, In entity (entitiesOfStates states) ->
            ent_DeviceID entity = "" /\
            (ent_AreaID entity <> "" ->
             is_Some (extractAreasMap states !! ent_AreaID entity))).
  { intros entity. rewrite entitiesOfStates_map, in_map_iff.
    intros (state & <- & Hin). apply filter_In in Hin. destruct Hin as [Hin Hls].
    split; [reflexivity|]. now apply heuristicEntity_area. }
  split; [|split; [exact Hent|]].
  - rewrite entitiesOfStates_map. clear Hent.
    induction states as [|s l IH]; simpl; [reflexivity|].
    destruct (isLightOrSwitch (st_EntityID s)); simpl; [f_equal|]; exact IH.
  - intros devices entityID areaID Hlook.
    rewrite (buildAreas_extraction states _ (Permutation_refl _)).
    rewrite buildEntities_lookup in Hlook.
    apply last_Some_elem_of, list_elem_of_omap in Hlook.
    destruct Hlook as (entity & Hin & Hres). apply list_elem_of_In in Hin.
    unfold resolvesFor in Hres.
    destruct (String.eqb (ent_EntityID entity) entityID); [|discriminate].
    apply resolve_Some in Hres. destruct (Hent entity Hin) as [Hdev Harea].
    destruct Hres as [(Hne & ->) | (_ & Hd & _)]; [now apply Harea | congruence].
Qed.

End NormalForm.

(** * Further properties of the entity filter *)

Section FilterMore.

Variable MatchString : string -> string -> option bool.
Variable config : Config.

Lemma filterEntities_filter (entities : list HAState) :
  filterEntities MatchString config entities =
  List.filter (passes MatchString config) entities.
Proof. apply (filterEntities_from MatchString config []). Qed.

Lemma filter_twice {A : Type} (f : A -> bool) (l : list A) :
  List.filter f (List.filter f l) = List.filter f l.
Proof.
  induction l as [|a l IH]; simpl; [reflexivity|].
  destruct (f a) eqn:Hf; simpl; [rewrite Hf, IH|]; auto.
Qed.

(** X4.  Filtering distributes over concatenation, filtering twice is
    filtering once, and with neither blacklist nor whitelist every entity is
    kept. *)
Theorem filterEntities_compose (l1 l2 : list HAState) :
  filterEntities MatchString config (l1 ++ l2) =
    filterEntities MatchString config l1 ++ filterEntities MatchString config l2 /\
  filterEntities MatchString config (filterEntities MatchString config l1) =
    filterEntities MatchString config l1 /\
  (EntityBlacklist config = [] -> EntityFilter config = [] ->
   filterEntities MatchString config l1 = l1).
Proof.
  rewrite !filterEntities_filter. split; [apply List.filter_app|].
  split; [apply filter_twice|].
  intros Hb Hw. induction l1 as [|e l IH]; simpl; [reflexivity|].
  unfold passes at 1, isEntityBlacklisted. rewrite Hb, Hw. simpl. now rewrite IH.
Qed.

(** X5.  A blacklist entry equal to an identifier removes that entity even
    when the entry is no regular expression at all, whatever the whitelist
    says.  The whitelist has no such literal reading: a non-empty whitelist
    none of whose patterns compiles lets nothing through. *)
Theorem filterEntities_malformed_patterns (entities : list HAState) :
  (forall entity,
     In (st_EntityID entity) (EntityBlacklist config) ->
     ~ In entity (filterEntities MatchString config entities)) /\
  (EntityFilter config <> [] ->
   (forall pattern entityID,
      In pattern (EntityFilter config) -> MatchString pattern entityID = None) ->
   filterEntities MatchString config entities = []).
Proof.
  rewrite filterEntities_filter. split.
  - intros entity Hbl Hin. apply filter_In in Hin. destruct Hin as [_ Hp].
    apply passes_true in Hp. destruct Hp as [Hno _]. apply Hno.
    exists (st_EntityID entity). auto.
  - intros Hne Hbad. induction entities as [|e l IH]; simpl; [reflexivity|].
    replace (passes MatchString config e) with false; [exact IH|].
    symmetry. apply not_true_iff_false. intros Hp. apply passes_true in Hp.
    destruct Hp as [_ [Hw | (p & Hin & Hm)]]; [congruence|].
    rewrite (Hbad p (st_EntityID e) Hin) in Hm. discriminate.
Qed.

End FilterMore.

(** * Further properties of the area cache *)

Section CacheMore.

Context {unicode : strings.Unicode}.

Variable hub : Hub.

(** The age of the cache at the staleness test of a call started in [w]. *)
Definition cacheAge (w : World) : Z :=
  w_now (tick hub EvLock w) - cache_lastUpdate (areaCache w).

Lemma Since_lt (now t d : Z) :
  minDuration < d -> d <= maxDuration -> (Since now t < d <-> now - t < d).
Proof. unfold Since. lia. Qed.

Lemma fresh_age (w : World) : fresh hub w <-> cacheAge w < 5 * Minute.
Proof. unfold fresh, cacheAge. apply Since_lt; vm_compute; [reflexivity | discriminate]. Qed.

Lemma stale_age (w : World) : stale hub w <-> 5 * Minute <= cacheAge w.
Proof.
  unfold stale. pose proof (fresh_age w) as H. unfold fresh in H.
  split; intros Hs.
  - destruct (Z.lt_ge_cases (cacheAge w) (5 * Minute)) as [Hlt|Hge]; [|exact Hge].
    apply H in Hlt. lia.
  - destruct (Z.lt_ge_cases (Since (w_now (tick hub EvLock w))
                                   (cache_lastUpdate (areaCache w))) (5 * Minute))
      as [Hlt|Hge]; [|exact Hge].
    apply H in Hlt. lia.
Qed.

Lemma updateAreaCache_events (w : World) :
  exists evs,
    Forall (isNetwork) evs /\
    (fresh hub w -> evs = []) /\
    (stale hub w -> exists rest, evs = wsAreas :: rest) /\
    w_trace (snd (updateAreaCache hub w)) = w_trace w ++ [EvLock] ++ evs ++ [EvUnlock].
Proof.
  destruct (Z.lt_ge_cases (Since (w_now (tick hub EvLock w))
                                 (cache_lastUpdate (areaCache w))) (5 * Minute))
    as [Hf|Hs].
  - exists []. split; [constructor|]. split; [reflexivity|].
    split; [intros Hst; unfold stale in Hst; lia|].
    rewrite (updateAreaCache_fresh hub w Hf). simpl. now rewrite <- app_assoc.
  - rewrite (updateAreaCache_stale hub w Hs). cbv zeta.
    set (w1 := tick hub EvLock w).
    destruct (getAreas_events hub w1) as (evsA & HnA & HA).
    set (wa := snd (getAreas hub w1)) in *.
    destruct (getDevices_events hub wa) as (evsD & HnD & HD).
    set (wd := snd (getDevices hub wa)) in *.
    destruct (getEntityRegistry_events hub wd) as (evsE & HnE & HE).
    exists (wsAreas :: evsA ++ wsDevices :: evsD ++ wsEntities :: evsE).
    split.
    { constructor; [exact I|]. apply Forall_app. split; [exact HnA|].
      constructor; [exact I|]. apply Forall_app. split; [exact HnD|].
      constructor; [exact I | exact HnE]. }
    split; [intros Hf; unfold fresh in Hf; lia|].
    split; [eauto|].
    cbn [snd tick w_trace withCache]. rewrite HE, ticks_trace.
    rewrite HD, ticks_trace. rewrite HA, ticks_trace. unfold w1. cbn [tick w_trace].
    repeat (rewrite <- app_assoc; cbn [app]). reflexivity.
Qed.

(** X6.  Saturating the age of the cache to the range of a duration never
    changes the staleness test: a call makes no request exactly when the
    cache is less than five minutes old at the test, a clock that ran
    backwards included, and at five minutes sharp it refreshes. *)
Theorem staleness_boundary (w : World) :
  (fresh hub w <-> cacheAge w < 5 * Minute) /\
  (stale hub w <-> 5 * Minute <= cacheAge w) /\
  (w_trace (snd (updateAreaCache hub w)) = w_trace w ++ [EvLock; EvUnlock] <->
   cacheAge w < 5 * Minute).
Proof.
  split; [apply fresh_age|]. split; [apply stale_age|].
  rewrite <- fresh_age.
  destruct (updateAreaCache_events w) as (evs & _ & Hfresh & Hstale & Htrace).
  rewrite Htrace. split.
  - intros Heq. apply app_inv_head in Heq. simpl in Heq. injection Heq as Heq.
    destruct (Z.lt_ge_cases (Since (w_now (tick hub EvLock w))
                                   (cache_lastUpdate (areaCache w))) (5 * Minute))
      as [Hf|Hs]; [exact Hf|].
    destruct (Hstale Hs) as (rest & ->). discriminate.
  - intros Hf. now rewrite (Hfresh Hf).
Qed.

(** X7.  Every call of [updateAreaCache] takes the lock first and releases it
    last, and between the two does nothing but talk to the hub; every call of
    [enrichWithArea] does that and then takes and releases the read lock,
    with nothing in between.  No lock is taken twice or left held. *)
Theorem lock_discipline (states : list HAState) (w : World) :
  (exists evs,
     Forall isNetwork evs /\
     w_trace (snd (updateAreaCache hub w)) = w_trace w ++ [EvLock] ++ evs ++ [EvUnlock]) /\
  (exists evs,
     Forall isNetwork evs /\
     w_trace (snd (enrichWithArea hub states w)) =
     w_trace w ++ [EvLock] ++ evs ++ [EvUnlock; EvRLock; EvRUnlock]).
Proof.
  destruct (updateAreaCache_events w) as (evs & Hn & _ & _ & Htrace).
  split; exists evs; (split; [exact Hn|]); [exact Htrace|].
  rewrite enrichWithArea_run. cbn [snd tick w_trace]. rewrite Htrace.
  rewrite <- !app_assoc. reflexivity.
Qed.

(** What every cache the program builds satisfies: an area is filed under its
    own id, and no device or entity is mapped to the empty area id. *)
Definition cacheOK (c : AreaEnrichmentCache) : Prop :=
  (forall areaID area, cache_areas c !! areaID = Some area -> area_AreaID area = areaID) /\
  (forall deviceID areaID, cache_devices c !! deviceID = Some areaID -> areaID <> "") /\
  (forall entityID areaID, cache_entities c !! entityID = Some areaID -> areaID <> "").

Lemma buildAreas_keyed (areas : list HAArea) (areaID : string) (area : HAArea) :
  buildAreas areas !! areaID = Some area -> area_AreaID area = areaID /\ In area areas.
Proof.
  rewrite buildAreas_lookup. intros H.
  apply last_Some_elem_of, list_elem_of_In, filter_In in H.
  destruct H as [Hin Heq]. apply String.eqb_eq in Heq. auto.
Qed.

Lemma buildDevices_value (devices : list HADevice) (deviceID areaID : string) :
  buildDevices devices !! deviceID = Some areaID ->
  areaID <> "" /\
  exists device, In device devices /\ dev_ID device = deviceID /\ dev_AreaID device = areaID.
Proof.
  rewrite buildDevices_lookup. intros H.
  apply last_Some_elem_of, list_elem_of_omap in H.
  destruct H as (device & Hin & Hd). apply list_elem_of_In in Hin.
  unfold deviceArea in Hd.
  destruct (String.eqb_spec (dev_ID device) deviceID) as [Hid|]; [|discriminate].
  destruct (nonempty (dev_AreaID device)) eqn:Hne; [|discriminate].
  simpl in Hd. injection Hd as <-. apply nonempty_true in Hne. eauto.
Qed.

Lemma buildEntities_value (devices : gmap string string) (entities : list HAEntity)
    (entityID areaID : string) :
  buildEntities devices entities !! entityID = Some areaID ->
  exists entity, In entity entities /\ ent_EntityID entity = entityID /\
                 resolve devices entity = Some areaID.
Proof.
  rewrite buildEntities_lookup. intros H.
  apply last_Some_elem_of, list_elem_of_omap in H.
  destruct H as (entity & Hin & Hr). apply list_elem_of_In in Hin.
  unfold resolvesFor in Hr.
  destruct (String.eqb_spec (ent_EntityID entity) entityID) as [Hid|]; [|discriminate].
  eauto.
Qed.

Lemma refreshed_ok ra rd re now : cacheOK (refreshed ra rd re now).
Proof.
  unfold cacheOK, refreshed. simpl. split; [|split].
  - intros k a H. now apply buildAreas_keyed in H.
  - intros d a H. now apply buildDevices_value in H.
  - intros e a H. apply buildEntities_value in H.
    destruct H as (entity & _ & _ & Hr). apply resolve_Some in Hr.
    destruct Hr as [(Hne & ->) | (_ & _ & Hd)]; [exact Hne|].
    now apply buildDevices_value in Hd.
Qed.

(** X8.  The cache the process starts with is well formed, and
    [updateAreaCache] keeps it so whatever the hub returns: areas stay filed
    under their own ids and no device or entity is ever mapped to the empty
    area id.  After a call that refreshed, this holds whatever the cache was
    before. *)
Theorem cache_invariant (w : World) :
  cacheOK initialCache /\
  (cacheOK (areaCache w) -> cacheOK (areaCache (snd (updateAreaCache hub w)))) /\
  (stale hub w -> cacheOK (areaCache (snd (updateAreaCache hub w)))).
Proof.
  assert (Hst : stale hub w -> cacheOK (areaCache (snd (updateAreaCache hub w)))).
  { intros Hs. rewrite (updateAreaCache_stale hub w Hs). apply refreshed_ok. }
  split; [|split; [|exact Hst]].
  - unfold cacheOK, initialCache. simpl. repeat split; intros ? ? H;
      rewrite lookup_empty in H; discriminate.
  - intros Hok.
    destruct (Z.lt_ge_cases (Since (w_now (tick hub EvLock w))
                                   (cache_lastUpdate (areaCache w))) (5 * Minute))
      as [Hf|Hs]; [|now apply Hst].
    rewrite (updateAreaCache_fresh hub w Hf). exact Hok.
Qed.

Lemma enrichState_idem (c : AreaEnrichmentCache) (state : HAState) :
  enrichState c (enrichState c state) = enrichState c state.
Proof.
  unfold enrichState at 2.
  destruct (lookupArea c (st_EntityID state)) as [area|] eqn:Hl.
  - unfold enrichState. simpl. rewrite Hl. reflexivity.
  - unfold enrichState. now rewrite Hl.
Qed.

(** X9.  Enriching again what was just enriched changes nothing: when the
    cache is the one the first call left and is still fresh, the second call
    returns the list it was given and only takes and releases the two
    locks. *)
Theorem enrich_again (states : list HAState) (w1 w2 : World) :
  areaCache w2 = areaCache (snd (enrichWithArea hub states w1)) ->
  fresh hub w2 ->
  enrichWithArea hub (fst (enrichWithArea hub states w1)) w2 =
  (fst (enrichWithArea hub states w1),
   ticks hub [EvLock; EvUnlock; EvRLock; EvRUnlock] w2).
Proof.
  intros Hcache Hfresh. rewrite (enrichWithArea_run hub states w1) in *. cbv zeta in *.
  cbn [fst snd tick areaCache] in *.
  rewrite enrichWithArea_run, (updateAreaCache_fresh hub w2 Hfresh). cbv zeta.
  cbn [snd tick areaCache]. rewrite Hcache. f_equal.
  rewrite map_map. apply map_ext. intros s. apply enrichState_idem.
Qed.

End CacheMore.

Section AtKitchenHub.

(** What follows is run with [foldASCII] for the case tables. *)
#[local] Existing Instance foldASCII.

(** The world a minute after the enrichment of [states] against
    [kitchenHub]. *)
Definition enrichedLater (states : list HAState) : World :=
  let w1' := snd (enrichWithArea kitchenHub states startWorld) in
  mkWorld (w_now w1' + Minute) (w_trace w1') (areaCache w1').

(** X9 at [kitchenHub]. *)
Lemma enrich_again_witness :
  fresh kitchenHub (enrichedLater [plainState "light.a"]) /\
  enrichWithArea kitchenHub [withArea (plainState "light.a") kitchen]
                 (enrichedLater [plainState "light.a"]) =
  ([withArea (plainState "light.a") kitchen],
   ticks kitchenHub [EvLock; EvUnlock; EvRLock; EvRUnlock]
         (enrichedLater [plainState "light.a"])).
Proof.
  assert (Hf : fresh kitchenHub (enrichedLater [plainState "light.a"]))
    by (vm_compute; reflexivity).
  split; [exact Hf|].
  exact (enrich_again (unicode := foldASCII) kitchenHub [plainState "light.a"] startWorld
           (enrichedLater [plainState "light.a"]) eq_refl Hf).
Defined.

End AtKitchenHub.

(** * Further properties of the resolution tiers *)

Section TiersMore.

Context {unicode : strings.Unicode}.

Variable hub : Hub.

(** What the REST tier of the areas registry makes of one answer: the list,
    when the request went through with status 200 and the body decodes. *)
Definition restAreas (r : result Response) : option (list HAArea) :=
  match r with
  | Ok resp =>
      if StatusCode resp =? 200 then
        match as_areas (Body resp) with
        | Ok areas => Some areas
        | Err _ => None
        end
      else None
  | Err _ => None
  end.

(** The socket tier of the areas registry gave nothing to use. *)
Definition socketHasNoAreas (w : World) : Prop :=
  match ws_areas hub (w_trace w) with
  | Ok areas => areas = []
  | Err _ => True
  end.

Lemma getAreas_rest (w : World) :
  socketHasNoAreas w ->
  getAreas hub w = getAreasREST hub areaEndpoints (tick hub wsAreas w).
Proof.
  unfold socketHasNoAreas, getAreas. intros H. rewrite bind_run. simpl.
  destruct (ws_areas hub (w_trace w)) as [areas|e]; [|reflexivity].
  now rewrite H.
Qed.

Lemma getAreasREST_step (endpoint : string) (rest : list string) (w : World) :
  getAreasREST hub (endpoint :: rest) w =
  match restAreas (http_do hub (w_trace w) "GET" endpoint None) with
  | Some areas => (Ok areas, tick hub (httpGet endpoint) w)
  | None => getAreasREST hub rest (tick hub (httpGet endpoint) w)
  end.
Proof.
  cbn [getAreasREST]. rewrite bind_run. cbn [makeHARequest fst snd]. unfold restAreas.
  destruct (http_do hub (w_trace w) "GET" endpoint None) as [resp|e]; [|reflexivity].
  destruct (StatusCode resp =? 200); [|reflexivity].
  now destruct (as_areas (Body resp)).
Qed.

Lemma getAreas_rest_cases (w : World) :
  socketHasNoAreas w ->
  let w1 := tick hub wsAreas w in
  let w2 := tick hub (httpGet "/api/config/area_registry") w1 in
  let w3 := tick hub (httpGet "/api/areas") w2 in
  getAreas hub w =
  match restAreas (http_do hub (w_trace w1) "GET" "/api/config/area_registry" None) with
  | Some areas => (Ok areas, w2)
  | None =>
      match restAreas (http_do hub (w_trace w2) "GET" "/api/areas" None) with
      | Some areas => (Ok areas, w3)
      | None => extractAreasFromStates hub w3
      end
  end.
Proof.
  intros Hno w1 w2 w3. rewrite (getAreas_rest w Hno). unfold areaEndpoints.
  rewrite getAreasREST_step. fold w1 w2.
  destruct (restAreas _); [reflexivity|].
  rewrite getAreasREST_step. fold w3. reflexivity.
Qed.

(** X10.  When the socket gives no areas, [getAreas] asks the two REST paths
    in their order and takes the first answer that has status 200 and
    decodes, an empty list included; the second path is asked only when the
    first gave nothing, and the entity states are read only when neither
    did. *)
Theorem getAreas_rest_order (w : World) :
  socketHasNoAreas w ->
  let w1 := tick hub wsAreas w in
  let w2 := tick hub (httpGet "/api/config/area_registry") w1 in
  let w3 := tick hub (httpGet "/api/areas") w2 in
  getAreas hub w =
  match restAreas (http_do hub (w_trace w1) "GET" "/api/config/area_registry" None) with
  | Some areas => (Ok areas, w2)
  | None =>
      match restAreas (http_do hub (w_trace w2) "GET" "/api/areas" None) with
      | Some areas => (Ok areas, w3)
      | None => extractAreasFromStates hub w3
      end
  end.
Proof. exact (getAreas_rest_cases w). Qed.

Lemma extractAreasFromStates_once (w : World) :
  snd (extractAreasFromStates hub w) = tick hub (httpGet "/api/states") w.
Proof.
  unfold extractAreasFromStates. rewrite bind_run. simpl.
  destruct (http_do hub _ _ _ _) as [r|e']; [|reflexivity].
  destruct (negb (StatusCode r =? 200)); [reflexivity|].
  now destruct (as_states (Body r)).
Qed.

(** X11.  [getAreas] returns an error only after all four requests: the
    socket, the two REST paths and the entity states, in this order. *)
Theorem getAreas_error_exhausts (w : World) (e : error) :
  fst (getAreas hub w) = Err e ->
  w_trace (snd (getAreas hub w)) =
  w_trace w ++ [ wsAreas; httpGet "/api/config/area_registry"; httpGet "/api/areas";
                 httpGet "/api/states" ].
Proof.
  intros Herr.
  assert (Hno : socketHasNoAreas w).
  { unfold socketHasNoAreas. unfold getAreas in Herr. rewrite bind_run in Herr.
    simpl in Herr. destruct (ws_areas hub (w_trace w)) as [[|a l]|e0]; [reflexivity| |exact I].
    simpl in Herr. discriminate. }
  rewrite (getAreas_rest_cases w Hno) in *. cbv zeta in *.
  destruct (restAreas _) as [areas|]; [discriminate|].
  destruct (restAreas _) as [areas|]; [discriminate|].
  rewrite extractAreasFromStates_once. simpl. rewrite <- !app_assoc. reflexivity.
Qed.

(** X12.  [getDevices] fails in two cases only, both after the socket
    failed: the REST request itself failed, or it was answered with status
    200 and a body that does not decode; the error returned is that one. *)
Theorem getDevices_errors (w : World) (e : error) :
  fst (getDevices hub w) = Err e <->
  (exists e0, ws_devices hub (w_trace w) = Err e0) /\
  (http_do hub (w_trace w ++ [wsDevices]) "GET" "/api/config/device_registry" None = Err e \/
   exists resp,
     http_do hub (w_trace w ++ [wsDevices]) "GET" "/api/config/device_registry" None = Ok resp /\
     StatusCode resp = 200 /\ as_devices (Body resp) = Err e).
Proof.
  unfold getDevices. rewrite bind_run. simpl.
  destruct (ws_devices hub (w_trace w)) as [devices|e0]; simpl.
  - split; [discriminate | intros [[e1 H] _]; discriminate].
  - rewrite bind_run. simpl. unfold wsDevices.
    destruct (http_do hub _ "GET" "/api/config/device_registry" None) as [resp|e1]; simpl.
    + destruct (Z.eqb_spec (StatusCode resp) 200) as [Hst|Hst]; simpl.
      * destruct (as_devices (Body resp)) as [devices|e2] eqn:Hdec; simpl.
        -- split; [discriminate|].
           intros [_ [H | (r & [= <-] & _ & H)]]; [discriminate | congruence].
        -- split.
           ++ intros [= <-]. split; [eauto|]. right. eauto.
           ++ intros [_ [H | (r & [= <-] & _ & H)]]; [discriminate | congruence].
      * split; [discriminate|].
        intros [_ [H | (r & [= <-] & H & _)]]; [discriminate | congruence].
    + split.
      * intros [= <-]. split; [eauto|]. now left.
      * intros [_ [[= <-] | (r & H & _)]]; [reflexivity | discriminate].
Qed.

End TiersMore.

Section AtRestHubs.

(** What follows is run with [foldASCII] for the case tables. *)
#[local] Existing Instance foldASCII.

(** X10 at [secondPathHub]: 403 on the first path, the area on the second. *)
Lemma getAreas_rest_order_witness :
  socketHasNoAreas secondPathHub startWorld /\
  getAreas secondPathHub startWorld =
  (Ok [kitchen],
   tick secondPathHub (httpGet "/api/areas")
     (tick secondPathHub (httpGet "/api/config/area_registry")
        (tick secondPathHub wsAreas startWorld))).
Proof.
  split; [reflexivity|].
  exact (getAreas_rest_order secondPathHub startWorld eq_refl).
Defined.

(** X11 at [deadHub]. *)
Lemma getAreas_error_exhausts_witness :
  fst (getAreas deadHub startWorld) = Err refused /\
  w_trace (snd (getAreas deadHub startWorld)) =
  [ wsAreas; httpGet "/api/config/area_registry"; httpGet "/api/areas";
    httpGet "/api/states" ].
Proof.
  split; [reflexivity|].
  exact (getAreas_error_exhausts deadHub startWorld refused eq_refl).
Defined.

End AtRestHubs.

(** * Further properties of the control path *)

Section ControlMore.

Context {unicode : strings.Unicode}.

Variable hub : Hub.

(** The only effects of the control path: a POST to a service endpoint with
    a payload, and the pause of 50 ms. *)
Definition isControlEvent (ev : event) : Prop :=
  match ev with
  | EvHTTP method endpoint (Some _) =>
      method = "POST" /\ strings.HasPrefix endpoint "/api/services/" = true
  | EvSleep d => d = 50 * Millisecond
  | _ => False
  end.

Definition isPost (ev : event) : bool :=
  match ev with
  | EvHTTP _ _ _ => true
  | _ => false
  end.

Definition isSleep (ev : event) : bool :=
  match ev with
  | EvSleep _ => true
  | _ => false
  end.

Definition posts (evs : list event) : nat := length (List.filter isPost evs).
Definition sleeps (evs : list event) : nat := length (List.filter isSleep evs).

Lemma posts_app evs1 evs2 : posts (evs1 ++ evs2) = (posts evs1 + posts evs2)%nat.
Proof. unfold posts. now rewrite List.filter_app, length_app. Qed.

Lemma sleeps_app evs1 evs2 : sleeps (evs1 ++ evs2) = (sleeps evs1 + sleeps evs2)%nat.
Proof. unfold sleeps. now rewrite List.filter_app, length_app. Qed.

Lemma controlEntity_effect (entityID action : string) (w : World) :
  exists evs,
    snd (controlEntity hub entityID action w) = ticks hub evs w /\
    Forall isControlEvent evs /\ (posts evs <= 1)%nat /\ sleeps evs = 0%nat /\
    (evs = [] -> exists e, fst (controlEntity hub entityID action w) = Some e /\
                           isUserInputError e = true).
Proof.
  unfold controlEntity.
  destruct (domainOf entityID) as [domain|] eqn:Hd;
    [|exists []; repeat split; eauto].
  destruct (serviceOf action) as [service|] eqn:Hs;
    [|exists []; repeat split; eauto].
  exists [EvHTTP "POST" (serviceEndpoint domain service) (Some (serviceCall entityID))].
  rewrite bind_run. simpl.
  assert (Hp : strings.HasPrefix (serviceEndpoint domain service) "/api/services/" = true).
  { unfold domainOf in Hd. unfold serviceOf in Hs.
    destruct (strings.HasPrefix entityID "light.");
      [|destruct (strings.HasPrefix entityID "switch."); [|discriminate]];
      injection Hd as <-;
      (destruct (String.eqb action "on" || String.eqb action "turn_on");
       [|destruct (String.eqb action "off" || String.eqb action "turn_off"); [|discriminate]]);
      injection Hs as <-; reflexivity. }
  split.
  { destruct (http_do hub _ _ _ _) as [resp|e]; [|reflexivity].
    now destruct (negb (StatusCode resp =? 200)). }
  split; [repeat constructor; exact Hp|].
  split; [unfold posts; simpl; lia|]. split; [reflexivity | discriminate].
Qed.

Lemma batchItem_effect (n i : Z) (entityInterface : jvalue) (w : World) :
  exists evs,
    snd (batchItem hub n i entityInterface w) = ticks hub evs w /\
    Forall isControlEvent evs /\ (posts evs <= 1)%nat /\ (sleeps evs <= 1)%nat /\
    (n - 1 <= i -> sleeps evs = 0%nat).
Proof.
  unfold batchItem.
  destruct entityInterface as [| | | |l|entityMap];
    try (exists []; repeat split; simpl; auto; constructor).
  destruct (as_string (entityMap !! "entity_id")) as [entityID|];
    [|exists []; repeat split; simpl; auto; constructor].
  destruct (as_string (entityMap !! "action")) as [action|];
    [|exists []; repeat split; simpl; auto; constructor].
  destruct (controlEntity_effect entityID action w) as (evs & Hw & Hc & Hp & Hs & _).
  repeat (rewrite bind_run; cbv beta). rewrite Hw.
  destruct (Z.ltb_spec i (n - 1)) as [Hlt|Hge].
  - exists (evs ++ [EvSleep (50 * Millisecond)]).
    split.
    { rewrite ticks_app. cbn [emit fst snd].
      now destruct (fst (controlEntity hub entityID action w)). }
    split; [apply Forall_app; split; [exact Hc | repeat constructor]|].
    rewrite posts_app, sleeps_app, Hs. unfold posts at 2, sleeps. simpl.
    repeat split; lia.
  - exists evs. split.
    { cbn [ret fst snd]. now destruct (fst (controlEntity hub entityID action w)). }
    split; [exact Hc|]. rewrite Hs. repeat split; lia.
Qed.

Lemma batchLoop_effect (n : Z) (entitiesSlice : list jvalue) :
  forall (i : Z) (results : list BatchResult) (errors : list string) (w : World),
  exists evs,
    snd (batchLoop hub n i entitiesSlice results errors w) = ticks hub evs w /\
    Forall isControlEvent evs /\
    (posts evs <= length entitiesSlice)%nat /\
    (sleeps evs <= length entitiesSlice)%nat /\
    (n <= i + Z.of_nat (length entitiesSlice) ->
     (sleeps evs <= Nat.pred (length entitiesSlice))%nat).
Proof.
  induction entitiesSlice as [|x l IH]; intros i results errors w.
  - exists []. simpl. repeat split; auto.
  - cbn [batchLoop]. rewrite bind_run.
    destruct (batchItem_effect n i x w) as (evs1 & Hw1 & Hc1 & Hp1 & Hs1 & Hlast).
    rewrite Hw1.
    match goal with |- context [batchLoop hub n (i + 1) l ?r ?e _] =>
      destruct (IH (i + 1) r e (ticks hub evs1 w)) as (evs2 & Hw2 & Hc2 & Hp2 & Hs2 & Hend)
    end.
    exists (evs1 ++ evs2). rewrite Hw2, ticks_app.
    split; [reflexivity|]. split; [now apply Forall_app|].
    rewrite posts_app, sleeps_app. cbn [length].
    split; [lia|]. split; [lia|].
    intros Hn. destruct l as [|y l'].
    + simpl in *. rewrite Hlast by lia. lia.
    + cbn [length] in *. assert (Hn' : n <= i + 1 + Z.of_nat (S (length l'))) by lia.
      specialize (Hend Hn'). simpl in Hend. lia.
Qed.

(** The number of items of the batch, zero when there is no array. *)
Definition batchSize (arguments : gmap string jvalue) : nat :=
  match arguments !! "entities" with
  | Some (JArray entitiesSlice) => length entitiesSlice
  | _ => 0%nat
  end.

(** X13.  Batch control does nothing but POST to service endpoints and pause
    for 50 ms: at most one POST per item, at most one pause less than there
    are items, no lock and no read of the hub; the area cache is left as it
    was.  Without an array of items it does nothing at all. *)
Theorem batch_control_frame (arguments : gmap string jvalue) (w : World) :
  exists evs,
    snd (controlMultipleEntitiesHandler hub arguments w) = ticks hub evs w /\
    Forall isControlEvent evs /\
    (posts evs <= batchSize arguments)%nat /\
    (sleeps evs <= Nat.pred (batchSize arguments))%nat /\
    areaCache (snd (controlMultipleEntitiesHandler hub arguments w)) = areaCache w.
Proof.
  unfold controlMultipleEntitiesHandler, batchSize.
  destruct (arguments !! "entities") as [[| | | |l|m]|];
    try (exists []; repeat split; simpl; auto; constructor).
  rewrite bind_run. cbn [ret snd].
  destruct (batchLoop_effect (Z.of_nat (length l)) l 0 [] [] w)
    as (evs & Hw & Hc & Hp & _ & Hs).
  exists evs. rewrite Hw. split; [reflexivity|]. split; [exact Hc|].
  split; [exact Hp|]. split; [apply Hs; lia|]. apply ticks_cache.
Qed.

End ControlMore.

(** * Reading states *)

Section Reads.

Context {unicode : strings.Unicode}.

Variable MatchString : string -> string -> option bool.
Variable config : Config.
Variable hub : Hub.

(** [json.NewDecoder(resp.Body).Decode(&state)] for a single [HAState]: what
    decoding a body as one state gives. *)
Variable decodeState : body -> result HAState.

(** [http.NewRequest(method, url, body)]: the error it returns, if any.  It
    fails on a URL that does not parse. *)
Variable NewRequest : string -> string -> option error.

(** The loop "Filter for lights and switches only" of [getAllStates]. *)
Definition lightsAndSwitches (states : list HAState) : list HAState :=
  fold_left
    (fun filtered state =>
       if strings.HasPrefix (st_EntityID state) "light." ||
          strings.HasPrefix (st_EntityID state) "switch."
       then filtered ++ [state] else filtered)
    states [].

Definition getAllStates : M (result (list HAState)) :=
  r <- makeHARequest hub "GET" "/api/states" None ;;
  match r with
  | Err err => ret (Err err)
  | Ok resp =>
      if negb (StatusCode resp =? 200) then ret (Err (ErrStatus (StatusCode resp)))
      else match as_states (Body resp) with
           | Err err => ret (Err err)
           | Ok states =>
               let filtered := lightsAndSwitches states in
               let result := filterEntities MatchString config filtered in
               result <- enrichWithArea hub result ;;
               ret (Ok result)
           end
  end.

(** The errors of [getEntityState]: those of the other calls, and
    [fmt.Errorf("entity %s not found", entityID)]. *)
Inductive readError : Type :=
  | ReadFailed (e : error)
  | EntityNotFound (entityID : string).

Definition readErrorText (e : readError) : string :=
  match e with
  | ReadFailed e => Error e
  | EntityNotFound entityID => "entity " +:+ entityID +:+ " not found"
  end.

(** What [getEntityState] returns: the state, an error, or the panic of
    [&states[0]] on an empty slice. *)
Inductive readResult : Type :=
  | Found (state : HAState)
  | NotRead (e : readError)
  | IndexOutOfRange.

(** [makeHARequest] with the URL it builds, the hub's with the endpoint
    appended: when [http.NewRequest] refuses it the error is returned and
    nothing is sent. *)
Definition makeHARequestURL (method endpoint : string) (payload : option jvalue)
  : M (result Response) :=
  let url := HAURL config +:+ endpoint in
  match NewRequest method url with
  | Some err => ret (Err err)
  | None => makeHARequest hub method endpoint payload
  end.

Definition getEntityState (entityID : string) : M readResult :=
  r <- makeHARequestURL "GET" ("/api/states/" +:+ entityID) None ;;
  match r with
  | Err err => ret (NotRead (ReadFailed err))
  | Ok resp =>
      if StatusCode resp =? 404 then ret (NotRead (EntityNotFound entityID))
      else if negb (StatusCode resp =? 200)
      then ret (NotRead (ReadFailed (ErrStatus (StatusCode resp))))
      else match decodeState (Body resp) with
           | Err err => ret (NotRead (ReadFailed err))
           | Ok state =>
               states <- enrichWithArea hub [state] ;;
               match states with
               | state0 :: _ => ret (Found state0)
               | [] => ret IndexOutOfRange
               end
           end
  end.

(** What a handler of a single call hands back: [mcp.NewToolResultText] or
    [mcp.NewToolResultError]. *)
Inductive ToolReply : Type :=
  | ReplyText (text : string)
  | ReplyError (msg : string).

(** [controlEntityHandler] on the request's arguments.
    [request.RequireString(key)] fails when the key is missing or its value
    is not a string. *)
Definition controlEntityHandler (arguments : gmap string jvalue)
  : M (ToolReply * option error) :=
  match as_string (arguments !! "entity_id") with
  | None => ret (ReplyError "entity_id parameter is required", None)
  | Some entityID =>
      match as_string (arguments !! "action") with
      | None => ret (ReplyError "action parameter is required", None)
      | Some action =>
          err <- controlEntity hub entityID action ;;
          match err with
          | Some e => ret (ReplyError ("Failed to control entity: " +:+ Error e), None)
          | None =>
              ret (ReplyText ("Successfully turned " +:+ entityID +:+ " " +:+ action), None)
          end
      end
  end.

Lemma lightsAndSwitches_from (states acc : list HAState) :
  fold_left
    (fun filtered state =>
       if strings.HasPrefix (st_EntityID state) "light." ||
          strings.HasPrefix (st_EntityID state) "switch."
       then filtered ++ [state] else filtered)
    states acc =
  acc ++ List.filter (fun state => isLightOrSwitch (st_EntityID state)) states.
Proof.
  revert acc. induction states as [|s l IH]; intros acc; simpl.
  - now rewrite app_nil_r.
  - rewrite IH. unfold isLightOrSwitch.
    destruct (strings.HasPrefix (st_EntityID s) "light." ||
              strings.HasPrefix (st_EntityID s) "switch."); [|reflexivity].
    now rewrite <- app_assoc.
Qed.

Lemma lightsAndSwitches_filter (states : list HAState) :
  lightsAndSwitches states =
  List.filter (fun state => isLightOrSwitch (st_EntityID state)) states.
Proof. exact (lightsAndSwitches_from states []). Qed.

(** The states the hub answers a read in [w] with, if it does. *)
Definition hubStates (w : World) : option (list HAState) :=
  match http_do hub (w_trace w) "GET" "/api/states" None with
  | Ok resp =>
      if StatusCode resp =? 200 then
        match as_states (Body resp) with
        | Ok states => Some states
        | Err _ => None
        end
      else None
  | Err _ => None
  end.

(** Whether [getAllStates] shows an entity. *)
Definition shown (state : HAState) : bool :=
  isLightOrSwitch (st_EntityID state) && passes MatchString config state.

Lemma getAllStates_run (w : World) :
  let w1 := tick hub (httpGet "/api/states") w in
  match hubStates w with
  | Some states =>
      getAllStates w =
      (Ok (map (enrichState (areaCache (snd (updateAreaCache hub w1))))
               (List.filter shown states)),
       tick hub EvRUnlock (tick hub EvRLock (snd (updateAreaCache hub w1))))
  | None =>
      snd (getAllStates w) = w1 /\ exists e, fst (getAllStates w) = Err e
  end.
Proof.
  intros w1. unfold hubStates, getAllStates. rewrite bind_run.
  cbn [makeHARequest fst snd]. fold w1.
  destruct (http_do hub (w_trace w) "GET" "/api/states" None) as [resp|e];
    [|split; [reflexivity | eauto]].
  destruct (StatusCode resp =? 200); simpl; [|split; [reflexivity | eauto]].
  destruct (as_states (Body resp)) as [states|e]; [|split; [reflexivity | eauto]].
  rewrite bind_run, enrichWithArea_run. cbv zeta. cbn [ret fst snd].
  rewrite filterEntities_filter, lightsAndSwitches_filter.
  do 3 f_equal. clear. induction states as [|s l IH]; simpl; [reflexivity|].
  unfold shown at 1. destruct (isLightOrSwitch (st_EntityID s)); simpl; [|exact IH].
  destruct (passes MatchString config s); simpl; [f_equal|]; exact IH.
Qed.

(** X14.  When the read of the states fails, by the request, a status other
    than 200 or the decoding, [getAllStates] returns an error having made
    that one request: it takes no lock and leaves the area cache alone.
    When it succeeds, it returns the hub's states that are lights or
    switches, are off the blacklist and, with a whitelist, on it, in the
    hub's order, each enriched from the cache as the refresh left it. *)
Theorem getAllStates_result (w : World) :
  let w1 := tick hub (httpGet "/api/states") w in
  (forall e, fst (getAllStates w) = Err e -> snd (getAllStates w) = w1) /\
  (forall out, fst (getAllStates w) = Ok out ->
     exists states,
       hubStates w = Some states /\
       out = map (enrichState (areaCache (snd (getAllStates w))))
                 (List.filter shown states) /\
       map st_EntityID out = List.filter
         (fun entityID => isLightOrSwitch entityID &&
                          negb (isEntityBlacklisted MatchString config entityID) &&
                          (match EntityFilter config with [] => true | _ => false end
                           || isEntityWhitelisted MatchString config entityID))
         (map st_EntityID states)).
Proof.
  intros w1. pose proof (getAllStates_run w) as Hrun. cbv zeta in Hrun. fold w1 in Hrun.
  destruct (hubStates w) as [states|].
  - rewrite Hrun. cbn [fst snd tick areaCache]. split; [discriminate|].
    intros out [= <-]. exists states. split; [reflexivity|]. split; [reflexivity|].
    clear Hrun. generalize (areaCache (snd (updateAreaCache hub w1))) as c. intros c.
    induction states as [|s l IH]; simpl; [reflexivity|].
    unfold shown at 1, passes.
    destruct (isLightOrSwitch (st_EntityID s)); simpl; [|exact IH].
    destruct (negb (isEntityBlacklisted MatchString config (st_EntityID s))); simpl;
      [|exact IH].
    destruct (match EntityFilter config with [] => true | _ => false end
              || isEntityWhitelisted MatchString config (st_EntityID s)); simpl;
      [|exact IH].
    f_equal; [|exact IH]. unfold enrichState.
    now destruct (lookupArea c (st_EntityID s)).
  - destruct Hrun as [Hw (e & He)]. split; [intros _ _; exact Hw|].
    intros out Hout. congruence.
Qed.

(** X15.  [getEntityState] never indexes an empty slice.  When the URL made
    of the hub's address, "/api/states/" and the identifier is one that
    [http.NewRequest] refuses, it returns that error and nothing has
    happened: no request, no lock.  Otherwise it makes the request for
    "/api/states/<id>"; when it then returns an error it has made that one
    request only, and the area cache is not refreshed; status 404 is the
    not-found error naming the identifier asked for, whatever the body.  A
    state is returned only when the request was built and answered with
    status 200 and a body that decodes, and it is the decoded state enriched
    from the cache as the refresh left it. *)
Theorem getEntityState_outcomes (entityID : string) (w : World) :
  let endpoint := "/api/states/" +:+ entityID in
  let w1 := tick hub (httpGet endpoint) w in
  fst (getEntityState entityID w) <> IndexOutOfRange /\
  (forall err,
     NewRequest "GET" (HAURL config +:+ endpoint) = Some err ->
     getEntityState entityID w = (NotRead (ReadFailed err), w)) /\
  (NewRequest "GET" (HAURL config +:+ endpoint) = None ->
   (exists evs, w_trace (snd (getEntityState entityID w)) =
                w_trace w ++ httpGet endpoint :: evs) /\
   (forall e, fst (getEntityState entityID w) = NotRead e ->
              snd (getEntityState entityID w) = w1) /\
   (forall resp,
      http_do hub (w_trace w) "GET" endpoint None = Ok resp ->
      StatusCode resp = 404 ->
      fst (getEntityState entityID w) = NotRead (EntityNotFound entityID))) /\
  (forall state0,
     fst (getEntityState entityID w) = Found state0 ->
     NewRequest "GET" (HAURL config +:+ endpoint) = None /\
     exists resp state,
       http_do hub (w_trace w) "GET" endpoint None = Ok resp /\
       StatusCode resp = 200 /\
       decodeState (Body resp) = Ok state /\
       state0 = enrichState (areaCache (snd (getEntityState entityID w))) state).
Proof.
  intros endpoint w1. unfold getEntityState, makeHARequestURL. cbv zeta. fold endpoint.
  destruct (NewRequest "GET" (HAURL config +:+ endpoint)) as [err|].
  { rewrite bind_run. cbn [ret fst snd]. split; [discriminate|].
    split; [now intros e [= <-]|]. split; intros; discriminate. }
  rewrite bind_run. cbn [makeHARequest fst snd].
  fold (httpGet endpoint). fold w1.
  assert (Hw1 : exists evs, w_trace w1 = w_trace w ++ httpGet endpoint :: evs)
    by (exists []; reflexivity).
  destruct (http_do hub (w_trace w) "GET" endpoint None) as [resp|e].
  2:{ cbn [ret fst snd]. split; [discriminate|]. split; [intros; discriminate|].
      split; [|intros; discriminate]. intros _. split; [exact Hw1|].
      split; [reflexivity | intros; discriminate]. }
  destruct (Z.eqb_spec (StatusCode resp) 404) as [H404|H404].
  { cbn [ret fst snd]. split; [discriminate|]. split; [intros; discriminate|].
    split; [|intros; discriminate]. intros _. split; [exact Hw1|].
    split; reflexivity. }
  destruct (Z.eqb_spec (StatusCode resp) 200) as [H200|H200]; cbn [negb].
  2:{ cbn [ret fst snd]. split; [discriminate|]. split; [intros; discriminate|].
      split; [|intros; discriminate]. intros _. split; [exact Hw1|].
      split; [reflexivity | intros r [= <-]; congruence]. }
  destruct (decodeState (Body resp)) as [state|e] eqn:Hdec.
  2:{ cbn [ret fst snd]. split; [discriminate|]. split; [intros; discriminate|].
      split; [|intros; discriminate]. intros _. split; [exact Hw1|].
      split; [reflexivity | intros r [= <-]; congruence]. }
  rewrite bind_run, enrichWithArea_run. cbv zeta. cbn [map ret fst snd tick areaCache].
  split; [discriminate|]. split; [intros; discriminate|]. split.
  - intros _. split; [|split; [intros; discriminate | intros r [= <-]; congruence]].
    destruct (updateAreaCache_events hub w1) as (evs & _ & _ & _ & Hevs).
    exists ([EvLock] ++ evs ++ [EvUnlock; EvRLock; EvRUnlock]).
    cbn [tick w_trace]. rewrite Hevs. unfold w1. cbn [tick w_trace].
    repeat (rewrite <- app_assoc; cbn [app]). reflexivity.
  - intros state0 [= <-]. split; [reflexivity|]. exists resp, state. auto.
Qed.

Lemma domainOf_Some (entityID domain : string) :
  domainOf entityID = Some domain -> supportedEntity entityID.
Proof.
  unfold domainOf, supportedEntity.
  destruct (strings.HasPrefix entityID "light."); [auto|].
  destruct (strings.HasPrefix entityID "switch."); [auto | discriminate].
Qed.

Lemma serviceOf_Some (action service : string) :
  serviceOf action = Some service -> supportedAction action.
Proof.
  unfold serviceOf, supportedAction.
  destruct (String.eqb_spec action "on"), (String.eqb_spec action "turn_on"),
           (String.eqb_spec action "off"), (String.eqb_spec action "turn_off");
    simpl; try discriminate; auto.
Qed.

Lemma controlEntity_nil (entityID action : string) (w : World) :
  fst (controlEntity hub entityID action w) = None <->
  exists domain service resp,
    domainOf entityID = Some domain /\ serviceOf action = Some service /\
    http_do hub (w_trace w) "POST" (serviceEndpoint domain service)
            (Some (serviceCall entityID)) = Ok resp /\
    StatusCode resp = 200.
Proof.
  unfold controlEntity.
  destruct (domainOf entityID) as [domain|];
    [|split; [discriminate | intros (d & s & r & H & _); discriminate]].
  destruct (serviceOf action) as [service|];
    [|split; [discriminate | intros (d & s & r & _ & H & _); discriminate]].
  rewrite bind_run. simpl.
  destruct (http_do hub _ _ _ _) as [resp|e] eqn:Hhttp; simpl.
  - destruct (Z.eqb_spec (StatusCode resp) 200) as [Hst|Hst]; simpl.
    + split; [|reflexivity]. intros _. exists domain, service, resp. auto.
    + split; [discriminate|].
      intros (d & s & r & [= <-] & [= <-] & Hr & Hst'). congruence.
  - split; [discriminate|].
    intros (d & s & r & [= <-] & [= <-] & Hr & _). congruence.
Qed.

(** X16.  [controlEntityHandler] never returns a Go error.  Without a string
    under "entity_id" it answers that the parameter is required and does
    nothing, and so it does, the entity id being there, without a string
    under "action".  It answers with a text exactly when both are strings,
    the identifier is a light or a switch, the action is one of the four
    literals and the hub answered the service call with status 200. *)
Theorem controlEntityHandler_reply (arguments : gmap string jvalue) (w : World) :
  snd (fst (controlEntityHandler arguments w)) = None /\
  (as_string (arguments !! "entity_id") = None ->
   controlEntityHandler arguments w =
   (ReplyError "entity_id parameter is required", None, w)) /\
  (is_Some (as_string (arguments !! "entity_id")) ->
   as_string (arguments !! "action") = None ->
   controlEntityHandler arguments w =
   (ReplyError "action parameter is required", None, w)) /\
  ((exists text, fst (fst (controlEntityHandler arguments w)) = ReplyText text) <->
   exists entityID action resp,
     as_string (arguments !! "entity_id") = Some entityID /\
     as_string (arguments !! "action") = Some action /\
     supportedEntity entityID /\ supportedAction action /\
     (exists domain service,
        domainOf entityID = Some domain /\ serviceOf action = Some service /\
        http_do hub (w_trace w) "POST" (serviceEndpoint domain service)
                (Some (serviceCall entityID)) = Ok resp) /\
     StatusCode resp = 200).
Proof.
  unfold controlEntityHandler.
  destruct (as_string (arguments !! "entity_id")) as [entityID|].
  2:{ simpl. repeat split; try discriminate.
      - intros [x Hx]; discriminate.
      - intros [t Ht]; discriminate.
      - intros (i & a & r & H & _); discriminate. }
  destruct (as_string (arguments !! "action")) as [action|].
  2:{ simpl. repeat split; try discriminate.
      - intros [t Ht]; discriminate.
      - intros (i & a & r & _ & H & _); discriminate. }
  rewrite bind_run. pose proof (controlEntity_nil entityID action w) as Hnil.
  destruct (fst (controlEntity hub entityID action w)) as [e|]; simpl.
  - repeat split; try discriminate.
    + intros [t Ht]; discriminate.
    + intros (i & a & r & [= <-] & [= <-] & _ & _ & (d & s & Hd & Hs & Hr) & Hst).
      assert (Hex : exists domain service resp,
                 domainOf entityID = Some domain /\ serviceOf action = Some service /\
                 http_do hub (w_trace w) "POST" (serviceEndpoint domain service)
                         (Some (serviceCall entityID)) = Ok resp /\ StatusCode resp = 200)
        by (exists d, s, r; auto).
      apply Hnil in Hex. discriminate.
  - repeat split; try discriminate.
    + intros _. destruct (proj1 Hnil eq_refl) as (d & s & r & Hd & Hs & Hr & Hst).
      exists entityID, action, r.
      split; [reflexivity|]. split; [reflexivity|].
      split; [exact (domainOf_Some _ _ Hd)|]. split; [exact (serviceOf_Some _ _ Hs)|].
      split; [eauto | exact Hst].
    + intros _. eauto.
Qed.

End Reads.

(** * The socket sub-protocol *)

Module Socket.

(** [WSMessage]. *)
Record WSMessage := mkMessage {
  msg_ID : Z;
  msg_Type : string;
  msg_AccessToken : string;
  msg_Success : bool;
  msg_Result : option jvalue;
  msg_Error : option (gmap string jvalue)
}.

(** The errors of a socket call: those of the websocket and JSON libraries,
    and the two [fmt.Errorf] values of the program. *)
Inductive wsError : Type :=
  | External (msg : string)
  | AuthenticationFailed
  | RequestFailed (what : string).

Definition wsErrorText (e : wsError) : string :=
  match e with
  | External msg => msg
  | AuthenticationFailed => "authentication failed"
  | RequestFailed what => what +:+ " request failed"
  end.

Inductive outcome (A : Type) : Type :=
  | Good (a : A)
  | Bad (e : wsError).
Arguments Good {A} a.
Arguments Bad {A} e.

(** What happens on the wire, in order. *)
Inductive wsEvent : Type :=
  | Dial (url : string)
  | ReadMessage
  | WriteJSON (msg : WSMessage)
  | Close.

(** The other end: whether a dial, a read or a write succeeds, given what
    happened before, and what a read returns. *)
Record Peer := mkPeer {
  dial : list wsEvent -> string -> option wsError;
  readMessage : list wsEvent -> outcome string;
  writeJSON : list wsEvent -> WSMessage -> option wsError
}.

Definition S (A : Type) : Type := list wsEvent -> A * list wsEvent.

Definition sret {A : Type} (a : A) : S A := fun tr => (a, tr).

Definition sbind {A B : Type} (m : S A) (k : A -> S B) : S B :=
  fun tr => let (a, tr') := m tr in k a tr'.

(** [strings.Replace(s, old, new, 1)]: the first occurrence of [old], if
    there is one, gives way to [new]. *)
Fixpoint dropBytes (n : nat) (s : string) : string :=
  match n, s with
  | O, _ => s
  | Datatypes.S n', String _ r => dropBytes n' r
  | Datatypes.S _, EmptyString => EmptyString
  end.

Fixpoint ReplaceFirst (s old new : string) : string :=
  if String.prefix old s then new +:+ dropBytes (String.length old) s
  else match s with
       | EmptyString => EmptyString
       | String c r => String c (ReplaceFirst r old new)
       end.

Section Protocol.

Variable peer : Peer.

(** [json.Unmarshal(message, &msg)] into a fresh [WSMessage]. *)
Variable Unmarshal : string -> outcome WSMessage.

Variable config : Config.

Definition doDial (url : string) : S (option wsError) :=
  fun tr => (dial peer tr url, tr ++ [Dial url]).

Definition doRead : S (outcome string) :=
  fun tr => (readMessage peer tr, tr ++ [ReadMessage]).

Definition doWrite (msg : WSMessage) : S (option wsError) :=
  fun tr => (writeJSON peer tr msg, tr ++ [WriteJSON msg]).

Definition doClose : S unit := fun tr => (tt, tr ++ [Close]).

Definition wsURL : string :=
  ReplaceFirst (HAURL config) "http" "ws" +:+ "/api/websocket".

(** [WSMessage{Type: "auth", AccessToken: h.config.HAToken}] *)
Definition authMsg : WSMessage := mkMessage 0 "auth" (HAToken config) false None None.

(** [WSMessage{ID: id, Type: requestType}] *)
Definition requestMsg (id : Z) (requestType : string) : WSMessage :=
  mkMessage id requestType "" false None None.

(** [conn.ReadMessage()] followed by [json.Unmarshal]. *)
Definition readFrame : S (outcome WSMessage) :=
  sbind doRead (fun r =>
  match r with
  | Bad err => sret (Bad err)
  | Good message => sret (Unmarshal message)
  end).

(** [authenticateWebSocket]: [None] is a [nil] error. *)
Definition authenticateWebSocket : S (option wsError) :=
  sbind readFrame (fun r =>
  match r with
  | Bad err => sret (Some err)
  | Good authRequired =>
      sbind (doWrite authMsg) (fun w =>
      match w with
      | Some err => sret (Some err)
      | None =>
          sbind readFrame (fun r =>
          match r with
          | Bad err => sret (Some err)
          | Good authResponse =>
              if negb (String.eqb (msg_Type authResponse) "auth_ok")
              then sret (Some AuthenticationFailed)
              else sret None
          end)
      end)
  end).

(** What follows the authentication in all three functions: the request, the
    response, its success flag and the decoding of its result. *)
Definition requestList {A : Type} (id : Z) (requestType what : string)
    (decode : option jvalue -> outcome (list A)) : S (outcome (list A)) :=
  sbind (doWrite (requestMsg id requestType)) (fun w =>
  match w with
  | Some err => sret (Bad err)
  | None =>
      sbind readFrame (fun r =>
      match r with
      | Bad err => sret (Bad err)
      | Good response =>
          if negb (msg_Success response) then sret (Bad (RequestFailed what))
          else sret (decode (msg_Result response))
      end)
  end).

(** [websocket.DefaultDialer.Dial] and, once connected,
    [defer conn.Close()] around [body]. *)
Definition withConnection {A : Type} (body : S (outcome A)) : S (outcome A) :=
  sbind (doDial wsURL) (fun d =>
  match d with
  | Some err => sret (Bad err)
  | None => sbind body (fun r => sbind doClose (fun _ => sret r))
  end).

(** [getDevicesViaWebSocket] and [getEntityRegistryViaWebSocket]: the same
    text but for the request and the name in the error. *)
Definition registryViaWebSocket {A : Type} (id : Z) (requestType what : string)
    (decode : option jvalue -> outcome (list A)) : S (outcome (list A)) :=
  withConnection
    (sbind authenticateWebSocket (fun a =>
     match a with
     | Some err => sret (Bad err)
     | None => requestList id requestType what decode
     end)).

Definition getDevicesViaWebSocket (decode : option jvalue -> outcome (list HADevice))
  : S (outcome (list HADevice)) :=
  registryViaWebSocket 2 "config/device_registry/list" "device" decode.

Definition getEntityRegistryViaWebSocket (decode : option jvalue -> outcome (list HAEntity))
  : S (outcome (list HAEntity)) :=
  registryViaWebSocket 3 "config/entity_registry/list" "entity" decode.

(** [getAreasViaWebSocket], which authenticates in its own text. *)
Definition getAreasViaWebSocket (decode : option jvalue -> outcome (list HAArea))
  : S (outcome (list HAArea)) :=
  withConnection
    (sbind readFrame (fun r =>
     match r with
     | Bad err => sret (Bad err)
     | Good authRequired =>
         sbind (doWrite authMsg) (fun w =>
         match w with
         | Some err => sret (Bad err)
         | None =>
             sbind readFrame (fun r =>
             match r with
             | Bad err => sret (Bad err)
             | Good authResponse =>
                 if negb (String.eqb (msg_Type authResponse) "auth_ok")
                 then sret (Bad AuthenticationFailed)
                 else requestList 1 "config/area_registry/list" "area" decode
             end)
         end)
     end)).

Lemma sbind_run {A B : Type} (m : S A) (k : A -> S B) (tr : list wsEvent) :
  sbind m k tr = k (fst (m tr)) (snd (m tr)).
Proof. unfold sbind. now destruct (m tr). Qed.

Lemma readFrame_trace (tr : list wsEvent) : snd (readFrame tr) = tr ++ [ReadMessage].
Proof.
  unfold readFrame. rewrite sbind_run. simpl. now destruct (readMessage peer tr).
Qed.

(** The frame read in [tr], decoded. *)
Definition frameAt (tr : list wsEvent) : outcome WSMessage := fst (readFrame tr).

(** The events of a session after the dial, when nothing fails. *)
Definition script (id : Z) (requestType : string) : list wsEvent :=
  [ ReadMessage; WriteJSON authMsg; ReadMessage;
    WriteJSON (requestMsg id requestType); ReadMessage ].

(** The second frame read after the dial in [tr] says "auth_ok". *)
Definition authenticated (tr : list wsEvent) : Prop :=
  exists authResponse,
    frameAt (tr ++ [Dial wsURL; ReadMessage; WriteJSON authMsg]) = Good authResponse /\
    msg_Type authResponse = "auth_ok".

Lemma authenticateWebSocket_run (tr : list wsEvent) :
  exists n,
    snd (authenticateWebSocket tr) = tr ++ take n [ReadMessage; WriteJSON authMsg; ReadMessage] /\
    (fst (authenticateWebSocket tr) = None <->
     (exists m1, frameAt tr = Good m1) /\
     writeJSON peer (tr ++ [ReadMessage]) authMsg = None /\
     exists m2, frameAt (tr ++ [ReadMessage; WriteJSON authMsg]) = Good m2 /\
                msg_Type m2 = "auth_ok") /\
    (fst (authenticateWebSocket tr) = None -> n = 3%nat) /\
    (1 <= n <= 3)%nat.
Proof.
  unfold authenticateWebSocket. rewrite sbind_run, readFrame_trace. unfold frameAt.
  destruct (fst (readFrame tr)) as [m1|e1].
  2:{ exists 1%nat. simpl. split; [reflexivity|]. split; [|split; [discriminate | lia]].
      split; [discriminate | intros ([m H] & _); discriminate]. }
  rewrite sbind_run. cbn [doWrite fst snd].
  destruct (writeJSON peer (tr ++ [ReadMessage]) authMsg) as [e2|].
  { exists 2%nat. simpl. rewrite <- app_assoc. split; [reflexivity|].
    split; [|split; [discriminate | lia]].
    split; [discriminate | intros (_ & H & _); discriminate]. }
  rewrite sbind_run, readFrame_trace. rewrite <- !app_assoc. cbn [app].
  exists 3%nat. split.
  { destruct (fst (readFrame _)) as [m2|e3]; [|reflexivity].
    now destruct (negb (String.eqb (msg_Type m2) "auth_ok")). }
  split; [|split; [reflexivity | lia]].
  destruct (fst (readFrame (tr ++ [ReadMessage; WriteJSON authMsg]))) as [m2|e3].
  - destruct (String.eqb_spec (msg_Type m2) "auth_ok") as [Hok|Hno]; simpl.
    + split; [|reflexivity]. intros _. split; [eauto|]. split; [reflexivity | eauto].
    + split; [discriminate|]. intros (_ & _ & m & [= <-] & Hm). congruence.
  - simpl. split; [discriminate|]. intros (_ & _ & m & Hm & _). discriminate.
Qed.

Lemma requestList_run {A : Type} (id : Z) (requestType what : string)
    (decode : option jvalue -> outcome (list A)) (tr : list wsEvent) :
  exists n,
    snd (requestList id requestType what decode tr) =
      tr ++ take n [WriteJSON (requestMsg id requestType); ReadMessage] /\
    (1 <= n <= 2)%nat /\
    forall l,
      fst (requestList id requestType what decode tr) = Good l <->
      n = 2%nat /\
      writeJSON peer tr (requestMsg id requestType) = None /\
      exists response,
        frameAt (tr ++ [WriteJSON (requestMsg id requestType)]) = Good response /\
        msg_Success response = true /\ decode (msg_Result response) = Good l.
Proof.
  unfold requestList. rewrite sbind_run. cbn [doWrite fst snd].
  destruct (writeJSON peer tr (requestMsg id requestType)) as [e|].
  { exists 1%nat. simpl. split; [reflexivity|]. split; [lia|]. intros l.
    split; [discriminate | intros (H & _); discriminate]. }
  rewrite sbind_run, readFrame_trace, <- app_assoc. cbn [app]. unfold frameAt.
  exists 2%nat. split.
  { destruct (fst (readFrame _)) as [m|e]; [|reflexivity].
    now destruct (negb (msg_Success m)). }
  split; [lia|]. intros l.
  destruct (fst (readFrame (tr ++ [WriteJSON (requestMsg id requestType)]))) as [m|e].
  - destruct (msg_Success m) eqn:Hs; simpl.
    + split.
      * intros Hd. split; [reflexivity|]. split; [reflexivity|]. exists m. auto.
      * intros (_ & _ & m' & [= <-] & _ & Hd). exact Hd.
    + split; [discriminate|]. intros (_ & _ & m' & [= <-] & Hs' & _). congruence.
  - simpl. split; [discriminate|]. intros (_ & _ & m' & Hm & _). discriminate.
Qed.

Lemma registryViaWebSocket_run {A : Type} (id : Z) (requestType what : string)
    (decode : option jvalue -> outcome (list A)) (tr : list wsEvent) :
  dial peer tr wsURL = None ->
  exists n,
    (1 <= n <= 5)%nat /\
    snd (registryViaWebSocket id requestType what decode tr) =
      tr ++ Dial wsURL :: take n (script id requestType) ++ [Close] /\
    ((4 <= n)%nat -> authenticated tr) /\
    forall l,
      fst (registryViaWebSocket id requestType what decode tr) = Good l <->
      n = 5%nat /\
      (exists m1, frameAt (tr ++ [Dial wsURL]) = Good m1) /\
      writeJSON peer (tr ++ [Dial wsURL; ReadMessage]) authMsg = None /\
      authenticated tr /\
      writeJSON peer (tr ++ [Dial wsURL; ReadMessage; WriteJSON authMsg; ReadMessage])
                (requestMsg id requestType) = None /\
      exists response,
        frameAt (tr ++ [Dial wsURL; ReadMessage; WriteJSON authMsg; ReadMessage;
                        WriteJSON (requestMsg id requestType)]) = Good response /\
        msg_Success response = true /\ decode (msg_Result response) = Good l.
Proof.
  intros Hdial. unfold registryViaWebSocket, withConnection.
  rewrite sbind_run. cbn [doDial fst snd]. rewrite Hdial.
  rewrite !sbind_run. cbn [doClose sret fst snd].
  set (tr1 := tr ++ [Dial wsURL]).
  destruct (authenticateWebSocket_run tr1) as (n1 & Htr1 & Hauth & Hn1 & Hb1).
  rewrite Htr1.
  assert (Hassoc : forall evs, tr1 ++ evs = tr ++ Dial wsURL :: evs)
    by (intros evs; unfold tr1; now rewrite <- app_assoc).
  destruct (fst (authenticateWebSocket tr1)) as [err|] eqn:Ha.
  - exists n1. split; [lia|]. split.
    { cbn [sret fst snd]. rewrite <- app_assoc, Hassoc. do 2 f_equal.
      destruct n1 as [|[|[|[|n1]]]]; try lia; reflexivity. }
    split; [lia|]. intros l. split; [discriminate|].
    intros (Hn & Hm1 & Hw & (m2 & Hm2 & Ht) & _).
    assert (Hnone : @None wsError = None) by reflexivity.
    enough (Some err = None) by discriminate. apply Hauth.
    split; [exact Hm1|]. split; [unfold tr1; now rewrite <- app_assoc|].
    exists m2. split; [|exact Ht]. unfold tr1. now rewrite <- app_assoc.
  - rewrite (Hn1 eq_refl). cbn [take].
    set (tr3 := tr1 ++ [ReadMessage; WriteJSON authMsg; ReadMessage]).
    destruct (requestList_run id requestType what decode tr3) as (n2 & Htr2 & Hb2 & Hres).
    rewrite Htr2.
    assert (Hauthd : authenticated tr).
    { destruct (proj1 Hauth eq_refl) as (_ & _ & m2 & Hm2 & Ht).
      exists m2. split; [|exact Ht]. unfold tr1 in Hm2. now rewrite <- app_assoc in Hm2. }
    exists (3 + n2)%nat. split; [lia|]. split.
    { unfold tr3. rewrite <- !app_assoc, Hassoc.
      destruct n2 as [|[|[|n2]]]; try lia; reflexivity. }
    split; [intros _; exact Hauthd|]. intros l. rewrite Hres.
    destruct (proj1 Hauth eq_refl) as (Hm1 & Hw1 & _).
    unfold tr3, tr1. rewrite <- !app_assoc. cbn [app].
    unfold tr1 in Hm1, Hw1. rewrite <- app_assoc in Hw1. cbn [app] in Hw1.
    split.
    + intros (-> & Hw2 & Hresp). repeat split; auto.
    + intros (Hn & _ & _ & _ & Hw2 & Hresp). split; [lia|]. auto.
Qed.

(** X17.  A socket call that cannot connect does nothing else.  Once
    connected it follows one script: read a frame, send the credential, read
    a frame, send the request, read a frame; it may stop at any read or
    write, and always closes the connection, once, as its last act.  The
    request is sent only after the second frame said "auth_ok". *)
Theorem socket_session_shape {A : Type} (id : Z) (requestType what : string)
    (decode : option jvalue -> outcome (list A)) (tr : list wsEvent) :
  (forall e, dial peer tr wsURL = Some e ->
     registryViaWebSocket id requestType what decode tr = (Bad e, tr ++ [Dial wsURL])) /\
  (dial peer tr wsURL = None ->
   exists n,
     (1 <= n <= 5)%nat /\
     snd (registryViaWebSocket id requestType what decode tr) =
       tr ++ Dial wsURL :: take n (script id requestType) ++ [Close] /\
     ((4 <= n)%nat -> authenticated tr)).
Proof.
  split.
  - intros e Hdial. unfold registryViaWebSocket, withConnection.
    rewrite sbind_run. cbn [doDial fst snd]. now rewrite Hdial.
  - intros Hdial.
    destruct (registryViaWebSocket_run id requestType what decode tr Hdial)
      as (n & Hn & Htr & Hauth & _).
    exists n. auto.
Qed.

(** X18.  A socket call returns a list exactly when the connection was
    made, the first frame decoded (its type is not looked at), the credential
    was sent, the second frame said "auth_ok", the request was sent, and the
    third frame decoded, had its success flag set and a result that decodes
    to that list; the whole script has then run. *)
Theorem socket_success {A : Type} (id : Z) (requestType what : string)
    (decode : option jvalue -> outcome (list A)) (tr : list wsEvent) (l : list A) :
  fst (registryViaWebSocket id requestType what decode tr) = Good l <->
  dial peer tr wsURL = None /\
  snd (registryViaWebSocket id requestType what decode tr) =
    tr ++ Dial wsURL :: script id requestType ++ [Close] /\
  (exists m1, frameAt (tr ++ [Dial wsURL]) = Good m1) /\
  writeJSON peer (tr ++ [Dial wsURL; ReadMessage]) authMsg = None /\
  authenticated tr /\
  writeJSON peer (tr ++ [Dial wsURL; ReadMessage; WriteJSON authMsg; ReadMessage])
            (requestMsg id requestType) = None /\
  exists response,
    frameAt (tr ++ [Dial wsURL; ReadMessage; WriteJSON authMsg; ReadMessage;
                    WriteJSON (requestMsg id requestType)]) = Good response /\
    msg_Success response = true /\ decode (msg_Result response) = Good l.
Proof.
  destruct (dial peer tr wsURL) as [e|] eqn:Hdial.
  - split; [|intros (H & _); discriminate].
    unfold registryViaWebSocket, withConnection.
    rewrite sbind_run. cbn [doDial fst snd]. rewrite Hdial. discriminate.
  - destruct (registryViaWebSocket_run id requestType what decode tr Hdial)
      as (n & Hn & Htr & _ & Hres).
    rewrite Hres, Htr. split.
    + intros (-> & H). split; [reflexivity|]. split; [reflexivity | exact H].
    + intros (_ & Heq & H). split; [|exact H].
      apply app_inv_head in Heq. injection Heq as Heq.
      apply (f_equal (@length wsEvent)) in Heq.
      rewrite !length_app, length_take in Heq. simpl in Heq. lia.
Qed.

(** X19.  [getAreasViaWebSocket], which spells the authentication out, does
    what the two functions that call [authenticateWebSocket] do, with its own
    request and error name. *)
Theorem areas_inline_authentication (decode : option jvalue -> outcome (list HAArea))
    (tr : list wsEvent) :
  getAreasViaWebSocket decode tr =
  registryViaWebSocket 1 "config/area_registry/list" "area" decode tr.
Proof.
  unfold getAreasViaWebSocket, registryViaWebSocket, withConnection, authenticateWebSocket.
  rewrite !sbind_run. destruct (fst (doDial wsURL tr)); [reflexivity|].
  rewrite !sbind_run. f_equal.
  - destruct (fst (readFrame (snd (doDial wsURL tr)))) as [m1|e1]; [|reflexivity].
    rewrite !sbind_run. destruct (fst (doWrite authMsg _)) as [e2|]; [reflexivity|].
    rewrite !sbind_run. destruct (fst (readFrame _)) as [m2|e3]; [|reflexivity].
    now destruct (negb (String.eqb (msg_Type m2) "auth_ok")).
  - f_equal.
    destruct (fst (readFrame (snd (doDial wsURL tr)))) as [m1|e1]; [|reflexivity].
    rewrite !sbind_run. destruct (fst (doWrite authMsg _)) as [e2|]; [reflexivity|].
    rewrite !sbind_run. destruct (fst (readFrame _)) as [m2|e3]; [|reflexivity].
    now destruct (negb (String.eqb (msg_Type m2) "auth_ok")).
Qed.

End Protocol.

Lemma prefix_append (old rest : string) : String.prefix old (old +:+ rest) = true.
Proof.
  induction old as [|c old IH]; simpl; [now destruct rest|].
  destruct (ascii_dec c c); [exact IH | congruence].
Qed.

Lemma dropBytes_append (old rest : string) :
  dropBytes (String.length old) (old +:+ rest) = rest.
Proof. induction old as [|c old IH]; simpl; [reflexivity | exact IH]. Qed.

Lemma ReplaceFirst_prefix (old rest new : string) :
  ReplaceFirst (old +:+ rest) old new = new +:+ rest.
Proof.
  pose proof (prefix_append old rest) as Hp.
  pose proof (dropBytes_append old rest) as Hd.
  destruct (old +:+ rest) eqn:Heq; cbn [ReplaceFirst]; rewrite Hp; now rewrite Hd.
Qed.

Lemma ReplaceFirst_absent (s old new : string) :
  strings.Contains s old = false -> ReplaceFirst s old new = s.
Proof.
  induction s as [|c s IH]; simpl; unfold strings.HasPrefix.
  - intros H. rewrite orb_false_r in H. now rewrite H.
  - intros H. apply orb_false_iff in H. destruct H as [Hp Hc].
    rewrite Hp. f_equal. now apply IH.
Qed.

Lemma prefix_split (old s : string) :
  String.prefix old s = true -> exists b, s = old +:+ b.
Proof.
  revert s. induction old as [|c old IH]; intros s; [exists s; reflexivity|].
  destruct s as [|d s]; simpl; [discriminate|].
  destruct (ascii_dec c d) as [->|Hne]; [|discriminate].
  intros H. destruct (IH s H) as [b ->]. now exists b.
Qed.

Lemma append_assoc (a b c : string) : (a +:+ b) +:+ c = a +:+ b +:+ c.
Proof.
  induction a as [|x a IH]; [reflexivity|].
  change (String x ((a +:+ b) +:+ c) = String x (a +:+ b +:+ c)). now rewrite IH.
Qed.

(** The occurrence of [old] shown in [pre ++ old ++ post] is the first one:
    however else the string is cut around an [old], the cut is not further
    to the left. *)
Definition firstAt (pre old post : string) : Prop :=
  forall a b, pre +:+ old +:+ post = a +:+ old +:+ b ->
              (String.length pre <= String.length a)%nat.

Lemma ReplaceFirst_first (pre old post new : string) :
  firstAt pre old post ->
  ReplaceFirst (pre +:+ old +:+ post) old new = pre +:+ new +:+ post.
Proof.
  induction pre as [|c pre IH]; intros Hfirst.
  - exact (ReplaceFirst_prefix old post new).
  - change (ReplaceFirst (String c (pre +:+ old +:+ post)) old new =
            String c (pre +:+ new +:+ post)).
    cbn [ReplaceFirst].
    destruct (String.prefix old (String c (pre +:+ old +:+ post))) eqn:Hp.
    + apply prefix_split in Hp. destruct Hp as [b Hb].
      specialize (Hfirst "" b Hb). simpl in Hfirst. lia.
    + f_equal. apply IH. intros a b Heq.
      assert (Heq' : String c pre +:+ old +:+ post = String c a +:+ old +:+ b).
      { change (String c (pre +:+ old +:+ post) = String c (a +:+ old +:+ b)).
        now rewrite Heq. }
      specialize (Hfirst (String c a) b Heq'). simpl in Hfirst. lia.
Qed.

Lemma Contains_first (s old : string) :
  strings.Contains s old = true ->
  exists pre post, s = pre +:+ old +:+ post /\ firstAt pre old post.
Proof.
  induction s as [|c s IH]; cbn [strings.Contains]; unfold strings.HasPrefix.
  - rewrite orb_false_r. intros Hp. apply prefix_split in Hp. destruct Hp as [b Hb].
    exists "", b. split; [exact Hb|]. intros a b' _. simpl. lia.
  - destruct (String.prefix old (String c s)) eqn:Hp.
    + intros _. apply prefix_split in Hp. destruct Hp as [b Hb].
      exists "", b. split; [exact Hb|]. intros a b' _. simpl. lia.
    + simpl. intros Hc. destruct (IH Hc) as (pre & post & -> & Hfirst).
      exists (String c pre), post. split; [reflexivity|].
      intros a b Heq. destruct a as [|d a].
      * change (String c (pre +:+ old +:+ post) = old +:+ b) in Heq.
        rewrite Heq, prefix_append in Hp. discriminate.
      * change (String c (pre +:+ old +:+ post) = String d (a +:+ old +:+ b)) in Heq.
        injection Heq as _ Heq. specialize (Hfirst a b Heq). simpl. lia.
Qed.

(** X20.  The socket address is the hub address with its first "http" turned
    into "ws", wherever in the address that is, and "/api/websocket" put
    after it; only the first one is touched.  So "http://host" gives
    "ws://host/api/websocket" and "https://host" gives
    "wss://host/api/websocket".  An address without "http" in it is dialled
    as it stands, with the path added; every other address has a first
    "http". *)
Theorem socket_address (token : string) (whitelist blacklist : list string) :
  (forall pre post,
     firstAt pre "http" post ->
     wsURL (mkConfig token (pre +:+ "http" +:+ post) whitelist blacklist) =
       pre +:+ "ws" +:+ post +:+ "/api/websocket") /\
  (forall rest,
     wsURL (mkConfig token ("http" +:+ rest) whitelist blacklist) =
       "ws" +:+ rest +:+ "/api/websocket") /\
  (forall url,
     strings.Contains url "http" = false ->
     wsURL (mkConfig token url whitelist blacklist) = url +:+ "/api/websocket") /\
  (forall url,
     strings.Contains url "http" = true ->
     exists pre post, url = pre +:+ "http" +:+ post /\ firstAt pre "http" post) /\
  wsURL (mkConfig token "ftp://httpd.local/http" whitelist blacklist) =
    "ftp://wsd.local/http/api/websocket".
Proof.
  unfold wsURL. simpl HAURL. split; [|split; [|split; [|split]]].
  - intros pre post Hfirst. rewrite ReplaceFirst_first by exact Hfirst.
    now rewrite !append_assoc.
  - intros rest. rewrite ReplaceFirst_prefix. reflexivity.
  - intros url H. now rewrite ReplaceFirst_absent.
  - intros url. apply Contains_first.
  - reflexivity.
Qed.

(** A peer that accepts every dial and write and hands out [frames] one read
    after the other. *)
Definition framesRead (tr : list wsEvent) : nat :=
  length (List.filter (fun ev => match ev with ReadMessage => true | _ => false end) tr).

Definition scriptedPeer (frames : list string) : Peer :=
  mkPeer (fun _ _ => None)
         (fun tr => match frames !! framesRead tr with
                    | Some frame => Good frame
                    | None => Bad (External "websocket: close 1006 (abnormal closure)")
                    end)
         (fun _ _ => None).

(** A decoder that knows three frames by their text. *)
Definition sampleUnmarshal (message : string) : outcome WSMessage :=
  if String.eqb message "auth_required" then Good (mkMessage 0 "auth_required" "" false None None)
  else if String.eqb message "auth_ok" then Good (mkMessage 0 "auth_ok" "" false None None)
  else if String.eqb message "auth_invalid" then Good (mkMessage 0 "auth_invalid" "" false None None)
  else if String.eqb message "result" then Good (mkMessage 1 "result" "" true (Some (JArray [])) None)
  else Bad (External "invalid character").

Definition sampleDecode (r : option jvalue) : outcome (list HAArea) :=
  match r with
  | Some (JArray []) => Good []
  | _ => Bad (External "json: cannot unmarshal")
  end.

Definition secureConfig : Config := mkConfig "secret" "https://ha.local:8123" [] [].

Example accepted_session :
  getAreasViaWebSocket (scriptedPeer ["auth_required"; "auth_ok"; "result"])
                       sampleUnmarshal secureConfig sampleDecode [] =
  (Good [],
   [ Dial "wss://ha.local:8123/api/websocket";
     ReadMessage;
     WriteJSON (mkMessage 0 "auth" "secret" false None None);
     ReadMessage;
     WriteJSON (mkMessage 1 "config/area_registry/list" "" false None None);
     ReadMessage;
     Close ]).
Proof. reflexivity. Qed.

Example rejected_session :
  getDevicesViaWebSocket (scriptedPeer ["auth_required"; "auth_invalid"; "result"])
                         sampleUnmarshal secureConfig (fun _ => Good []) [] =
  (Bad AuthenticationFailed,
   [ Dial "wss://ha.local:8123/api/websocket";
     ReadMessage;
     WriteJSON (mkMessage 0 "auth" "secret" false None None);
     ReadMessage;
     Close ]).
Proof. reflexivity. Qed.

End Socket.

(** * Loading the configuration *)

Module Loading.

(** [strings.TrimSuffix(s, suffix)] for a one-byte suffix. *)
Fixpoint TrimSuffix (s : string) (suffix : ascii) : string :=
  match s with
  | EmptyString => EmptyString
  | String c r =>
      match r with
      | EmptyString => if Ascii.eqb c suffix then EmptyString else s
      | String _ _ => String c (TrimSuffix r suffix)
      end
  end.

(** The two errors of [LoadConfig]. *)
Inductive loadError : Type :=
  | ReadFailed (configFile msg : string)
  | ParseFailed (configFile msg : string).

Definition loadErrorText (e : loadError) : string :=
  match e with
  | ReadFailed configFile msg =>
      "failed to read config file " +:+ configFile +:+ ": " +:+ msg
  | ParseFailed configFile msg =>
      "failed to parse config file " +:+ configFile +:+ ": " +:+ msg
  end.

(** The process environment and the file system, as [LoadConfig] sees
    them. *)
Record System := mkSystem {
  (** [os.Getenv]: the empty string for a variable that is not set *)
  Getenv : string -> string;
  (** [filepath.Join] of two elements, and [filepath.IsAbs] *)
  Join : string -> string -> string;
  IsAbs : string -> bool;
  (** [os.ReadFile]: the content or the error's text *)
  ReadFile : string -> string + string;
  (** [json.Unmarshal(data, &config)]: the configuration as the decoder left
      it and the error's text, if any *)
  Unmarshal : string -> Config -> Config * option string
}.

(** The path of the configuration file. *)
Definition configPath (sys : System) (executableDir : string) : string :=
  let configFile := Getenv sys "CONFIG_FILE" in
  if String.eqb configFile "" then Join sys executableDir "config.json"
  else if negb (IsAbs sys configFile) then Join sys executableDir configFile
  else configFile.

(** [LoadConfig] on [h.config] and [h.executableDir]: the configuration it
    leaves and the error it returns. *)
Definition LoadConfig (sys : System) (executableDir : string) (config : Config)
  : Config * option loadError :=
  let token := Getenv sys "HA_TOKEN" in
  let url := Getenv sys "HA_URL" in
  if nonempty token && nonempty url then
    let config1 := mkConfig token (TrimSuffix url "/")
                            (EntityFilter config) (EntityBlacklist config) in
    let filterStr := Getenv sys "HA_ENTITY_FILTER" in
    let config2 :=
      if nonempty filterStr
      then mkConfig (HAToken config1) (HAURL config1)
                    (strings.Split filterStr ",") (EntityBlacklist config1)
      else config1 in
    let blacklistStr := Getenv sys "HA_ENTITY_BLACKLIST" in
    let config3 :=
      if nonempty blacklistStr
      then mkConfig (HAToken config2) (HAURL config2)
                    (EntityFilter config2) (strings.Split blacklistStr ",")
      else config2 in
    (config3, None)
  else
    let configFile := configPath sys executableDir in
    match ReadFile sys configFile with
    | inr err => (config, Some (ReadFailed configFile err))
    | inl data =>
        match Unmarshal sys data config with
        | (config1, Some err) => (config1, Some (ParseFailed configFile err))
        | (config1, None) =>
            (mkConfig (HAToken config1) (TrimSuffix (HAURL config1) "/")
                      (EntityFilter config1) (EntityBlacklist config1),
             None)
        end
    end.

Lemma TrimSuffix_slash (s : string) : TrimSuffix (s +:+ "/") "/" = s.
Proof.
  induction s as [|c s IH]; [reflexivity|].
  destruct s as [|d s']; [reflexivity|].
  change (String c (String d s') +:+ "/") with (String c (String d s' +:+ "/")).
  change (String d s' +:+ "/") with (String d (s' +:+ "/")) in *.
  cbn [TrimSuffix] in *. now rewrite IH.
Qed.

(** [strings.Join(parts, sep)] for a one-byte separator. *)
Fixpoint JoinWith (parts : list string) (sep : ascii) : string :=
  match parts with
  | [] => EmptyString
  | [p] => p
  | p :: rest => p +:+ String sep (JoinWith rest sep)
  end.

Lemma Split_nonempty (s : string) (sep : ascii) : strings.Split s sep <> [].
Proof.
  destruct s as [|c s]; simpl; [discriminate|].
  destruct (Ascii.eqb c sep); [discriminate|].
  destruct (strings.Split s sep); discriminate.
Qed.

Lemma JoinWith_cons (p q : string) (qs : list string) (sep : ascii) :
  JoinWith (p :: q :: qs) sep = p +:+ String sep (JoinWith (q :: qs) sep).
Proof. reflexivity. Qed.

Lemma Join_Split (s : string) (sep : ascii) : JoinWith (strings.Split s sep) sep = s.
Proof.
  induction s as [|c s IH]; [reflexivity|].
  pose proof (Split_nonempty s sep) as Hn.
  cbn [strings.Split]. destruct (strings.Split s sep) as [|p ps]; [congruence|].
  destruct (Ascii.eqb_spec c sep) as [->|Hne].
  - rewrite JoinWith_cons, IH. reflexivity.
  - destruct ps as [|q qs].
    + simpl in *. now rewrite IH.
    + rewrite JoinWith_cons in *. rewrite <- IH. reflexivity.
Qed.

Lemma Contains_byte (c sep : ascii) (p : string) :
  strings.Contains (String c p) (String sep EmptyString) =
  Ascii.eqb sep c || strings.Contains p (String sep EmptyString).
Proof. cbn [strings.Contains]. unfold strings.HasPrefix. now rewrite prefix_byte. Qed.

Lemma Split_part (p t : string) (sep : ascii) :
  strings.Contains p (String sep EmptyString) = false ->
  strings.Split (p +:+ String sep t) sep = p :: strings.Split t sep.
Proof.
  induction p as [|c p IH].
  - intros _. change ("" +:+ String sep t) with (String sep t).
    cbn [strings.Split]. now rewrite Ascii.eqb_refl.
  - rewrite Contains_byte. intros H. apply orb_false_iff in H. destruct H as [Hc Hp].
    change (String c p +:+ String sep t) with (String c (p +:+ String sep t)).
    cbn [strings.Split]. rewrite (IH Hp), Ascii.eqb_sym, Hc. reflexivity.
Qed.

Lemma Split_whole (p : string) (sep : ascii) :
  strings.Contains p (String sep EmptyString) = false -> strings.Split p sep = [p].
Proof.
  induction p as [|c p IH]; [reflexivity|].
  rewrite Contains_byte. intros H. apply orb_false_iff in H. destruct H as [Hc Hp].
  cbn [strings.Split]. rewrite (IH Hp), Ascii.eqb_sym, Hc. reflexivity.
Qed.

(** [parts] is [s] cut at every [sep]: there is a part, no part has a [sep]
    in it, and the parts joined by [sep] are [s]. *)
Definition cutAt (sep : ascii) (s : string) (parts : list string) : Prop :=
  parts <> [] /\
  Forall (fun p => strings.Contains p (String sep EmptyString) = false) parts /\
  JoinWith parts sep = s.

Lemma cutAt_Split (sep : ascii) (s : string) (parts : list string) :
  cutAt sep s parts -> strings.Split s sep = parts.
Proof.
  intros (Hne & Hall & <-). induction parts as [|p ps IH]; [congruence|].
  apply Forall_cons in Hall. destruct Hall as [Hp Hps].
  destruct ps as [|q qs].
  - simpl. now apply Split_whole.
  - rewrite JoinWith_cons, Split_part by exact Hp. f_equal. now apply IH.
Qed.

Lemma Split_cutAt (sep : ascii) (s : string) : cutAt sep s (strings.Split s sep).
Proof.
  split; [apply Split_nonempty|]. split; [|apply Join_Split].
  induction s as [|c s IH]; [repeat constructor|].
  pose proof (Split_nonempty s sep) as Hn.
  cbn [strings.Split]. destruct (Ascii.eqb_spec c sep) as [->|Hne].
  - constructor; [reflexivity | exact IH].
  - destruct (strings.Split s sep) as [|p ps]; [congruence|].
    apply Forall_cons in IH. destruct IH as [Hp Hps].
    constructor; [|exact Hps]. rewrite Contains_byte, Hp, orb_false_r.
    apply Ascii.eqb_neq. congruence.
Qed.

(** Two systems that differ in their files only. *)
Definition sameEnvironment (sys1 sys2 : System) : Prop :=
  forall name, Getenv sys1 name = Getenv sys2 name.

(** The file the configuration is to be read from: "config.json" in the
    directory of the executable unless CONFIG_FILE names another, which is
    taken from that directory when it is relative and as it stands when it
    is absolute. *)
Definition namedFile (sys : System) (executableDir path : string) : Prop :=
  (Getenv sys "CONFIG_FILE" = "" /\ path = Join sys executableDir "config.json") \/
  (Getenv sys "CONFIG_FILE" <> "" /\ IsAbs sys (Getenv sys "CONFIG_FILE") = false /\
   path = Join sys executableDir (Getenv sys "CONFIG_FILE")) \/
  (Getenv sys "CONFIG_FILE" <> "" /\ IsAbs sys (Getenv sys "CONFIG_FILE") = true /\
   path = Getenv sys "CONFIG_FILE").

(** Two systems that differ at most in the variables of the filter and the
    blacklist and in the files other than [path]. *)
Definition sameButFilters (path : string) (sys1 sys2 : System) : Prop :=
  Getenv sys1 "HA_TOKEN" = Getenv sys2 "HA_TOKEN" /\
  Getenv sys1 "HA_URL" = Getenv sys2 "HA_URL" /\
  Getenv sys1 "CONFIG_FILE" = Getenv sys2 "CONFIG_FILE" /\
  Join sys1 = Join sys2 /\ IsAbs sys1 = IsAbs sys2 /\
  ReadFile sys1 path = ReadFile sys2 path /\ Unmarshal sys1 = Unmarshal sys2.

Lemma configPath_named (sys : System) (executableDir path : string) :
  namedFile sys executableDir path <-> path = configPath sys executableDir.
Proof.
  unfold namedFile, configPath.
  destruct (String.eqb_spec (Getenv sys "CONFIG_FILE") "") as [He|He].
  - rewrite He. split; [intros [[_ ->]|[(H & _)|(H & _)]]; congruence | auto].
  - destruct (IsAbs sys (Getenv sys "CONFIG_FILE")); simpl; split.
    + intros [[H _]|[(_ & H & _)|(_ & _ & ->)]]; congruence.
    + intros ->. right. right. auto.
    + intros [[H _]|[(_ & _ & ->)|(_ & H & _)]]; congruence.
    + intros ->. right. left. auto.
Qed.

(** X21.  With both the token and the address set in the environment,
    [LoadConfig] succeeds without looking at any file: it stores the token
    and the address less one trailing slash; a filter or blacklist variable
    that is set is cut at every comma, nothing trimmed or dropped: the
    patterns are the one list of comma-free parts that, joined with commas,
    give the variable back; a variable that is not set leaves the list as it
    was. *)
Theorem LoadConfig_environment (sys : System) (executableDir : string) (config : Config) :
  Getenv sys "HA_TOKEN" <> "" -> Getenv sys "HA_URL" <> "" ->
  let loaded := fst (LoadConfig sys executableDir config) in
  snd (LoadConfig sys executableDir config) = None /\
  HAToken loaded = Getenv sys "HA_TOKEN" /\
  HAURL loaded = TrimSuffix (Getenv sys "HA_URL") "/" /\
  (forall base, Getenv sys "HA_URL" = base +:+ "/" -> HAURL loaded = base) /\
  (if String.eqb (Getenv sys "HA_ENTITY_FILTER") ""
   then EntityFilter loaded = EntityFilter config
   else cutAt "," (Getenv sys "HA_ENTITY_FILTER") (EntityFilter loaded) /\
        forall parts, cutAt "," (Getenv sys "HA_ENTITY_FILTER") parts ->
                      EntityFilter loaded = parts) /\
  (if String.eqb (Getenv sys "HA_ENTITY_BLACKLIST") ""
   then EntityBlacklist loaded = EntityBlacklist config
   else cutAt "," (Getenv sys "HA_ENTITY_BLACKLIST") (EntityBlacklist loaded) /\
        forall parts, cutAt "," (Getenv sys "HA_ENTITY_BLACKLIST") parts ->
                      EntityBlacklist loaded = parts) /\
  (forall sys', sameEnvironment sys sys' ->
     LoadConfig sys' executableDir config = LoadConfig sys executableDir config).
Proof.
  intros Ht Hu loaded.
  assert (Hmode : forall s, sameEnvironment sys s ->
            nonempty (Getenv s "HA_TOKEN") && nonempty (Getenv s "HA_URL") = true).
  { intros s Hs. rewrite <- !Hs. apply andb_true_iff.
    split; now apply nonempty_true. }
  assert (Hself : sameEnvironment sys sys) by (intros name; reflexivity).
  assert (Hcut : forall s, cutAt "," s (strings.Split s ",") /\
                           forall parts, cutAt "," s parts -> strings.Split s "," = parts).
  { intros s. split; [apply Split_cutAt | apply cutAt_Split]. }
  unfold loaded, LoadConfig. rewrite (Hmode sys Hself). cbv zeta.
  unfold nonempty.
  destruct (String.eqb (Getenv sys "HA_ENTITY_FILTER") "") eqn:Hf,
           (String.eqb (Getenv sys "HA_ENTITY_BLACKLIST") "") eqn:Hb; simpl.
  all: split; [reflexivity|]; split; [reflexivity|]; split; [reflexivity|].
  all: split; [intros base Hbase; rewrite Hbase; apply TrimSuffix_slash|].
  all: split; [try reflexivity; apply Hcut|].
  all: split; [try reflexivity; apply Hcut|].
  all: intros sys' Hs; pose proof (Hmode sys' Hs) as Hm; unfold nonempty in Hm;
       rewrite Hm; rewrite <- !Hs; rewrite Hf, Hb; reflexivity.
Qed.

(** X22.  When the token or the address is missing from the environment,
    [LoadConfig] reads one file and nothing of the filter or blacklist
    variables, and whatever token or address the environment has is
    dropped.  The file is "config.json" in the directory of the executable,
    or the one CONFIG_FILE names: from that directory when the name is
    relative, as it stands when it is absolute.  No other file matters.  A
    file that cannot be read leaves the configuration as it was; a file that
    is read and parsed gives the configuration with one trailing slash less
    on its address. *)
Theorem LoadConfig_file (sys : System) (executableDir : string) (config : Config)
    (path : string) :
  Getenv sys "HA_TOKEN" = "" \/ Getenv sys "HA_URL" = "" ->
  namedFile sys executableDir path ->
  (forall msg, ReadFile sys path = inr msg ->
     LoadConfig sys executableDir config = (config, Some (ReadFailed path msg))) /\
  (forall data parsed,
     ReadFile sys path = inl data ->
     Unmarshal sys data config = (parsed, None) ->
     LoadConfig sys executableDir config =
     (mkConfig (HAToken parsed) (TrimSuffix (HAURL parsed) "/")
               (EntityFilter parsed) (EntityBlacklist parsed), None)) /\
  (forall data parsed msg,
     ReadFile sys path = inl data ->
     Unmarshal sys data config = (parsed, Some msg) ->
     LoadConfig sys executableDir config = (parsed, Some (ParseFailed path msg))) /\
  (forall sys', sameButFilters path sys sys' ->
     LoadConfig sys' executableDir config = LoadConfig sys executableDir config) /\
  (forall path', namedFile sys executableDir path' -> path' = path).
Proof.
  intros Hmissing Hnamed. apply configPath_named in Hnamed.
  assert (Hmode : nonempty (Getenv sys "HA_TOKEN") && nonempty (Getenv sys "HA_URL") = false).
  { apply andb_false_iff. destruct Hmissing as [H|H]; [left|right];
      now apply nonempty_false. }
  unfold LoadConfig. rewrite Hmode. cbv zeta. rewrite <- Hnamed.
  split; [intros msg Hr; now rewrite Hr|].
  split; [intros data parsed Hr Hp; now rewrite Hr, Hp|].
  split; [intros data parsed msg Hr Hp; now rewrite Hr, Hp|].
  split.
  - intros sys' (Ht & Hu & Hc & Hj & Ha & Hr & Hp).
    rewrite <- Ht, <- Hu, Hmode.
    assert (Hpath : configPath sys' executableDir = path).
    { rewrite Hnamed. unfold configPath. now rewrite <- Hc, <- Hj, <- Ha. }
    rewrite Hpath, <- Hr, <- Hp. reflexivity.
  - intros path' Hnamed'. apply configPath_named in Hnamed'. congruence.
Qed.

(** An environment with everything in it and no file. *)
Definition envSystem : System :=
  mkSystem
    (fun name =>
       if String.eqb name "HA_TOKEN" then "secret"
       else if String.eqb name "HA_URL" then "http://192.168.1.100:8123/"
       else if String.eqb name "HA_ENTITY_FILTER" then "light.kitchen, switch.fan"
       else "")
    (fun dir file => dir +:+ "/" +:+ file)
    (fun path => strings.HasPrefix path "/")
    (fun _ => inr "open: no such file or directory")
    (fun _ config => (config, None)).

(** An environment with the token only and a file named by a relative
    path. *)
Definition fileSystem : System :=
  mkSystem
    (fun name =>
       if String.eqb name "HA_TOKEN" then "ignored"
       else if String.eqb name "CONFIG_FILE" then "ha.json"
       else if String.eqb name "HA_ENTITY_FILTER" then "light.kitchen"
       else "")
    (fun dir file => dir +:+ "/" +:+ file)
    (fun path => strings.HasPrefix path "/")
    (fun path => if String.eqb path "/opt/ha/ha.json" then inl "{}"
                 else inr "open: no such file or directory")
    (fun _ _ => (mkConfig "fromfile" "https://ha.local/" [] ["switch.fan"], None)).

Example env_load :
  LoadConfig envSystem "/opt/ha" (mkConfig "" "" [] []) =
  (mkConfig "secret" "http://192.168.1.100:8123" ["light.kitchen"; " switch.fan"] [], None).
Proof. reflexivity. Qed.

Example file_load :
  LoadConfig fileSystem "/opt/ha" (mkConfig "" "" [] []) =
  (mkConfig "fromfile" "https://ha.local" [] ["switch.fan"], None).
Proof. reflexivity. Qed.

(** The same with neither CONFIG_FILE nor a file. *)
Definition bareSystem : System :=
  mkSystem (fun _ => "")
    (fun dir file => dir +:+ "/" +:+ file)
    (fun path => strings.HasPrefix path "/")
    (fun _ => inr "open: no such file or directory")
    (fun _ config => (config, None)).

Example default_file :
  LoadConfig bareSystem "/opt/ha" (mkConfig "" "" [] []) =
  (mkConfig "" "" [] [],
   Some (ReadFailed "/opt/ha/config.json" "open: no such file or directory")).
Proof. reflexivity. Qed.

(** X21 at [envSystem]: the filter variable "light.kitchen, switch.fan" gives
    two patterns, the second with its leading space. *)
Lemma LoadConfig_environment_witness :
  Getenv envSystem "HA_TOKEN" <> "" /\ Getenv envSystem "HA_URL" <> "" /\
  snd (LoadConfig envSystem "/opt/ha" (mkConfig "" "" [] [])) = None /\
  HAURL (fst (LoadConfig envSystem "/opt/ha" (mkConfig "" "" [] []))) =
    "http://192.168.1.100:8123" /\
  EntityFilter (fst (LoadConfig envSystem "/opt/ha" (mkConfig "" "" [] []))) =
    ["light.kitchen"; " switch.fan"].
Proof.
  assert (Ht : Getenv envSystem "HA_TOKEN" <> "") by discriminate.
  assert (Hu : Getenv envSystem "HA_URL" <> "") by discriminate.
  split; [exact Ht|]. split; [exact Hu|].
  pose proof (LoadConfig_environment envSystem "/opt/ha" (mkConfig "" "" [] []) Ht Hu) as H.
  cbv zeta in H. destruct H as (Hnone & _ & _ & Hbase & Hfilter & _).
  split; [exact Hnone|]. split; [exact (Hbase "http://192.168.1.100:8123" eq_refl)|].
  apply (proj2 Hfilter). split; [discriminate|]. split; [|reflexivity].
  repeat constructor.
Defined.

(** X22 at [fileSystem]: the relative name "ha.json" is looked up in the
    directory of the executable. *)
Lemma LoadConfig_file_witness :
  (Getenv fileSystem "HA_TOKEN" = "" \/ Getenv fileSystem "HA_URL" = "") /\
  namedFile fileSystem "/opt/ha" "/opt/ha/ha.json" /\
  LoadConfig fileSystem "/opt/ha" (mkConfig "" "" [] []) =
  (mkConfig "fromfile" "https://ha.local" [] ["switch.fan"], None).
Proof.
  assert (Hm : Getenv fileSystem "HA_TOKEN" = "" \/ Getenv fileSystem "HA_URL" = "")
    by (right; reflexivity).
  assert (Hn : namedFile fileSystem "/opt/ha" "/opt/ha/ha.json").
  { right. left. split; [discriminate|]. split; reflexivity. }
  split; [exact Hm|]. split; [exact Hn|].
  exact (proj1 (proj2 (LoadConfig_file fileSystem "/opt/ha" (mkConfig "" "" [] [])
                         "/opt/ha/ha.json" Hm Hn))
               "{}" (mkConfig "fromfile" "https://ha.local/" [] ["switch.fan"])
               eq_refl eq_refl).
Defined.

End Loading.

Section AtStates.

(** What follows is run with [foldASCII] for the case tables. *)
#[local] Existing Instance foldASCII.

(** A stand-in for [http.NewRequest] on URLs in which no percent sign starts
    an escape: it refuses those with a percent sign in them and builds the
    others. *)
Definition noEscapes (method url : string) : option error :=
  if strings.Contains url "%" then Some (ErrHub "invalid URL escape") else None.

Example heuristic_read :
  fst (getAllStates literalMatch (mkConfig "" "" [] ["s1"]) (restHub 404) startWorld) =
  Ok [ withArea (namedState "light.lamp1" "Living Room Lamp 1" None)
                (mkArea "living_room" "Living Room" "" []) ].
Proof. vm_compute. reflexivity. Qed.

Example unknown_entity :
  getEntityState sampleConfig (restHub 404) (fun _ => Err badJSON) noEscapes
                 "light.nowhere" startWorld =
  (NotRead (EntityNotFound "light.nowhere"),
   tick (restHub 404) (httpGet "/api/states/light.nowhere") startWorld).
Proof. reflexivity. Qed.

Example unbuildable_request :
  getEntityState sampleConfig (restHub 200) (fun _ => Err badJSON) noEscapes
                 "light.%zz" startWorld =
  (NotRead (ReadFailed (ErrHub "invalid URL escape")), startWorld).
Proof. reflexivity. Qed.

End AtStates.

(** * How much a refresh asks of the hub *)

Section Requests.

Context {unicode : strings.Unicode}.

Variable hub : Hub.

Lemma extractAreasFromStates_one (w : World) :
  snd (extractAreasFromStates hub w) = ticks hub [httpGet "/api/states"] w.
Proof.
  unfold extractAreasFromStates. rewrite bind_run. simpl.
  destruct (http_do hub _ _ _ _) as [r|e']; [|reflexivity].
  destruct (negb (StatusCode r =? 200)); [reflexivity|].
  now destruct (as_states (Body r)).
Qed.

Lemma getAreasREST_requests (endpoints : list string) (w : World) :
  exists evs,
    snd (getAreasREST hub endpoints w) = ticks hub evs w /\
    Forall isNetwork evs /\ (length evs <= length endpoints + 1)%nat.
Proof.
  revert w. induction endpoints as [|endpoint rest IH]; intros w.
  - exists [httpGet "/api/states"]. split; [apply extractAreasFromStates_one|].
    split; [repeat constructor | simpl; lia].
  - cbn [getAreasREST]. rewrite bind_run. cbn [makeHARequest fst snd].
    destruct (IH (tick hub (EvHTTP "GET" endpoint None) w)) as (evs & Hw & Hn & Hl).
    assert (Hmore : exists evs0,
              snd (getAreasREST hub rest (tick hub (EvHTTP "GET" endpoint None) w)) =
                ticks hub evs0 w /\
              Forall isNetwork evs0 /\
              (length evs0 <= length (endpoint :: rest) + 1)%nat).
    { exists (EvHTTP "GET" endpoint None :: evs).
      split; [exact Hw|]. split; [constructor; [exact I | exact Hn]|].
      simpl. lia. }
    destruct (http_do hub (w_trace w) "GET" endpoint None) as [resp|e]; [|exact Hmore].
    destruct (StatusCode resp =? 200); [|exact Hmore].
    destruct (as_areas (Body resp)); [|exact Hmore].
    exists [EvHTTP "GET" endpoint None]. split; [reflexivity|].
    split; [repeat constructor | simpl; lia].
Qed.

Lemma getAreas_requests (w : World) :
  exists evs,
    snd (getAreas hub w) = ticks hub (wsAreas :: evs) w /\
    Forall isNetwork evs /\ (length evs <= 3)%nat.
Proof.
  unfold getAreas. rewrite bind_run. cbn [getAreasViaWebSocket fst snd].
  destruct (getAreasREST_requests areaEndpoints (tick hub wsAreas w)) as (evs & Hw & Hn & Hl).
  assert (Hrest : exists evs',
            snd (getAreasREST hub areaEndpoints (tick hub wsAreas w)) =
              ticks hub (wsAreas :: evs') w /\
            Forall isNetwork evs' /\ (length evs' <= 3)%nat)
    by (exists evs; simpl in Hl; auto).
  unfold wsAreas in Hrest.
  destruct (ws_areas hub (w_trace w)) as [areas|e]; [|exact Hrest].
  destruct (0 <? Z.of_nat (length areas)); [|exact Hrest].
  exists []. split; [reflexivity|]. split; [constructor | simpl; lia].
Qed.

Lemma getEntityRegistry_requests (w : World) :
  exists evs,
    snd (getEntityRegistry hub w) = ticks hub (wsEntities :: evs) w /\
    Forall isNetwork evs /\ (length evs <= 2)%nat.
Proof.
  unfold getEntityRegistry. rewrite bind_run. cbn [getEntityRegistryViaWebSocket fst snd].
  destruct (ws_entities hub (w_trace w)) as [entities|e].
  { exists []. split; [reflexivity|]. split; [constructor | simpl; lia]. }
  rewrite bind_run. cbn [makeHARequest fst snd].
  destruct (http_do hub _ "GET" "/api/config/entity_registry" None) as [resp|e'].
  2:{ exists [httpGet "/api/config/entity_registry"]. split; [reflexivity|].
      split; [repeat constructor | simpl; lia]. }
  destruct (negb (StatusCode resp =? 200)).
  - exists [httpGet "/api/config/entity_registry"; httpGet "/api/states"].
    split; [apply extractEntityAreaFromStates_once|].
    split; [repeat constructor | simpl; lia].
  - exists [httpGet "/api/config/entity_registry"]. split.
    + now destruct (as_entities (Body resp)).
    + split; [repeat constructor | simpl; lia].
Qed.

Lemma getDevices_bound (w : World) :
  exists evs,
    snd (getDevices hub w) = ticks hub (wsDevices :: evs) w /\
    Forall isNetwork evs /\ (length evs <= 1)%nat.
Proof.
  destruct (getDevices_requests hub w) as [H|H]; rewrite H.
  - exists []. split; [reflexivity|]. split; [constructor | simpl; lia].
  - exists [httpGet "/api/config/device_registry"]. split; [reflexivity|].
    split; [repeat constructor | simpl; lia].
Qed.

(** X24.  A call of [updateAreaCache] makes at most nine requests, all of
    them while it holds the lock: at most four for the areas, two for the
    devices and three for the entity registrations; a call that refreshes
    makes at least the three socket requests. *)
Theorem refresh_request_bound (w : World) :
  exists evs,
    w_trace (snd (updateAreaCache hub w)) = w_trace w ++ [EvLock] ++ evs ++ [EvUnlock] /\
    Forall isNetwork evs /\
    (length evs <= 9)%nat /\
    (stale hub w -> (3 <= length evs)%nat).
Proof.
  destruct (Z.lt_ge_cases (Since (w_now (tick hub EvLock w))
                                 (cache_lastUpdate (areaCache w))) (5 * Minute))
    as [Hf|Hs].
  - exists []. rewrite (updateAreaCache_fresh hub w Hf). simpl.
    split; [now rewrite <- app_assoc|]. split; [constructor|]. split; [lia|].
    intros Hst. unfold stale in Hst. lia.
  - rewrite (updateAreaCache_stale hub w Hs). cbv zeta.
    set (w1 := tick hub EvLock w).
    destruct (getAreas_requests w1) as (evsA & HA & HnA & HlA).
    set (wa := snd (getAreas hub w1)) in *.
    destruct (getDevices_bound wa) as (evsD & HD & HnD & HlD).
    set (wd := snd (getDevices hub wa)) in *.
    destruct (getEntityRegistry_requests wd) as (evsE & HE & HnE & HlE).
    exists (wsAreas :: evsA ++ wsDevices :: evsD ++ wsEntities :: evsE).
    split.
    { cbn [snd tick w_trace withCache]. rewrite HE, ticks_trace.
      rewrite HD, ticks_trace. rewrite HA, ticks_trace. unfold w1. cbn [tick w_trace].
      repeat (rewrite <- app_assoc; cbn [app]). reflexivity. }
    split.
    { constructor; [exact I|]. apply Forall_app. split; [exact HnA|].
      constructor; [exact I|]. apply Forall_app. split; [exact HnD|].
      constructor; [exact I | exact HnE]. }
    cbn [length]. rewrite !length_app. cbn [length]. rewrite !length_app. cbn [length].
    split; lia.
Qed.

End Requests.

(** * The filter and its pattern lists *)

Section FilterOrder.

Variable MatchString : string -> string -> option bool.

Lemma filter_sublist_pointwise {A : Type} (f g : A -> bool) (l : list A) :
  (forall x, f x = true -> g x = true) ->
  sublist (List.filter f l) (List.filter g l).
Proof.
  intros Hfg. induction l as [|a l IH]; simpl; [constructor|].
  destruct (f a) eqn:Hf.
  - rewrite (Hfg a Hf). now constructor.
  - destruct (g a); [now constructor | exact IH].
Qed.

(** X23.  The filter reads its two lists as sets of patterns: configurations
    with the same patterns, in any order and number, filter alike.  A longer
    blacklist can only take entities away; and a pattern added to a
    whitelist that is not empty can only let more through. *)
Theorem filterEntities_patterns (config config' : Config) (entities : list HAState) :
  ((forall p, In p (EntityBlacklist config) <-> In p (EntityBlacklist config')) ->
   (forall p, In p (EntityFilter config) <-> In p (EntityFilter config')) ->
   filterEntities MatchString config' entities = filterEntities MatchString config entities) /\
  ((forall p, In p (EntityBlacklist config) -> In p (EntityBlacklist config')) ->
   EntityFilter config' = EntityFilter config ->
   sublist (filterEntities MatchString config' entities)
           (filterEntities MatchString config entities)) /\
  (EntityBlacklist config' = EntityBlacklist config ->
   EntityFilter config <> [] ->
   (forall p, In p (EntityFilter config) -> In p (EntityFilter config')) ->
   sublist (filterEntities MatchString config entities)
           (filterEntities MatchString config' entities)).
Proof.
  rewrite !filterEntities_filter.
  split; [|split].
  - intros Hb Hw. induction entities as [|e l IH]; simpl; [reflexivity|].
    replace (passes MatchString config' e) with (passes MatchString config e);
      [now rewrite IH|].
    apply eq_true_iff_eq. rewrite !passes_true.
    unfold matchesBlacklist, matchesWhitelist.
    assert (He : EntityFilter config = [] <-> EntityFilter config' = []).
    { split; intros H0.
      - destruct (EntityFilter config') as [|p ps] eqn:Hc; [reflexivity|].
        exfalso. assert (Hin : In p (EntityFilter config)) by (apply Hw; now left).
        rewrite H0 in Hin. destruct Hin.
      - destruct (EntityFilter config) as [|p ps] eqn:Hc; [reflexivity|].
        exfalso. assert (Hin : In p (EntityFilter config')) by (apply Hw; now left).
        rewrite H0 in Hin. destruct Hin. }
    split; intros [Hno Hyes]; split.
    + intros (p & Hin & Hp). apply Hno. exists p. split; [now apply Hb | exact Hp].
    + destruct Hyes as [H0 | (p & Hin & Hp)]; [left; now apply He|].
      right. exists p. split; [now apply Hw | exact Hp].
    + intros (p & Hin & Hp). apply Hno. exists p. split; [now apply Hb | exact Hp].
    + destruct Hyes as [H0 | (p & Hin & Hp)]; [left; now apply He|].
      right. exists p. split; [now apply Hw | exact Hp].
  - intros Hb Hw. apply filter_sublist_pointwise. intros e.
    rewrite !passes_true. unfold matchesBlacklist, matchesWhitelist. rewrite Hw.
    intros [Hno Hyes]. split; [|exact Hyes].
    intros (p & Hin & Hp). apply Hno. exists p. auto.
  - intros Hb Hne Hw. apply filter_sublist_pointwise. intros e.
    rewrite !passes_true. unfold matchesBlacklist, matchesWhitelist. rewrite Hb.
    intros [Hno Hyes]. split; [exact Hno|].
    destruct Hyes as [H0 | (p & Hin & Hp)]; [congruence|].
    right. exists p. auto.
Qed.

End FilterOrder.
